(** * DVR face-recognition system: store, dedup/notify loop and dashboard

    A shallow embedding of [system/database.py], [system/notifier.py],
    [system/main.py] and [web/app.py].

    Conventions of the model:
    - SQLite tables are lists of rows kept in rowid order (a full table scan
      visits rows in that order); a connection that raises before
      [conn.commit()] leaves the store as it was.
    - [CURRENT_TIMESTAMP] is a [Z] (seconds), supplied by the caller.
    - numpy [float64] values (distances, confidences, [time.time()]) are
      idealised as rationals [Q]: no rounding and no NaN.
    - the external libraries ([face_recognition], [cv2]) appear as section
      variables.
    - a Python [int] is a [Z]; sqlite3 binds only the integers of the signed
      64-bit range ([sql_int]) and raises [OverflowError] for any other. *)

From Stdlib Require Import ZArith QArith Qabs List String Ascii Bool Lia Lqa Sorted.
From stdpp Require Import base gmap strings list.
Import ListNotations.

#[local] Open Scope string_scope.
#[local] Open Scope list_scope.
#[local] Open Scope Z_scope.

(** ** Python helpers *)

(** [s.replace(' ', '_')] *)
Fixpoint replace_space (s : string) : string :=
  match s with
  | EmptyString => EmptyString
  | String c s' =>
      String (if Ascii.eqb c " "%char then "_"%char else c) (replace_space s')
  end.

(** Truthiness of a Python [str]: [if name:] / [if not name:] *)
Definition str_truthy (s : string) : bool := negb (String.eqb s "").

(** Truthiness of an [Optional[int]]: [None] and [0] are falsy. *)
Definition optint_truthy (o : option Z) : bool :=
  match o with
  | None => false
  | Some n => negb (n =? 0)
  end.

(** A Python [int] that [sqlite3] can bind as a statement parameter: SQLite
    integers are signed 64-bit, and binding any other [int] raises
    [OverflowError]. *)
Definition sql_int (n : Z) : bool :=
  (- 2 ^ 63 <=? n) && (n <? 2 ^ 63).

(** A file name that can be created inside an existing directory: no path
    separator and no NUL character, and at most 255 bytes. *)
Definition name_char (c : ascii) : bool :=
  negb (Ascii.eqb c "/"%char) && negb (Ascii.eqb c "000"%char).

Definition writable_name (file_name : string) : bool :=
  forallb name_char (list_ascii_of_string file_name)
  && (Z.of_nat (String.length file_name) <=? 255).

(** ** system/database.py *)

Module Database.

(** A face embedding: the [np.float64] vector stored as a BLOB by
    [face_encoding.tobytes()] and read back with [np.frombuffer]. *)
Definition encoding : Type := list Q.

(** Row of table [persons]. *)
Record person : Type := Person {
  p_id : Z;
  p_name : string;
  p_face_encoding : encoding;
  p_first_seen : Z;
  p_last_seen : Z;
  p_visit_count : Z;
  p_notes : string;
  p_created_at : Z
}.

(** Row of table [visits]. *)
Record visit : Type := Visit {
  v_id : Z;
  v_person_id : Z;
  v_timestamp : Z;
  v_confidence : Q;
  v_image_path : string
}.

(** Row of table [unknown_visitors]. *)
Record unknown_visitor : Type := UnknownVisitor {
  u_id : Z;
  u_timestamp : Z;
  u_image_path : string;
  u_identified : bool;
  u_identified_as : option Z
}.

(** The database file: three tables and the [sqlite_sequence] counters kept
    for the AUTOINCREMENT keys. *)
Record db : Type := Db {
  persons : list person;
  visits : list visit;
  unknown_visitors : list unknown_visitor;
  seq_persons : Z;
  seq_visits : Z;
  seq_unknown : Z
}.

(** [init_database] on a fresh file. *)
Definition init_database : db :=
  {| persons := []; visits := []; unknown_visitors := [];
     seq_persons := 0; seq_visits := 0; seq_unknown := 0 |}.

(** AUTOINCREMENT: one more than the largest rowid that ever existed. *)
Definition next_rowid (seq : Z) (ids : list Z) : Z :=
  fold_right Z.max seq ids + 1.

(** [LIMIT n]: a negative limit means no limit. *)
Definition sql_limit {A : Type} (n : Z) (rows : list A) : list A :=
  if n <? 0 then rows else firstn (Z.to_nat n) rows.

(** [ORDER BY key DESC]: rows with equal keys stay in scan order. *)
Fixpoint insert_desc {A : Type} (key : A -> Z) (x : A) (rows : list A) : list A :=
  match rows with
  | [] => [x]
  | y :: rows' =>
      if key x <? key y then y :: insert_desc key x rows' else x :: rows
  end.

Definition order_by_desc {A : Type} (key : A -> Z) (rows : list A) : list A :=
  fold_right (insert_desc key) [] rows.

(** UNIQUE(name) check of [INSERT INTO persons]. *)
Definition name_taken (name : string) (s : db) : bool :=
  existsb (fun p => String.eqb (p_name p) name) (persons s).

(** [Database.add_person]: the new id, or [None] on [IntegrityError]. *)
Definition add_person (s : db) (now : Z) (name : string)
    (face_encoding : encoding) (notes : string) : option Z * db :=
  if name_taken name s then (None, s)
  else
    let person_id := next_rowid (seq_persons s) (map p_id (persons s)) in
    (Some person_id,
     {| persons := persons s ++
          [ {| p_id := person_id; p_name := name;
               p_face_encoding := face_encoding;
               p_first_seen := now; p_last_seen := now;
               p_visit_count := 0; p_notes := notes;
               p_created_at := now |} ];
        visits := visits s;
        unknown_visitors := unknown_visitors s;
        seq_persons := person_id;
        seq_visits := seq_visits s;
        seq_unknown := seq_unknown s |}).

(** [Database.get_person], for a [person_id] that sqlite3 can bind; for any
    other the call raises, see [DatabaseQueries.get_person_call]. *)
Definition get_person (s : db) (person_id : Z) : option person :=
  find (fun p => p_id p =? person_id) (persons s).

(** [Database.get_person_by_name] *)
Definition get_person_by_name (s : db) (name : string) : option person :=
  find (fun p => String.eqb (p_name p) name) (persons s).

Definition set_name (name : string) (p : person) : person :=
  {| p_id := p_id p; p_name := name; p_face_encoding := p_face_encoding p;
     p_first_seen := p_first_seen p; p_last_seen := p_last_seen p;
     p_visit_count := p_visit_count p; p_notes := p_notes p;
     p_created_at := p_created_at p |}.

Definition set_notes (notes : string) (p : person) : person :=
  {| p_id := p_id p; p_name := p_name p; p_face_encoding := p_face_encoding p;
     p_first_seen := p_first_seen p; p_last_seen := p_last_seen p;
     p_visit_count := p_visit_count p; p_notes := notes;
     p_created_at := p_created_at p |}.

(** [UPDATE persons SET ... WHERE id = ?] *)
Definition update_where_id (person_id : Z) (f : person -> person)
    (rows : list person) : list person :=
  map (fun p => if p_id p =? person_id then f p else p) rows.

(** UNIQUE(name) check of [UPDATE persons SET name = ? WHERE id = ?]: some
    row is updated and another row already carries the name. *)
Definition rename_conflict (person_id : Z) (name : string) (rows : list person) : bool :=
  existsb (fun p => p_id p =? person_id) rows
  && existsb (fun q => negb (p_id q =? person_id) && String.eqb (p_name q) name) rows.

Definition with_persons (s : db) (rows : list person) : db :=
  {| persons := rows; visits := visits s;
     unknown_visitors := unknown_visitors s;
     seq_persons := seq_persons s; seq_visits := seq_visits s;
     seq_unknown := seq_unknown s |}.

(** Whether [Database.update_person] executes a statement at all: [if name:]
    or [if notes is not None:]. *)
Definition executes_update (name : option string) (notes : option string) : bool :=
  match name with Some n => str_truthy n | None => false end
  || match notes with Some _ => true | None => false end.

(** [Database.update_person]: [False] on [IntegrityError] and on any other
    exception, nothing committed.  The first statement executed binds
    [person_id], which raises [OverflowError] outside the signed 64-bit
    range. *)
Definition update_person (s : db) (person_id : Z)
    (name : option string) (notes : option string) : bool * db :=
  if executes_update name notes && negb (sql_int person_id) then (false, s)
  else
  let renamed :=
    match name with
    | Some n =>
        if str_truthy n then
          if rename_conflict person_id n (persons s) then None
          else Some (update_where_id person_id (set_name n) (persons s))
        else Some (persons s)
    | None => Some (persons s)
    end in
  match renamed with
  | None => (false, s)
  | Some rows =>
      let rows' :=
        match notes with
        | Some t => update_where_id person_id (set_notes t) rows
        | None => rows
        end in
      (true, with_persons s rows')
  end.

(** [Database.delete_person]: [True] once both DELETE statements are
    committed, [False] when a statement raises.  Binding [person_id] raises
    [OverflowError] outside the signed 64-bit range, before any row is
    touched; no row of a SQLite table carries such an id, so the two DELETE
    statements describe the store in that case as well. *)
Definition delete_person (s : db) (person_id : Z) : bool * db :=
  (sql_int person_id,
   {| persons := List.filter (fun p => negb (p_id p =? person_id)) (persons s);
      visits := List.filter (fun v => negb (v_person_id v =? person_id)) (visits s);
      unknown_visitors := unknown_visitors s;
      seq_persons := seq_persons s; seq_visits := seq_visits s;
      seq_unknown := seq_unknown s |}).

Definition seen_again (now : Z) (p : person) : person :=
  {| p_id := p_id p; p_name := p_name p; p_face_encoding := p_face_encoding p;
     p_first_seen := p_first_seen p; p_last_seen := now;
     p_visit_count := p_visit_count p + 1; p_notes := p_notes p;
     p_created_at := p_created_at p |}.

(** [Database.log_visit]: the id of the inserted visit. *)
Definition log_visit (s : db) (now : Z) (person_id : Z) (confidence : Q)
    (image_path : string) : option Z * db :=
  let visit_id := next_rowid (seq_visits s) (map v_id (visits s)) in
  (Some visit_id,
   {| persons := update_where_id person_id (seen_again now) (persons s);
      visits := visits s ++
        [ {| v_id := visit_id; v_person_id := person_id; v_timestamp := now;
             v_confidence := confidence; v_image_path := image_path |} ];
      unknown_visitors := unknown_visitors s;
      seq_persons := seq_persons s; seq_visits := visit_id;
      seq_unknown := seq_unknown s |}).

(** [Database.log_unknown_visitor] *)
Definition log_unknown_visitor (s : db) (now : Z) (image_path : string)
    : option Z * db :=
  let unknown_id := next_rowid (seq_unknown s) (map u_id (unknown_visitors s)) in
  (Some unknown_id,
   {| persons := persons s; visits := visits s;
      unknown_visitors := unknown_visitors s ++
        [ {| u_id := unknown_id; u_timestamp := now;
             u_image_path := image_path;
             u_identified := false; u_identified_as := None |} ];
      seq_persons := seq_persons s; seq_visits := seq_visits s;
      seq_unknown := unknown_id |}).

(** [Database.get_unknown_visitors], for a [limit] that sqlite3 can bind; for
    any other the call raises, see
    [DatabaseQueries.get_unknown_visitors_call]. *)
Definition get_unknown_visitors (s : db) (limit : Z) (identified : bool)
    : list unknown_visitor :=
  sql_limit limit
    (order_by_desc u_timestamp
       (List.filter (fun u => Bool.eqb (u_identified u) identified)
          (unknown_visitors s))).

Definition identify_row (person_id : Z) (u : unknown_visitor) : unknown_visitor :=
  {| u_id := u_id u; u_timestamp := u_timestamp u;
     u_image_path := u_image_path u;
     u_identified := true; u_identified_as := Some person_id |}.

(** [Database.mark_unknown_as_identified] *)
Definition mark_unknown_as_identified (s : db) (unknown_id person_id : Z)
    : bool * db :=
  (true,
   {| persons := persons s; visits := visits s;
      unknown_visitors :=
        map (fun u => if u_id u =? unknown_id then identify_row person_id u else u)
          (unknown_visitors s);
      seq_persons := seq_persons s; seq_visits := seq_visits s;
      seq_unknown := seq_unknown s |}).

(** Result of [Database.get_statistics]. *)
Record statistics : Type := Statistics {
  total_persons : Z;
  total_visits : Z;
  unknown_visitors_open : Z;
  visits_today : Z;
  most_frequent_visitor : option string * Z
}.

(** [DATE(timestamp)]: the day a second-resolution timestamp falls on. *)
Definition sql_date (t : Z) : Z := t / 86400.

Definition count_rows {A : Type} (rows : list A) : Z := Z.of_nat (length rows).

(** [Database.get_statistics] *)
Definition get_statistics (s : db) (now : Z) : statistics :=
  let result := hd_error (sql_limit 1 (order_by_desc p_visit_count (persons s))) in
  {| total_persons := count_rows (persons s);
     total_visits := count_rows (visits s);
     unknown_visitors_open :=
       count_rows (List.filter (fun u => negb (u_identified u)) (unknown_visitors s));
     visits_today :=
       count_rows (List.filter (fun v => sql_date (v_timestamp v) =? sql_date now)
                     (visits s));
     most_frequent_visitor :=
       match result with
       | Some p => (Some (p_name p), p_visit_count p)
       | None => (None, 0)
       end |}.

End Database.

(** ** system/notifier.py *)

Module Notifier.

(** One notification as handed to the channels.  [full_message] is
    [n_message] followed by the formatted [n_confidence] when there is one. *)
Record notification : Type := Notification {
  n_title : string;
  n_message : string;
  n_image_path : option string;
  n_confidence : option Q;
  n_timestamp : string
}.

Inductive channel : Type := Email | Telegram.

(** The [Notifier] object, with the console output and the outbound HTTP
    calls it has made so far. *)
Record notifier : Type := MkNotifier {
  enabled : bool;
  email_enabled : bool;
  sendgrid_api_key : option string;
  from_email : option string;
  to_email : option string;
  telegram_enabled : bool;
  telegram_bot_token : option string;
  telegram_chat_id : option string;
  web_notifications : list notification;
  console : list notification;
  outbox : list (channel * notification)
}.

Definition max_web_notifications : nat := 100.

Definition optstr_truthy (o : option string) : bool :=
  match o with
  | None => false
  | Some s => str_truthy s
  end.

(** [Notifier._store_web_notification] *)
Definition store_web_notification (feed : list notification) (n : notification)
    : list notification :=
  let feed' := n :: feed in
  if (Nat.ltb max_web_notifications (length feed'))
  then firstn max_web_notifications feed' else feed'.

(** [Notifier.send_notification] *)
Definition send_notification (nt : notifier) (timestamp : string)
    (title message : string) (image_path : option string)
    (confidence : option Q) : notifier :=
  if negb (enabled nt) then nt
  else
    let n := {| n_title := title; n_message := message;
                n_image_path := image_path; n_confidence := confidence;
                n_timestamp := timestamp |} in
    let by_email :=
      if email_enabled nt
         && optstr_truthy (sendgrid_api_key nt)
         && optstr_truthy (from_email nt) && optstr_truthy (to_email nt)
      then [(Email, n)] else [] in
    let by_telegram :=
      if telegram_enabled nt
         && optstr_truthy (telegram_bot_token nt)
         && optstr_truthy (telegram_chat_id nt)
      then [(Telegram, n)] else [] in
    {| enabled := enabled nt;
       email_enabled := email_enabled nt;
       sendgrid_api_key := sendgrid_api_key nt;
       from_email := from_email nt;
       to_email := to_email nt;
       telegram_enabled := telegram_enabled nt;
       telegram_bot_token := telegram_bot_token nt;
       telegram_chat_id := telegram_chat_id nt;
       web_notifications := store_web_notification (web_notifications nt) n;
       console := console nt ++ [n];
       outbox := outbox nt ++ by_email ++ by_telegram |}.

End Notifier.

(** ** system/main.py *)

Module FaceRecognitionSystem.

Import Database.

(** [self.known_faces]: three parallel lists. *)
Record known_faces : Type := KnownFaces {
  encodings : list encoding;
  names : list string;
  ids : list Z
}.

(** [ORDER BY name] of [get_all_persons]. *)
Fixpoint insert_by_name (p : person) (rows : list person) : list person :=
  match rows with
  | [] => [p]
  | q :: rows' =>
      if String.ltb (p_name q) (p_name p) then q :: insert_by_name p rows'
      else p :: rows
  end.

Definition get_all_persons (s : db) : list person :=
  fold_right insert_by_name [] (persons s).

(** [FaceRecognitionSystem.load_known_faces] *)
Definition load_known_faces (s : db) : known_faces :=
  let rows := get_all_persons s in
  {| encodings := map p_face_encoding rows;
     names := map p_name rows;
     ids := map p_id rows |}.

Definition Qlt_bool (x y : Q) : bool := negb (Qle_bool y x).

(** [np.argmin]: the first index holding the smallest value. *)
Fixpoint argmin_from (best_index : nat) (best : Q) (i : nat) (l : list Q) : nat :=
  match l with
  | [] => best_index
  | d :: l' =>
      if Qlt_bool d best then argmin_from i d (S i) l'
      else argmin_from best_index best (S i) l'
  end.

Definition argmin (l : list Q) : nat :=
  match l with
  | [] => 0%nat
  | d :: l' => argmin_from 0 d 1 l'
  end.

(** What the matching step of [process_frame] assigns to one face. *)
Record recognition : Type := Recognition {
  r_name : string;
  r_person_id : option Z;
  r_confidence : Q
}.

Definition unknown_face : recognition :=
  {| r_name := "Unknown"; r_person_id := None; r_confidence := 0%Q |}.

(** A face found in the downscaled frame: its embedding, its box
    [(top, right, bottom, left)], the [strftime] stamp used for the file name
    and the JPEG bytes of the crop written by [cv2.imwrite]. *)
Record face : Type := Face {
  f_encoding : encoding;
  f_location : Z * Z * Z * Z;
  f_stamp : string;
  f_crop : string
}.

(** An entry of [recognized_persons]. *)
Record detection : Type := Detection {
  d_name : string;
  d_person_id : option Z;
  d_confidence : Q;
  d_image_path : string;
  d_location : Z * Z * Z * Z
}.

Section Recognizer.

(** [np.linalg.norm(known - face)] of the face_recognition library. *)
Variable distance : encoding -> encoding -> Q.

(** [face_recognition.face_distance] *)
Definition face_distance (known : list encoding) (e : encoding) : list Q :=
  map (fun k => distance k e) known.

(** [face_recognition.compare_faces]:
    [list(face_distance(known, e) <= tolerance)] *)
Definition compare_faces (known : list encoding) (e : encoding) (tolerance : Q)
    : list bool :=
  map (fun d => Qle_bool d tolerance) (face_distance known e).

(** Lines 84-106 of [process_frame]; [None] stands for an [IndexError]. *)
Definition recognize (kf : known_faces) (tolerance : Q) (e : encoding)
    : option recognition :=
  if (Nat.ltb 0 (length (encodings kf))) then
    let matches := compare_faces (encodings kf) e tolerance in
    if existsb (fun b => b) matches then
      let face_distances := face_distance (encodings kf) e in
      let best_match_index := argmin face_distances in
      match matches !! best_match_index with
      | None => None
      | Some true =>
          match names kf !! best_match_index, ids kf !! best_match_index,
                face_distances !! best_match_index with
          | Some n, Some i, Some d =>
              Some {| r_name := n; r_person_id := Some i;
                      r_confidence := (1 - d)%Q |}
          | _, _, _ => None
          end
      | Some false => Some unknown_face
      end
    else Some unknown_face
  else Some unknown_face.

Definition scale_back (loc : Z * Z * Z * Z) : Z * Z * Z * Z :=
  match loc with
  | (top, rgt, bottom, lft) => (top * 4, rgt * 4, bottom * 4, lft * 4)
  end.

Definition image_path_of (stamp name : string) : string :=
  "data/images/" +:+ stamp +:+ "_" +:+ replace_space name +:+ ".jpg".

(** The file name inside [data/images/] that [image_path_of] points to. *)
Definition image_name_of (stamp name : string) : string :=
  stamp +:+ "_" +:+ replace_space name +:+ ".jpg".

(** [cv2.imwrite(img_path, face_img)]: the file is written when its name can
    be created in [data/images/]; otherwise the call returns [False], which
    the loop does not look at, and nothing is written. *)
Definition imwrite (stamp name img_path crop : string)
    (files : gmap string string) : gmap string string :=
  if writable_name (image_name_of stamp name)
  then <[img_path := crop]> files
  else files.

(** [process_frame] over the faces found in one frame: the detections
    ([None] when an exception escapes) and the image files written. *)
Fixpoint process_frame (kf : known_faces) (tolerance : Q)
    (files : gmap string string) (faces : list face)
    : option (list detection) * gmap string string :=
  match faces with
  | [] => (Some [], files)
  | f :: faces' =>
      match recognize kf tolerance (f_encoding f) with
      | None => (None, files)
      | Some r =>
          let img_path := image_path_of (f_stamp f) (r_name r) in
          let files' := imwrite (f_stamp f) (r_name r) img_path (f_crop f) files in
          let '(rest, files'') := process_frame kf tolerance files' faces' in
          (option_map
             (cons {| d_name := r_name r; d_person_id := r_person_id r;
                      d_confidence := r_confidence r;
                      d_image_path := img_path;
                      d_location := scale_back (f_location f) |}) rest,
           files'')
      end
  end.

End Recognizer.

(** [FaceRecognitionSystem.should_notify]: the answer and the new
    [self.last_seen]. *)
Definition should_notify (last_seen : gmap Z Q) (current_time : Q)
    (person_id : option Z) (cooldown_seconds : Q) : bool * gmap Z Q :=
  match person_id with
  | None => (true, last_seen)
  | Some pid =>
      let last_time := default 0%Q (last_seen !! pid) in
      if Qlt_bool cooldown_seconds (current_time - last_time)%Q
      then (true, <[pid := current_time]> last_seen)
      else (false, last_seen)
  end.

(** The mutable part of the running system. *)
Record system : Type := System {
  last_seen : gmap Z Q;
  store : db;
  notifier : Notifier.notifier
}.

(** The clocks read while one detection is handled: [time.time()],
    [CURRENT_TIMESTAMP] and the notifier's [strftime]. *)
Record clocks : Type := Clocks {
  c_time : Q;
  c_now : Z;
  c_stamp : string
}.

(** Body of [for person in persons] in [run].  The pictograph that opens
    each title is left out of the string. *)
Definition handle_person (sys : system) (c : clocks) (person : detection) : system :=
  if optint_truthy (d_person_id person) then
    let '(notify, last_seen') :=
      should_notify (last_seen sys) (c_time c) (d_person_id person) 300%Q in
    if notify then
      let pid := default 0 (d_person_id person) in
      let '(_, store') :=
        log_visit (store sys) (c_now c) pid (d_confidence person)
          (d_image_path person) in
      {| last_seen := last_seen';
         store := store';
         notifier :=
           Notifier.send_notification (notifier sys) (c_stamp c)
             (d_name person +:+ " Detected")
             (d_name person +:+ " arrived at entrance")
             (Some (d_image_path person)) (Some (d_confidence person)) |}
    else {| last_seen := last_seen'; store := store sys; notifier := notifier sys |}
  else
    let '(notify, last_seen') :=
      should_notify (last_seen sys) (c_time c) None 60%Q in
    if notify then
      let '(_, store') :=
        log_unknown_visitor (store sys) (c_now c) (d_image_path person) in
      {| last_seen := last_seen';
         store := store';
         notifier :=
           Notifier.send_notification (notifier sys) (c_stamp c)
             "Unknown Person Detected"
             "Unknown visitor at entrance - please identify"
             (Some (d_image_path person)) None |}
    else {| last_seen := last_seen'; store := store sys; notifier := notifier sys |}.

(** The [for] loop of [run] over the detections of one processed frame. *)
Definition handle_persons (sys : system) (events : list (clocks * detection)) : system :=
  fold_left (fun st ev => handle_person st (fst ev) (snd ev)) events sys.

(** Everything the loop of [run] carries from one iteration to the next. *)
Record loop_state : Type := LoopState {
  sys : system;
  faces_known : known_faces;
  files : gmap string string;
  frame_count : Z
}.

(** One pass through [while self.running]: [frame] is what
    [self.dvr.get_frame()] returned, as the faces found in it, each with the
    clocks read while it is handled.  An exception raised inside the
    iteration is caught by [except Exception] and the loop continues. *)
Definition run_iteration (distance : encoding -> encoding -> Q)
    (tolerance : Q) (process_every_n_frames : Z)
    (st : loop_state) (frame : option (list (face * clocks))) : loop_state :=
  match frame with
  | None => st
  | Some found =>
      let frame_count' := frame_count st + 1 in
      if process_every_n_frames =? 0 then
        {| sys := sys st; faces_known := faces_known st; files := files st;
           frame_count := frame_count' |}
      else if frame_count' mod process_every_n_frames =? 0 then
        match process_frame distance (faces_known st) tolerance (files st)
                (map fst found) with
        | (None, files') =>
            {| sys := sys st; faces_known := faces_known st; files := files';
               frame_count := frame_count' |}
        | (Some persons, files') =>
            {| sys := handle_persons (sys st) (combine (map snd found) persons);
               faces_known := faces_known st; files := files';
               frame_count := frame_count' |}
        end
      else
        {| sys := sys st; faces_known := faces_known st; files := files st;
           frame_count := frame_count' |}
  end.

(** [run] over a finite prefix of the frames delivered by the DVR. *)
Definition run (distance : encoding -> encoding -> Q)
    (tolerance : Q) (process_every_n_frames : Z)
    (st : loop_state) (frames : list (option (list (face * clocks)))) : loop_state :=
  fold_left (run_iteration distance tolerance process_every_n_frames) frames st.

End FaceRecognitionSystem.

(** ** JSON values as Python sees them after [json.load] *)

Module Json.

#[local] Set Warnings "-register-all".

Inductive json : Type :=
| JNull
| JBool (b : bool)
| JInt (n : Z)
| JFloat (q : Q)
| JStr (s : string)
| JArr (items : list json)
| JObj (fields : list (string * json)).

Fixpoint is_prefix (p s : string) : bool :=
  match p, s with
  | EmptyString, _ => true
  | String a p', String b s' => Ascii.eqb a b && is_prefix p' s'
  | String _ _, EmptyString => false
  end.

Fixpoint is_substring (p s : string) : bool :=
  is_prefix p s ||
  match s with
  | EmptyString => false
  | String _ s' => is_substring p s'
  end.

Definition is_str (key : string) (v : json) : bool :=
  match v with
  | JStr s => String.eqb s key
  | _ => false
  end.

(** [d.get(key)] / [d[key]] on the fields of a dict. *)
Fixpoint dict_get (key : string) (fields : list (string * json)) : option json :=
  match fields with
  | [] => None
  | (k, v) :: fields' => if String.eqb k key then Some v else dict_get key fields'
  end.

(** [d.pop(key, None)]: the dict that is left. *)
Definition dict_pop (key : string) (fields : list (string * json))
    : list (string * json) :=
  List.filter (fun kv => negb (String.eqb (fst kv) key)) fields.

(** [d[key] = v]: overwrite in place, or add at the end. *)
Fixpoint dict_set (key : string) (v : json) (fields : list (string * json))
    : list (string * json) :=
  match fields with
  | [] => [(key, v)]
  | (k, w) :: fields' =>
      if String.eqb k key then (k, v) :: fields'
      else (k, w) :: dict_set key v fields'
  end.

(** [key in v]; [None] when Python raises [TypeError]. *)
Definition py_in (key : string) (v : json) : option bool :=
  match v with
  | JObj fields => Some (existsb (fun kv => String.eqb (fst kv) key) fields)
  | JArr items => Some (existsb (is_str key) items)
  | JStr s => Some (is_substring key s)
  | _ => None
  end.

(** [v[key]] for a string key; [None] when Python raises. *)
Definition py_getitem (v : json) (key : string) : option json :=
  match v with
  | JObj fields => dict_get key fields
  | _ => None
  end.

(** [v.pop(key, None)] seen as the value [v] has afterwards; [None] when
    Python raises ([list.pop] takes one argument, the rest have no [pop]). *)
Definition py_pop (v : json) (key : string) : option json :=
  match v with
  | JObj fields => Some (JObj (dict_pop key fields))
  | _ => None
  end.

(** The effect on [v] of mutating the object stored under [v[key]]. *)
Definition put_back (v : json) (key : string) (child : json) : json :=
  match v with
  | JObj fields => JObj (dict_set key child fields)
  | _ => v
  end.

End Json.

(** ** web/app.py *)

Module App.

Import Database Json.

(** Body of a reply.  [Raised] is [{'error': str(e)}] for an exception [e]
    caught by the handler (or the framework's own reply to an uncaught one). *)
Inductive body : Type :=
| Error (msg : string)
| Raised
| Added (person_id : Z) (message : string)
| Done (message : string)
| Payload (j : json).

Record response : Type := Response {
  status : Z;
  content : body
}.

(** What the dashboard process shares with the loop: the database file and
    the image directory.  [observed] lists every store state that a commit
    has made visible to other connections, oldest first. *)
Record world : Type := World {
  store : db;
  files : gmap string string;
  observed : list db
}.

Definition commit (w : world) (s' : db) : world :=
  {| store := s'; files := files w; observed := observed w ++ [s'] |}.

(** The JSON body of a person request, once parsed: [name] may be missing
    and [notes] defaults to the empty string. *)
Record person_form : Type := PersonForm {
  form_name : option string;
  form_notes : string
}.

(** An uploaded file of [request.files]: its client file name and bytes. *)
Record upload : Type := Upload {
  up_filename : string;
  up_bytes : string
}.

(** A request as Flask hands it to [POST /api/person].  Its body has one
    content type: a JSON document, which [request.get_json()] parses and
    which leaves [request.files] empty, or a multipart form, whose [file]
    part fills [request.files] and which [request.get_json()] does not
    parse.  [OtherRequest] is any other body (none, malformed JSON, JSON
    that is not an object, a form without a [file] part). *)
Inductive person_request : Type :=
| JsonRequest (data : person_form)
| UploadRequest (file : upload)
| OtherRequest.

(** [request.get_json()]: [None] when the call raises or returns [None], in
    which case [data.get] raises. *)
Definition get_json (rq : person_request) : option person_form :=
  match rq with
  | JsonRequest data => Some data
  | _ => None
  end.

(** [request.files['file']] when ['file' in request.files]. *)
Definition request_file (rq : person_request) : option upload :=
  match rq with
  | UploadRequest file => Some file
  | _ => None
  end.

Definition form_name_truthy (f : person_form) : bool :=
  match form_name f with
  | None => false
  | Some n => str_truthy n
  end.

(** Where [POST /api/person] saves the uploaded image. *)
Definition upload_path (stamp name : string) : string :=
  "../data/images/" +:+ (stamp +:+ "_" +:+ replace_space name +:+ ".jpg").

(** [filename] of [POST /api/person]. *)
Definition upload_name (stamp name : string) : string :=
  stamp +:+ "_" +:+ replace_space name +:+ ".jpg".

Section Handlers.

(** [face_recognition.face_encodings(face_recognition.load_image_file(path))]
    as a function of the bytes of the file: the embeddings of the faces
    found, or [None] when the file cannot be decoded and the library raises. *)
Variable face_encodings : string -> option (list encoding).

(** [POST /api/person].  [stamp] is [datetime.now().strftime(...)] and [now]
    the store's [CURRENT_TIMESTAMP].  [file.save(filepath)] raises when the
    file name built from the person's name cannot be created. *)
Definition add_person (w : world) (stamp : string) (now : Z)
    (rq : person_request) : response * world :=
  match get_json rq with
  | None => ({| status := 500; content := Raised |}, w)
  | Some data =>
      if negb (form_name_truthy data) then
        ({| status := 400; content := Error "Name is required" |}, w)
      else
        let name := default "" (form_name data) in
        let notes := form_notes data in
        match request_file rq with
        | Some file =>
            if String.eqb (up_filename file) "" then
              ({| status := 400; content := Error "No file selected" |}, w)
            else if negb (writable_name (upload_name stamp name)) then
              (* file.save raises *)
              ({| status := 500; content := Raised |}, w)
            else
              let filepath := upload_path stamp name in
              let saved := <[filepath := up_bytes file]> (files w) in
              let w1 := {| store := store w; files := saved;
                           observed := observed w |} in
              match face_encodings (up_bytes file) with
              | None => ({| status := 500; content := Raised |}, w1)
              | Some [] =>
                  ({| status := 400; content := Error "No face found in image" |},
                   {| store := store w; files := delete filepath saved;
                      observed := observed w |})
              | Some (encoding :: _) =>
                  match Database.add_person (store w) now name encoding notes with
                  | (person_id, s') =>
                      if optint_truthy person_id then
                        ({| status := 200;
                            content :=
                              Added (default 0 person_id)
                                ("Person " +:+ name +:+ " added successfully") |},
                         commit w1 s')
                      else
                        ({| status := 500; content := Error "Failed to add person" |},
                         w1)
                  end
              end
        | None => ({| status := 400; content := Error "No image provided" |}, w)
        end
  end.

(** [PUT /api/person/<id>] *)
Definition update_person (w : world) (person_id : Z)
    (name notes : option string) : response * world :=
  match Database.update_person (store w) person_id name notes with
  | (true, s') =>
      ({| status := 200; content := Done "Person updated successfully" |},
       commit w s')
  | (false, _) =>
      ({| status := 500; content := Error "Failed to update person" |}, w)
  end.

(** [DELETE /api/person/<id>] *)
Definition delete_person (w : world) (person_id : Z) : response * world :=
  match Database.delete_person (store w) person_id with
  | (true, s') =>
      ({| status := 200; content := Done "Person deleted successfully" |},
       commit w s')
  | (false, _) =>
      ({| status := 500; content := Error "Failed to delete person" |}, w)
  end.

(** [POST /api/unknown/<id>/identify] *)
Definition identify_unknown (w : world) (now : Z) (unknown_id : Z)
    (rq : option person_form) : response * world :=
  match rq with
  | None => ({| status := 500; content := Raised |}, w)
  | Some data =>
      if negb (form_name_truthy data) then
        ({| status := 400; content := Error "Name is required" |}, w)
      else
        let name := default "" (form_name data) in
        let notes := form_notes data in
        let unknown_visitors := get_unknown_visitors (store w) 1000 false in
        match find (fun v => u_id v =? unknown_id) unknown_visitors with
        | None => ({| status := 404; content := Error "Unknown visitor not found" |}, w)
        | Some unknown =>
            let image_path := u_image_path unknown in
            match files w !! image_path with
            | None => ({| status := 500; content := Raised |}, w)
            | Some image =>
                match face_encodings image with
                | None => ({| status := 500; content := Raised |}, w)
                | Some [] =>
                    ({| status := 400; content := Error "No face found in image" |}, w)
                | Some (encoding :: _) =>
                    match Database.add_person (store w) now name encoding notes with
                    | (person_id, s1) =>
                        if optint_truthy person_id then
                          let w1 := commit w s1 in
                          let '(_, s2) :=
                            mark_unknown_as_identified (store w1) unknown_id
                              (default 0 person_id) in
                          ({| status := 200;
                              content :=
                                Added (default 0 person_id)
                                  ("Unknown visitor identified as " +:+ name) |},
                           commit w1 s2)
                        else
                          ({| status := 500;
                              content := Error "Failed to add person" |}, w)
                    end
                end
            end
        end
  end.

End Handlers.

(** The three [pop] calls of [get_config]; [None] when one of the steps
    raises. *)
Definition strip_dvr (config : json) : option json :=
  match py_in "dvr" config with
  | None => None
  | Some false => Some config
  | Some true =>
      match py_getitem config "dvr" with
      | None => None
      | Some dvr =>
          match py_pop dvr "password" with
          | None => None
          | Some dvr' => Some (put_back config "dvr" dvr')
          end
      end
  end.

Definition strip_channel (channel key : string) (notifications : json)
    : option json :=
  match py_in channel notifications with
  | None => None
  | Some false => Some notifications
  | Some true =>
      match py_getitem notifications channel with
      | None => None
      | Some ch =>
          match py_pop ch key with
          | None => None
          | Some ch' => Some (put_back notifications channel ch')
          end
      end
  end.

Definition strip_notifications (config : json) : option json :=
  match py_in "notifications" config with
  | None => None
  | Some false => Some config
  | Some true =>
      match py_getitem config "notifications" with
      | None => None
      | Some n0 =>
          match strip_channel "email" "sendgrid_api_key" n0 with
          | None => None
          | Some n1 =>
              match strip_channel "telegram" "bot_token" n1 with
              | None => None
              | Some n2 => Some (put_back config "notifications" n2)
              end
          end
      end
  end.

(** [GET /api/config]; [document] is the parsed [config.json], [None] when
    the file cannot be opened or parsed. *)
Definition get_config (document : option json) : response :=
  match document with
  | None => {| status := 500; content := Raised |}
  | Some config =>
      match strip_dvr config with
      | None => {| status := 500; content := Raised |}
      | Some config1 =>
          match strip_notifications config1 with
          | None => {| status := 500; content := Raised |}
          | Some config2 => {| status := 200; content := Payload config2 |}
          end
      end
  end.

End App.

(** * Specification predicates and sample data *)

Module Spec.

Import Database FaceRecognitionSystem.

(** The constraints of the schema on table [persons]: the primary key grows
    along the table and [name] is UNIQUE. *)
Definition ids_increasing (s : db) : Prop :=
  StronglySorted Z.lt (map p_id (persons s)).

Definition names_unique (s : db) : Prop :=
  List.NoDup (map p_name (persons s)).

Definition schema_ok (s : db) : Prop :=
  ids_increasing s /\ names_unique s.

(** Create and update requests, for statements about sequences of them. *)
Inductive person_op : Type :=
| Create (now : Z) (name : string) (face_encoding : encoding) (notes : string)
| Update (person_id : Z) (name notes : option string).

Definition apply_op (s : db) (op : person_op) : db :=
  match op with
  | Create now name e notes => snd (add_person s now name e notes)
  | Update pid name notes => snd (update_person s pid name notes)
  end.

Definition apply_ops (s : db) (ops : list person_op) : db :=
  fold_left apply_op ops s.

(** A sighting is resolved exactly when it points at a person. *)
Definition sighting_consistent (u : unknown_visitor) : Prop :=
  u_identified u = true <-> u_identified_as u <> None.

Definition sightings_consistent (s : db) : Prop :=
  Forall sighting_consistent (unknown_visitors s).

(** Every mutating call of the store, and the states they lead to from a
    fresh database. *)
Inductive store_call : Type :=
| CallAddPerson (now : Z) (name : string) (face_encoding : encoding)
    (notes : string)
| CallUpdatePerson (person_id : Z) (name notes : option string)
| CallDeletePerson (person_id : Z)
| CallLogVisit (now person_id : Z) (confidence : Q) (image_path : string)
| CallLogUnknown (now : Z) (image_path : string)
| CallMarkIdentified (unknown_id person_id : Z).

Definition call_store (s : db) (c : store_call) : db :=
  match c with
  | CallAddPerson now name e notes => snd (add_person s now name e notes)
  | CallUpdatePerson pid name notes => snd (update_person s pid name notes)
  | CallDeletePerson pid => snd (delete_person s pid)
  | CallLogVisit now pid conf path => snd (log_visit s now pid conf path)
  | CallLogUnknown now path => snd (log_unknown_visitor s now path)
  | CallMarkIdentified uid pid => snd (mark_unknown_as_identified s uid pid)
  end.

Definition reachable (s : db) : Prop :=
  exists calls, s = fold_left call_store calls init_database.

(** What one step of the loop added to the store and to the console. *)
Definition produced_visits (before after : system) : Z :=
  Z.of_nat (length (visits (store after)))
  - Z.of_nat (length (visits (store before))).

Definition produced_sightings (before after : system) : Z :=
  Z.of_nat (length (unknown_visitors (store after)))
  - Z.of_nat (length (unknown_visitors (store before))).

Definition produced_notifications (before after : system) : Z :=
  Z.of_nat (length (Notifier.console (notifier after)))
  - Z.of_nat (length (Notifier.console (notifier before))).

End Spec.

Module ConfigSpec.

Import Json.

(** [v[k1][k2]...], [None] as soon as a step fails. *)
Fixpoint lookup_path (path : list string) (v : json) : option json :=
  match path with
  | [] => Some v
  | k :: path' =>
      match py_getitem v k with
      | Some child => lookup_path path' child
      | None => None
      end
  end.

(** [v[key] = x] when [v] is a dict; any other value is left alone. *)
Definition assign_in (key : string) (x : json) (v : json) : json :=
  match v with
  | JObj fields => JObj (dict_set key x fields)
  | _ => v
  end.

(** Change the value stored under [key], when there is one. *)
Definition update_in (key : string) (f : json -> json) (v : json) : json :=
  match py_getitem v key with
  | Some child => put_back v key (f child)
  | None => v
  end.

(** The three secrets of a configuration document, overwritten (or added
    where the enclosing object exists without them). *)
Definition with_password (pw : json) (config : json) : json :=
  update_in "dvr" (assign_in "password" pw) config.

Definition with_api_key (key : json) (config : json) : json :=
  update_in "notifications"
    (update_in "email" (assign_in "sendgrid_api_key" key)) config.

Definition with_bot_token (tok : json) (config : json) : json :=
  update_in "notifications"
    (update_in "telegram" (assign_in "bot_token" tok)) config.

Definition with_secrets (pw key tok : json) (config : json) : json :=
  with_bot_token tok (with_api_key key (with_password pw config)).

(** The shape shared by the three redaction steps of [get_config]:
    [if k in v: g(v[k])]. *)
Definition on_field (k : string) (g : json -> option json) (v : json)
    : option json :=
  match py_in k v with
  | None => None
  | Some false => Some v
  | Some true =>
      match py_getitem v k with
      | None => None
      | Some child =>
          match g child with
          | None => None
          | Some child' => Some (put_back v k child')
          end
      end
  end.

End ConfigSpec.

(** Three properties as the specification words them; the code does not
    meet them (see [Checks]). *)
Module Claims.

Import Database FaceRecognitionSystem Spec.

(** Two unknown detections less than 60 seconds apart share one cooldown
    bucket: at most one sighting and one notification between them. *)
Definition unknown_bucket_claim (sys : system) (c1 c2 : clocks)
    (d1 d2 : detection) : Prop :=
  d_person_id d1 = None -> d_person_id d2 = None ->
  (c_time c2 - c_time c1 < 60)%Q ->
  let s1 := handle_person sys c1 d1 in
  let s2 := handle_person s1 c2 d2 in
  produced_sightings sys s1 + produced_sightings s1 s2 <= 1 /\
  produced_notifications sys s1 + produced_notifications s1 s2 <= 1.

(** [POST /api/person] with an uploaded image: success only for an image
    with exactly one face; any other image is rejected with a 4xx reply that
    reports that no face was found, the saved upload is gone and the store
    is unchanged. *)
Definition upload_checked_claim (fe : string -> option (list encoding))
    (w : App.world) (stamp : string) (now : Z) (file : App.upload) : Prop :=
  let res := App.add_person fe w stamp now (App.UploadRequest file) in
  (App.status (fst res) = 200 ->
   exists e, fe (App.up_bytes file) = Some [e]) /\
  ((forall e, fe (App.up_bytes file) <> Some [e]) ->
   App.content (fst res) = App.Error "No face found in image" /\
   400 <= App.status (fst res) < 500 /\
   App.files (snd res) = App.files w /\
   App.store (snd res) = App.store w).

(** The store operation returns [True] and [DELETE /api/person/<id>] reports
    success for every [person_id]. *)
Definition delete_always_succeeds_claim (w : App.world) (person_id : Z) : Prop :=
  fst (delete_person (App.store w) person_id) = true /\
  App.status (fst (App.delete_person w person_id)) = 200.

(** Promotion is atomic: every store state made visible by a successful
    promotion has the new person exactly when it has the sighting resolved. *)
Definition promotion_atomic_claim (fe : string -> option (list encoding))
    (w : App.world) (now unknown_id : Z) (data : App.person_form) : Prop :=
  let res := App.identify_unknown fe w now unknown_id (Some data) in
  App.status (fst res) = 200 ->
  forall s, In s (App.observed (snd res)) -> ~ In s (App.observed w) ->
    (exists p, In p (persons s) /\ App.form_name data = Some (p_name p)) <->
    (exists u, In u (unknown_visitors s) /\ u_id u = unknown_id /\
               u_identified u = true).

End Claims.

Module Samples.

Import Database FaceRecognitionSystem Json Spec.

Definition registered (id : Z) (name : string) (count : Z) : person :=
  {| p_id := id; p_name := name; p_face_encoding := [inject_Z id];
     p_first_seen := 0; p_last_seen := 0; p_visit_count := count;
     p_notes := ""; p_created_at := 0 |}.

(** Three persons; the two busiest are level. *)
Definition sample_store : db :=
  {| persons := [registered 1 "Alice" 2; registered 2 "Bob" 5;
                 registered 3 "Carol" 5];
     visits := [ {| v_id := 1; v_person_id := 1; v_timestamp := 50;
                    v_confidence := 0.9%Q; v_image_path := "a.jpg" |};
                 {| v_id := 2; v_person_id := 2; v_timestamp := 60;
                    v_confidence := 0.8%Q; v_image_path := "b.jpg" |} ];
     unknown_visitors := [];
     seq_persons := 3; seq_visits := 2; seq_unknown := 0 |}.

Definition sample_ops : list person_op :=
  [Create 10 "Dave" [4%Q] ""; Update 1 (Some "Bob") None;
   Update 3 (Some "Cara") (Some "renamed"); Create 11 "Alice" [5%Q] ""].

Definition console_only : Notifier.notifier :=
  {| Notifier.enabled := true;
     Notifier.email_enabled := false;
     Notifier.sendgrid_api_key := None;
     Notifier.from_email := None;
     Notifier.to_email := None;
     Notifier.telegram_enabled := false;
     Notifier.telegram_bot_token := None;
     Notifier.telegram_chat_id := None;
     Notifier.web_notifications := [];
     Notifier.console := [];
     Notifier.outbox := [] |}.

Definition idle_system : system :=
  {| last_seen := ∅; store := sample_store; notifier := console_only |}.

Definition clocks_at (t : Z) : clocks :=
  {| c_time := inject_Z t; c_now := t; c_stamp := "2024-01-01 12:00:00" |}.

Definition alice_seen : detection :=
  {| d_name := "Alice"; d_person_id := Some 1; d_confidence := 0.9%Q;
     d_image_path := "data/images/t_Alice.jpg"; d_location := (0, 40, 40, 0) |}.

Definition stranger_seen : detection :=
  {| d_name := "Unknown"; d_person_id := None; d_confidence := 0%Q;
     d_image_path := "data/images/t_Unknown.jpg"; d_location := (0, 40, 40, 0) |}.

(** A distance on one-dimensional embeddings. *)
Definition abs_distance (k e : encoding) : Q :=
  Qabs (hd 0%Q k - hd 0%Q e).

Definition two_known : known_faces :=
  {| encodings := [[1%Q]; [4%Q]]; names := ["Alice"; "Bob"]; ids := [1; 2] |}.

Definition one_face (bytes : string) : option (list encoding) :=
  Some [[1%Q]].

Definition no_face (bytes : string) : option (list encoding) :=
  Some [].

Definition empty_world : App.world :=
  {| App.store := init_database; App.files := ∅; App.observed := [] |}.

(** The dashboard over [sample_store]. *)
Definition populated_world : App.world :=
  {| App.store := sample_store; App.files := ∅; App.observed := [] |}.

(** A multipart upload of [bob.jpg], and a JSON body that names Bob. *)
Definition bob_upload : App.upload :=
  {| App.up_filename := "bob.jpg"; App.up_bytes := "jpeg" |}.

Definition upload_request : App.person_request :=
  App.UploadRequest bob_upload.

Definition json_request : App.person_request :=
  App.JsonRequest {| App.form_name := Some "Bob Ray"; App.form_notes := "" |}.

Definition sighting_store : db :=
  {| persons := []; visits := [];
     unknown_visitors :=
       [ {| u_id := 1; u_timestamp := 100;
            u_image_path := "data/images/t_Unknown.jpg";
            u_identified := false; u_identified_as := None |} ];
     seq_persons := 0; seq_visits := 0; seq_unknown := 1 |}.

Definition sighting_world : App.world :=
  {| App.store := sighting_store;
     App.files := {[ "data/images/t_Unknown.jpg" := "jpeg" ]};
     App.observed := [] |}.

Definition alice_form : App.person_form :=
  {| App.form_name := Some "Alice"; App.form_notes := "" |}.

(** The store after the first commit of the promotion of sighting 1. *)
Definition promoted_midway : db :=
  snd (add_person sighting_store 200 "Alice" [1%Q] "").

Definition sample_config : json :=
  JObj [("dvr", JObj [("ip", JStr "192.168.1.100");
                      ("username", JStr "admin");
                      ("password", JStr "admin123")]);
        ("notifications",
         JObj [("enabled", JBool true);
               ("email", JObj [("enabled", JBool true);
                               ("sendgrid_api_key", JStr "SG.key")]);
               ("telegram", JObj [("bot_token", JStr "123:abc");
                                  ("chat_id", JStr "42")])]);
        ("recognition", JObj [("tolerance", JFloat 0.6%Q);
                              ("process_every_n_frames", JInt 6)])].

(** Alice alone is registered, and her face turns up in a frame. *)
Definition alice_store : db :=
  snd (add_person init_database 0 "Alice" [1%Q] "").

Definition alice_loop : loop_state :=
  {| sys := {| last_seen := ∅; store := alice_store; notifier := console_only |};
     faces_known := load_known_faces alice_store;
     files := ∅;
     frame_count := 0 |}.

Definition alice_frame (t : Z) : option (list (face * clocks)) :=
  Some [ ({| f_encoding := [1.2%Q]; f_location := (10, 30, 30, 10);
             f_stamp := "20240101_120000_000000"; f_crop := "jpeg" |},
          clocks_at t) ].

Definition visits_and_count (st : loop_state) : nat * list Z * nat :=
  (length (visits (store (sys st))),
   map p_visit_count (persons (store (sys st))),
   length (Notifier.console (notifier (sys st)))).

End Samples.

(** * The rest of the code *)

(** ** system/database.py: the remaining queries *)

Module DatabaseQueries.

Import Database.

(** [FROM visits v JOIN persons p ON v.person_id = p.id]: a visit paired with
    the name of each person carrying its [person_id]. *)
Definition join_persons (s : db) : list (visit * string) :=
  flat_map
    (fun v =>
       map (fun p => (v, p_name p))
         (List.filter (fun p => p_id p =? v_person_id v) (persons s)))
    (visits s).

(** [Database.get_recent_visits]: the rows [v.*, p.name], for parameters
    that sqlite3 can bind (see [get_recent_visits_call]). *)
Definition get_recent_visits (s : db) (limit : Z) (person_id : option Z)
    : list (visit * string) :=
  let rows :=
    if optint_truthy person_id then
      List.filter (fun r => v_person_id (fst r) =? default 0 person_id)
        (join_persons s)
    else join_persons s in
  sql_limit limit (order_by_desc (fun r => v_timestamp (fst r)) rows).

(** Number of visit rows that reference a person id. *)
Definition visits_for (person_id : Z) (s : db) : Z :=
  Z.of_nat (length (List.filter (fun v => v_person_id v =? person_id) (visits s))).

(** The three queries as Python calls them with a parameter taken from a
    URL.  None of them has a [try]: the [OverflowError] that sqlite3 raises
    for a parameter outside the signed 64-bit range escapes to the caller.
    [None] stands for that exception, [Some r] for the value returned. *)
Definition get_person_call (s : db) (person_id : Z) : option (option person) :=
  if sql_int person_id then Some (get_person s person_id) else None.

Definition get_unknown_visitors_call (s : db) (limit : Z) (identified : bool)
    : option (list unknown_visitor) :=
  if sql_int limit then Some (get_unknown_visitors s limit identified) else None.

(** [person_id] is bound only when it is truthy. *)
Definition get_recent_visits_call (s : db) (limit : Z) (person_id : option Z)
    : option (list (visit * string)) :=
  if sql_int limit
     && (negb (optint_truthy person_id) || sql_int (default 0 person_id))
  then Some (get_recent_visits s limit person_id)
  else None.

End DatabaseQueries.

(** ** system/notifier.py: reading and clearing the feed *)

Module NotifierFeed.

Import Notifier.

(** [lst[:limit]] for a Python list. *)
Definition py_prefix {A : Type} (limit : Z) (l : list A) : list A :=
  if limit <? 0 then firstn (length l - Z.to_nat (- limit)) l
  else firstn (Z.to_nat limit) l.

(** [Notifier.get_recent_notifications] *)
Definition get_recent_notifications (nt : notifier) (limit : Z)
    : list notification :=
  py_prefix limit (web_notifications nt).

(** [Notifier.clear_notifications] *)
Definition clear_notifications (nt : notifier) : notifier :=
  {| enabled := enabled nt;
     email_enabled := email_enabled nt;
     sendgrid_api_key := sendgrid_api_key nt;
     from_email := from_email nt;
     to_email := to_email nt;
     telegram_enabled := telegram_enabled nt;
     telegram_bot_token := telegram_bot_token nt;
     telegram_chat_id := telegram_chat_id nt;
     web_notifications := [];
     console := console nt;
     outbox := outbox nt |}.

(** The arguments of one [send_notification] call. *)
Record sending : Type := Sending {
  s_timestamp : string;
  s_title : string;
  s_message : string;
  s_image_path : option string;
  s_confidence : option Q
}.

Definition as_notification (x : sending) : notification :=
  {| n_title := s_title x; n_message := s_message x;
     n_image_path := s_image_path x; n_confidence := s_confidence x;
     n_timestamp := s_timestamp x |}.

Definition send (nt : notifier) (x : sending) : notifier :=
  send_notification nt (s_timestamp x) (s_title x) (s_message x)
    (s_image_path x) (s_confidence x).

(** A run of [send_notification] calls, oldest first. *)
Definition send_all (nt : notifier) (xs : list sending) : notifier :=
  fold_left send xs nt.

(** The guards of the two outbound channels. *)
Definition email_ready (nt : notifier) : bool :=
  email_enabled nt && optstr_truthy (sendgrid_api_key nt)
  && optstr_truthy (from_email nt) && optstr_truthy (to_email nt).

Definition telegram_ready (nt : notifier) : bool :=
  telegram_enabled nt && optstr_truthy (telegram_bot_token nt)
  && optstr_truthy (telegram_chat_id nt).

Definition deliveries (nt : notifier) (n : notification)
    : list (channel * notification) :=
  (if email_ready nt then [(Email, n)] else [])
  ++ (if telegram_ready nt then [(Telegram, n)] else []).

End NotifierFeed.

(** ** system/dvr_connector.py *)

Module DVRConnector.

(** The connector: [cap] is [None] when there is no capture object and
    [Some b] when [self.cap.isOpened()] is [b].  [captures] counts the
    capture objects created and [reads] every [self.cap.read()], the test
    read of [connect] included; they index what the camera answers. *)
Record dvr : Type := Dvr {
  cap : option bool;
  reconnect_attempts : Z;
  captures : nat;
  reads : nat
}.

Definition max_reconnect_attempts : Z := 5.

Definition cap_usable (d : dvr) : bool :=
  match cap d with
  | Some true => true
  | _ => false
  end.

Section Camera.

Context {Frame : Type}.

(** [opens n]: whether the n-th [cv2.VideoCapture(url)] is opened.
    [stream n]: the frame returned by the n-th [self.cap.read()], [None]
    when [ret] is false or the frame is [None]. *)
Variable opens : nat -> bool.
Variable stream : nat -> option Frame.

(** [DVRConnector.connect]: [fuel] bounds the recursive retries.  The test
    read is made only on a capture that is opened. *)
Fixpoint connect_loop (fuel : nat) (d : dvr) : bool * dvr :=
  let opened := opens (captures d) in
  let tested := if opened then stream (reads d) else None in
  let reads' := if opened then S (reads d) else reads d in
  match tested with
  | Some _ =>
      (true,
       {| cap := Some true; reconnect_attempts := 0;
          captures := S (captures d); reads := reads' |})
  | None =>
      let d' := {| cap := Some opened;
                   reconnect_attempts := reconnect_attempts d + 1;
                   captures := S (captures d); reads := reads' |} in
      if reconnect_attempts d' <? max_reconnect_attempts then
        match fuel with
        | O => (false, d')
        | S fuel' => connect_loop fuel' d'
        end
      else (false, d')
  end.

Definition connect (d : dvr) : bool * dvr :=
  connect_loop (Z.to_nat (max_reconnect_attempts - reconnect_attempts d)) d.

Definition read_frame (d : dvr) : option Frame * dvr :=
  (stream (reads d),
   {| cap := cap d; reconnect_attempts := reconnect_attempts d;
      captures := captures d; reads := S (reads d) |}).

(** [DVRConnector.get_frame] *)
Definition get_frame (d : dvr) : option Frame * dvr :=
  let '(ready, d1) :=
    if cap_usable d then (true, d) else connect d in
  if negb ready then (None, d1)
  else
    match read_frame d1 with
    | (Some frame, d2) => (Some frame, d2)
    | (None, d2) =>
        match connect d2 with
        | (false, d3) => (None, d3)
        | (true, d3) => read_frame d3
        end
    end.

End Camera.

(** [DVRConnector.is_connected] *)
Definition is_connected (d : dvr) : bool := cap_usable d.

(** [DVRConnector.release] *)
Definition release (d : dvr) : dvr :=
  {| cap := None; reconnect_attempts := reconnect_attempts d;
     captures := captures d; reads := reads d |}.

(** Captures numbered [from], ..., [from + n - 1] that are opened. *)
Definition opened_among (opens : nat -> bool) (from n : nat) : nat :=
  length (List.filter opens (seq from n)).

End DVRConnector.

(** ** web/app.py: the read handlers *)

Module AppViews.

Import Database DatabaseQueries.

(** A person as the API shows it: the row with [face_encoding] popped. *)
Record person_view : Type := PersonView {
  pv_id : Z;
  pv_name : string;
  pv_first_seen : Z;
  pv_last_seen : Z;
  pv_visit_count : Z;
  pv_notes : string;
  pv_created_at : Z
}.

Definition view_of (p : person) : person_view :=
  {| pv_id := p_id p; pv_name := p_name p;
     pv_first_seen := p_first_seen p; pv_last_seen := p_last_seen p;
     pv_visit_count := p_visit_count p; pv_notes := p_notes p;
     pv_created_at := p_created_at p |}.

(** [GET /api/person/<id>]: the status and, on success, the person with its
    [recent_visits].  The handler has no [try]: an exception raised by the
    store is answered 500 by the framework. *)
Definition get_person (s : db) (person_id : Z)
    : Z * option (person_view * list (visit * string)) :=
  match get_person_call s person_id with
  | None => (500, None)
  | Some None => (404, None)
  | Some (Some p) =>
      match get_recent_visits_call s 10 (Some person_id) with
      | None => (500, None)
      | Some recent => (200, Some (view_of p, recent))
      end
  end.

(** [GET /api/persons] *)
Definition get_persons (s : db) : list person_view :=
  map view_of (FaceRecognitionSystem.get_all_persons s).

(** [GET /api/visits?limit&person_id]: [limit] defaults to 50; [None] is
    the framework's 500 reply to an exception of the store. *)
Definition get_visits (s : db) (limit : option Z) (person_id : option Z)
    : option (list (visit * string)) :=
  get_recent_visits_call s (default 50 limit) person_id.

(** [GET /api/unknown?limit] *)
Definition get_unknown (s : db) (limit : option Z)
    : option (list unknown_visitor) :=
  get_unknown_visitors_call s (default 50 limit) false.

(** [GET /api/stats] *)
Definition get_stats (s : db) (now : Z) : statistics := get_statistics s now.

End AppViews.

(** ** Predicates for the rest of the code *)

Module ExtraSpec.

Import Database DatabaseQueries Spec Json.

(** A configuration document of the expected shape: an object whose [dvr]
    and [notifications] entries, and the [email] and [telegram] entries of
    the latter, are objects where present. *)
Definition is_obj (v : json) : bool :=
  match v with
  | JObj _ => true
  | _ => false
  end.

Definition obj_or_absent (k : string) (fields : list (string * json)) : bool :=
  match dict_get k fields with
  | None => true
  | Some v => is_obj v
  end.

Definition well_shaped (config : json) : bool :=
  match config with
  | JObj fields =>
      obj_or_absent "dvr" fields &&
      match dict_get "notifications" fields with
      | None => true
      | Some (JObj nf) => obj_or_absent "email" nf && obj_or_absent "telegram" nf
      | Some _ => false
      end
  | _ => false
  end.

(** No row refers to a person id outside the range of SQLite integers. *)
Definition ids_in_range (s : db) : Prop :=
  (forall p, In p (persons s) -> sql_int (p_id p) = true) /\
  (forall v, In v (visits s) -> sql_int (v_person_id v) = true).

(** Every person's visit counter equals the number of its visit rows. *)
Definition counters_match (s : db) : Prop :=
  forall p, In p (persons s) -> p_visit_count p = visits_for (p_id p) s.

(** A call that logs a visit names an id that is not ahead of the ids
    handed out so far (the loop takes its ids from the persons table). *)
Definition issued (s : db) (c : store_call) : Prop :=
  match c with
  | CallLogVisit _ pid _ _ => pid <= seq_persons s
  | _ => True
  end.

Fixpoint issued_run (s : db) (calls : list store_call) : Prop :=
  match calls with
  | [] => True
  | c :: calls' => issued s c /\ issued_run (call_store s c) calls'
  end.

(** What one call of [DVRConnector.connect] has done when it returns [r],
    in terms of the number [n] of capture objects it created. *)
Definition connected {Frame : Type} (opens : nat -> bool)
    (stream : nat -> option Frame) (d : DVRConnector.dvr)
    (r : bool * DVRConnector.dvr) (n : nat) : Prop :=
  let budget :=
    Z.max 1 (DVRConnector.max_reconnect_attempts
             - DVRConnector.reconnect_attempts d) in
  DVRConnector.captures (snd r) = (DVRConnector.captures d + n)%nat /\
  (1 <= n <= Z.to_nat budget)%nat /\
  DVRConnector.reads (snd r)
  = (DVRConnector.reads d
     + DVRConnector.opened_among opens (DVRConnector.captures d) n)%nat /\
  DVRConnector.cap (snd r)
  = Some (opens (DVRConnector.captures (snd r) - 1)%nat) /\
  (fst r = true ->
   DVRConnector.reconnect_attempts (snd r) = 0 /\
   DVRConnector.cap (snd r) = Some true /\
   (DVRConnector.reads d < DVRConnector.reads (snd r))%nat /\
   is_Some (stream (DVRConnector.reads (snd r) - 1)%nat)) /\
  (fst r = false ->
   n = Z.to_nat budget /\
   DVRConnector.reconnect_attempts (snd r)
   = DVRConnector.reconnect_attempts d + budget).

(** Frames that [get_frame] did deliver. *)
Definition delivered {A : Type} (frames : list (option A)) : Z :=
  Z.of_nat (length (List.filter
                      (fun f => match f with Some _ => true | None => false end)
                      frames)).

(** What the loop must leave alone in a person row. *)
Definition identity_of (p : person) : Z * string * encoding * string :=
  (p_id p, p_name p, p_face_encoding p, p_notes p).

(** Newest first. *)
Definition newest_first {A : Type} (stamp : A -> Z) (rows : list A) : Prop :=
  StronglySorted (fun a b => stamp b <= stamp a) rows.

End ExtraSpec.

(** ** More sample data *)

Module ExtraSamples.

Import Database FaceRecognitionSystem Spec Samples.

Definition sample_world : App.world :=
  {| App.store := sample_store; App.files := ∅; App.observed := [] |}.

(** Register Alice, log two visits of her, log a sighting, register Bob,
    rename him, delete Alice. *)
Definition sample_calls : list store_call :=
  [CallAddPerson 10 "Alice" [1%Q] "";
   CallLogVisit 20 1 0.9%Q "a.jpg";
   CallLogUnknown 25 "u.jpg";
   CallLogVisit 30 1 0.8%Q "b.jpg";
   CallAddPerson 40 "Bob" [4%Q] "";
   CallUpdatePerson 2 (Some "Robert") None;
   CallLogVisit 50 2 0.7%Q "c.jpg";
   CallDeletePerson 1].

Definition alice_arrived : NotifierFeed.sending :=
  {| NotifierFeed.s_timestamp := "2024-01-01 12:00:00";
     NotifierFeed.s_title := "Alice Detected";
     NotifierFeed.s_message := "Alice arrived at entrance";
     NotifierFeed.s_image_path := Some "data/images/t_Alice.jpg";
     NotifierFeed.s_confidence := Some 0.9%Q |}.

Definition stranger_arrived : NotifierFeed.sending :=
  {| NotifierFeed.s_timestamp := "2024-01-01 12:00:05";
     NotifierFeed.s_title := "Unknown Person Detected";
     NotifierFeed.s_message := "Unknown visitor at entrance - please identify";
     NotifierFeed.s_image_path := Some "data/images/t_Unknown.jpg";
     NotifierFeed.s_confidence := None |}.

(** E-mail fully configured, Telegram enabled without a chat id. *)
Definition mail_only : Notifier.notifier :=
  {| Notifier.enabled := true;
     Notifier.email_enabled := true;
     Notifier.sendgrid_api_key := Some "SG.key";
     Notifier.from_email := Some "dvr@example.org";
     Notifier.to_email := Some "owner@example.org";
     Notifier.telegram_enabled := true;
     Notifier.telegram_bot_token := Some "123:abc";
     Notifier.telegram_chat_id := None;
     Notifier.web_notifications := [];
     Notifier.console := [];
     Notifier.outbox := [] |}.

Definition muted : Notifier.notifier :=
  {| Notifier.enabled := false;
     Notifier.email_enabled := true;
     Notifier.sendgrid_api_key := Some "SG.key";
     Notifier.from_email := Some "dvr@example.org";
     Notifier.to_email := Some "owner@example.org";
     Notifier.telegram_enabled := false;
     Notifier.telegram_bot_token := None;
     Notifier.telegram_chat_id := None;
     Notifier.web_notifications := [];
     Notifier.console := [];
     Notifier.outbox := [] |}.

Definition muted_system : system :=
  {| last_seen := ∅; store := sample_store; notifier := muted |}.

(** A person registered under a name with a path separator. *)
Definition slash_known : known_faces :=
  {| encodings := [[3%Q]]; names := ["a/b"]; ids := [7] |}.

Definition a_face : face :=
  {| f_encoding := [3%Q]; f_location := (10, 30, 30, 10);
     f_stamp := "20240101_120000_000000"; f_crop := "jpeg" |}.

(** A camera whose first capture is not opened. *)
Definition flaky_camera (n : nat) : bool :=
  match n with
  | O => false
  | _ => true
  end.

Definition dead_camera (n : nat) : bool := false.

Definition fresh_dvr : DVRConnector.dvr :=
  {| DVRConnector.cap := None; DVRConnector.reconnect_attempts := 0;
     DVRConnector.captures := 0; DVRConnector.reads := 0 |}.

(** A stream whose first read fails. *)
Definition stuttering_stream (n : nat) : option string :=
  match n with
  | O => None
  | _ => Some "frame"
  end.

End ExtraSamples.

(** * Properties of the store *)

Module StoreFacts.

Import Database Spec.

Lemma name_taken_In (name : string) (s : db) :
  name_taken name s = true <-> In name (map p_name (persons s)).
Proof.
  unfold name_taken. rewrite List.existsb_exists, List.in_map_iff.
  split; intros [p [H1 H2]]; exists p.
  - apply String.eqb_eq in H2. tauto.
  - split; [tauto|]. apply String.eqb_eq. tauto.
Qed.

Lemma fold_max_ge_seq (seq : Z) (ids : list Z) : seq <= fold_right Z.max seq ids.
Proof. induction ids as [|x ids IH]; simpl; lia. Qed.

Lemma fold_max_ge_in (seq : Z) (ids : list Z) (x : Z) :
  In x ids -> x <= fold_right Z.max seq ids.
Proof.
  induction ids as [|y ids IH]; simpl; [tauto|].
  intros [->|H]; [lia|]. specialize (IH H). lia.
Qed.

Lemma next_rowid_fresh (seq : Z) (ids : list Z) (x : Z) :
  In x ids -> x < next_rowid seq ids.
Proof. intros H. unfold next_rowid. pose proof (fold_max_ge_in seq ids x H). lia. Qed.

Lemma next_rowid_above_seq (seq : Z) (ids : list Z) : seq < next_rowid seq ids.
Proof. unfold next_rowid. pose proof (fold_max_ge_seq seq ids). lia. Qed.

Lemma increasing_snoc (l : list Z) (y : Z) :
  StronglySorted Z.lt l -> (forall x, In x l -> x < y) ->
  StronglySorted Z.lt (l ++ [y]).
Proof.
  induction l as [|a l IH]; simpl; intros Hs Hy.
  - repeat constructor.
  - apply StronglySorted_inv in Hs as [Hs Ha]. constructor.
    + apply IH; [exact Hs|]. intros x Hx. apply Hy. now right.
    + apply List.Forall_app. split; [exact Ha|].
      constructor; [|constructor]. apply Hy. now left.
Qed.

Lemma nodup_snoc {A : Type} (l : list A) (y : A) :
  List.NoDup l -> ~ In y l -> List.NoDup (l ++ [y]).
Proof.
  induction l as [|a l IH]; simpl; intros Hn Hy.
  - constructor; [simpl; tauto|constructor].
  - apply List.NoDup_cons_iff in Hn as [Ha Hn]. constructor.
    + rewrite List.in_app_iff. simpl. intros [H|[H|[]]]; [tauto|].
      apply Hy. left. congruence.
    + apply IH; tauto.
Qed.

Lemma increasing_nodup (l : list Z) : StronglySorted Z.lt l -> List.NoDup l.
Proof.
  induction l as [|a l IH]; intros Hs; [constructor|].
  apply StronglySorted_inv in Hs as [Hs Ha]. constructor; [|auto].
  intros Hin. rewrite List.Forall_forall in Ha. specialize (Ha a Hin). lia.
Qed.

Lemma update_ids (pid : Z) (f : person -> person) (rows : list person) :
  (forall p, p_id (f p) = p_id p) ->
  map p_id (update_where_id pid f rows) = map p_id rows.
Proof.
  intros Hf. unfold update_where_id. rewrite List.map_map.
  apply List.map_ext. intros p. destruct (p_id p =? pid); auto.
Qed.

Lemma update_names (pid : Z) (f : person -> person) (rows : list person) :
  (forall p, p_name (f p) = p_name p) ->
  map p_name (update_where_id pid f rows) = map p_name rows.
Proof.
  intros Hf. unfold update_where_id. rewrite List.map_map.
  apply List.map_ext. intros p. destruct (p_id p =? pid); auto.
Qed.

Lemma update_absent (pid : Z) (f : person -> person) (rows : list person) :
  (forall p, In p rows -> p_id p <> pid) -> update_where_id pid f rows = rows.
Proof.
  induction rows as [|p rows IH]; simpl; intros H; [reflexivity|].
  destruct (Z.eqb_spec (p_id p) pid) as [E|E].
  - exfalso. apply (H p); auto.
  - f_equal. apply IH. intros q Hq. apply H. now right.
Qed.

Lemma renamed_names (pid : Z) (n x : string) (rows : list person) :
  In x (map p_name (update_where_id pid (set_name n) rows)) ->
  x = n \/ In x (map p_name rows).
Proof.
  induction rows as [|p rows IH]; simpl; [tauto|].
  destruct (p_id p =? pid); simpl; intros [H|H]; auto.
  - destruct (IH H); auto.
  - destruct (IH H); auto.
Qed.

Lemma rename_keeps_unique (pid : Z) (n : string) (rows : list person) :
  List.NoDup (map p_id rows) -> List.NoDup (map p_name rows) ->
  (forall q, In q rows -> p_id q <> pid -> p_name q <> n) ->
  List.NoDup (map p_name (update_where_id pid (set_name n) rows)).
Proof.
  induction rows as [|p rows IH]; simpl; intros Hid Hnm Hfree; [constructor|].
  apply List.NoDup_cons_iff in Hid as [Hid1 Hid2].
  apply List.NoDup_cons_iff in Hnm as [Hnm1 Hnm2].
  destruct (Z.eqb_spec (p_id p) pid) as [E|E].
  - assert (Habs : forall q, In q rows -> p_id q <> pid).
    { intros q Hq Hq'. apply Hid1. apply List.in_map_iff. exists q.
      split; [congruence|exact Hq]. }
    rewrite update_absent by exact Habs. simpl. constructor; [|exact Hnm2].
    intros Hin. apply List.in_map_iff in Hin as [q [Hq1 Hq2]].
    apply (Hfree q); auto.
  - simpl. constructor.
    + intros Hin. apply renamed_names in Hin as [Hin|Hin]; [|tauto].
      apply (Hfree p); auto.
    + apply IH; auto.
Qed.

Lemma rename_conflict_false (pid : Z) (n : string) (rows : list person) :
  rename_conflict pid n rows = false ->
  (forall p, In p rows -> p_id p <> pid) \/
  (forall q, In q rows -> p_id q <> pid -> p_name q <> n).
Proof.
  unfold rename_conflict. intros H. apply andb_false_iff in H as [H|H].
  - left. intros p Hp E. apply not_true_iff_false in H. apply H.
    apply List.existsb_exists. exists p. split; [exact Hp|]. now apply Z.eqb_eq.
  - right. intros q Hq E1 E2. apply not_true_iff_false in H. apply H.
    apply List.existsb_exists. exists q. split; [exact Hq|].
    apply andb_true_iff. split.
    + apply negb_true_iff. now apply Z.eqb_neq.
    + now apply String.eqb_eq.
Qed.

Lemma add_person_schema (s : db) (now : Z) (name : string) (e : encoding)
    (notes : string) :
  schema_ok s -> schema_ok (snd (add_person s now name e notes)).
Proof.
  intros [Hid Hnm]. unfold add_person.
  destruct (name_taken name s) eqn:Ht; simpl; [split; assumption|].
  split.
  - unfold ids_increasing. simpl. rewrite List.map_app. simpl.
    apply increasing_snoc; [exact Hid|]. intros x Hx. now apply next_rowid_fresh.
  - unfold names_unique. simpl. rewrite List.map_app. simpl.
    apply nodup_snoc; [exact Hnm|]. intros Hin.
    apply name_taken_In in Hin. congruence.
Qed.

Lemma update_person_schema (s : db) (pid : Z) (name notes : option string) :
  schema_ok s -> schema_ok (snd (update_person s pid name notes)).
Proof.
  intros [Hid Hnm]. unfold update_person.
  destruct (executes_update name notes && negb (sql_int pid));
    [split; assumption|].
  assert (Hstep : forall rows,
    StronglySorted Z.lt (map p_id rows) -> List.NoDup (map p_name rows) ->
    schema_ok (with_persons s
      match notes with
      | Some t => update_where_id pid (set_notes t) rows
      | None => rows
      end)).
  { intros rows H1 H2. unfold schema_ok, ids_increasing, names_unique. simpl.
    destruct notes as [t|]; [|tauto].
    rewrite update_ids, update_names by reflexivity. tauto. }
  destruct name as [n|]; [|apply Hstep; assumption].
  destruct (str_truthy n); [|apply Hstep; assumption].
  destruct (rename_conflict pid n (persons s)) eqn:Hc; simpl; [split; assumption|].
  apply Hstep.
  - rewrite update_ids by reflexivity. exact Hid.
  - apply rename_conflict_false in Hc as [Hc|Hc].
    + rewrite update_absent by exact Hc. exact Hnm.
    + apply rename_keeps_unique; auto. now apply increasing_nodup.
Qed.

Lemma add_person_some (s s1 : db) (now pid : Z) (name : string) (e : encoding)
    (notes : string) :
  add_person s now name e notes = (Some pid, s1) ->
  unknown_visitors s1 = unknown_visitors s /\
  visits s1 = visits s /\
  exists p, persons s1 = persons s ++ [p] /\ p_id p = pid /\
            p_name p = name /\ p_face_encoding p = e.
Proof.
  unfold add_person. destruct (name_taken name s); [discriminate|].
  intros [= <- <-]. simpl. repeat split. eexists. split; [reflexivity|].
  simpl. tauto.
Qed.

Lemma add_person_sightings (s : db) (now : Z) (name : string) (e : encoding)
    (notes : string) :
  unknown_visitors (snd (add_person s now name e notes)) = unknown_visitors s.
Proof. unfold add_person. destruct (name_taken name s); reflexivity. Qed.

Lemma mark_sightings_consistent (s : db) (uid pid : Z) :
  sightings_consistent s ->
  sightings_consistent (snd (mark_unknown_as_identified s uid pid)).
Proof.
  unfold sightings_consistent. simpl. intros H.
  apply List.Forall_forall. intros u Hu.
  apply List.in_map_iff in Hu as [u0 [<- Hu0]].
  rewrite List.Forall_forall in H.
  destruct (u_id u0 =? uid); [|now apply H].
  unfold sighting_consistent. simpl. split; [discriminate|reflexivity].
Qed.

Lemma In_sql_limit {A : Type} (n : Z) (rows : list A) (x : A) :
  In x (sql_limit n rows) -> In x rows.
Proof.
  unfold sql_limit. destruct (n <? 0); [tauto|].
  generalize (Z.to_nat n). intros k. revert rows.
  induction k as [|k IH]; intros [|y rows]; simpl; try tauto.
  intros [H|H]; auto.
Qed.

Lemma increasing_filter {A : Type} (f : A -> Z) (g : A -> bool) (l : list A) :
  StronglySorted Z.lt (map f l) -> StronglySorted Z.lt (map f (List.filter g l)).
Proof.
  induction l as [|a l IH]; simpl; intros Hs; [constructor|].
  apply StronglySorted_inv in Hs as [Hs Ha].
  destruct (g a); simpl; [|auto]. constructor; [auto|].
  rewrite List.Forall_forall in *. intros x Hx. apply Ha.
  apply List.in_map_iff in Hx as [y [<- Hy]].
  apply List.filter_In in Hy as [Hy _]. now apply List.in_map.
Qed.

Lemma nodup_filter {A B : Type} (f : A -> B) (g : A -> bool) (l : list A) :
  List.NoDup (map f l) -> List.NoDup (map f (List.filter g l)).
Proof.
  induction l as [|a l IH]; simpl; intros Hn; [constructor|].
  apply List.NoDup_cons_iff in Hn as [Ha Hn].
  destruct (g a); simpl; [|auto]. constructor; [|auto].
  intros Hin. apply Ha. apply List.in_map_iff in Hin as [y [<- Hy]].
  apply List.filter_In in Hy as [Hy _]. now apply List.in_map.
Qed.

Lemma delete_person_schema (s : db) (pid : Z) :
  schema_ok s -> schema_ok (snd (delete_person s pid)).
Proof.
  intros [Hid Hnm]. split.
  - now apply increasing_filter.
  - now apply nodup_filter.
Qed.

Lemma log_visit_schema (s : db) (now pid : Z) (conf : Q) (path : string) :
  schema_ok s -> schema_ok (snd (log_visit s now pid conf path)).
Proof.
  intros [Hid Hnm]. unfold schema_ok, ids_increasing, names_unique. simpl.
  rewrite update_ids, update_names by reflexivity. tauto.
Qed.

Lemma log_unknown_consistent (s : db) (now : Z) (path : string) :
  sightings_consistent s ->
  sightings_consistent (snd (log_unknown_visitor s now path)).
Proof.
  unfold sightings_consistent. simpl. intros H.
  apply List.Forall_app. split; [exact H|].
  constructor; [|constructor]. unfold sighting_consistent. simpl.
  split; [discriminate|congruence].
Qed.

Lemma update_person_sightings (s : db) (pid : Z) (name notes : option string) :
  unknown_visitors (snd (update_person s pid name notes)) = unknown_visitors s.
Proof.
  unfold update_person.
  destruct (executes_update name notes && negb (sql_int pid)); [reflexivity|].
  destruct name as [n|]; [|reflexivity].
  destruct (str_truthy n); [|reflexivity].
  destruct (rename_conflict pid n (persons s)); reflexivity.
Qed.

(** Every state the store can reach from a fresh database satisfies the
    schema constraints and has consistent sightings. *)
Lemma reachable_invariants (s : db) :
  reachable s -> schema_ok s /\ sightings_consistent s.
Proof.
  intros [calls ->].
  assert (H0 : schema_ok init_database /\ sightings_consistent init_database).
  { repeat split; constructor. }
  revert H0. generalize init_database.
  induction calls as [|c calls IH]; simpl; intros s [Hs Hc]; [tauto|].
  apply IH. destruct c; simpl.
  - split; [now apply add_person_schema|].
    unfold sightings_consistent. now rewrite add_person_sightings.
  - split; [now apply update_person_schema|].
    unfold sightings_consistent. now rewrite update_person_sightings.
  - split; [now apply delete_person_schema|exact Hc].
  - split; [now apply log_visit_schema|exact Hc].
  - split; [exact Hs|now apply log_unknown_consistent].
  - split; [exact Hs|now apply mark_sightings_consistent].
Qed.

Lemma apply_ops_schema (ops : list person_op) (s : db) :
  schema_ok s -> schema_ok (apply_ops s ops).
Proof.
  unfold apply_ops. revert s.
  induction ops as [|op ops IH]; simpl; intros s Hs; [exact Hs|].
  apply IH. destruct op; simpl.
  - now apply add_person_schema.
  - now apply update_person_schema.
Qed.

(** C5: creating a person under a name that is already in the table returns
    [None] and leaves the store as it was; the schema constraints (unique
    names among them) survive every sequence of create and update calls. *)
Theorem add_person_duplicate_rejected (s : db) (now : Z) (name : string)
    (e : encoding) (notes : string) (ops : list person_op) :
  ((exists p, In p (persons s) /\ p_name p = name) ->
   add_person s now name e notes = (None, s)) /\
  (schema_ok s -> names_unique (apply_ops s ops)).
Proof.
  split.
  - intros [p [Hp Hn]]. unfold add_person.
    assert (Ht : name_taken name s = true).
    { apply name_taken_In. apply List.in_map_iff. exists p. tauto. }
    now rewrite Ht.
  - intros Hs. now apply apply_ops_schema.
Qed.

Lemma insert_desc_In {A : Type} (key : A -> Z) (x y : A) (rows : list A) :
  In x (insert_desc key y rows) <-> x = y \/ In x rows.
Proof.
  induction rows as [|z rows IH]; simpl.
  - intuition congruence.
  - destruct (key y <? key z); simpl; rewrite ?IH; intuition congruence.
Qed.

Lemma order_by_desc_In {A : Type} (key : A -> Z) (x : A) (rows : list A) :
  In x (order_by_desc key rows) <-> In x rows.
Proof.
  induction rows as [|y rows IH]; simpl; [tauto|].
  rewrite insert_desc_In, IH. intuition congruence.
Qed.

(** [ORDER BY key DESC] puts first the earliest row that no row beats. *)
Lemma order_by_desc_head {A : Type} (key : A -> Z) (before : list A) (p : A)
    (after : list A) :
  (forall q, In q before -> key q < key p) ->
  (forall q, In q after -> key q <= key p) ->
  hd_error (order_by_desc key (before ++ p :: after)) = Some p.
Proof.
  intros Hb Ha. induction before as [|a before IH]; simpl.
  - destruct (order_by_desc key after) as [|y sorted] eqn:E; simpl; [reflexivity|].
    assert (Hy : key y <= key p).
    { apply Ha. apply (order_by_desc_In key). rewrite E. now left. }
    destruct (Z.ltb_spec (key p) (key y)); [lia|reflexivity].
  - assert (IH' : hd_error (order_by_desc key (before ++ p :: after)) = Some p).
    { apply IH. intros q Hq. apply Hb. now right. }
    destruct (order_by_desc key (before ++ p :: after)) as [|y sorted];
      simpl in *; [discriminate|].
    injection IH' as ->.
    assert (Hlt : key a < key p) by (apply Hb; now left).
    destruct (Z.ltb_spec (key a) (key p)); [reflexivity|lia].
Qed.

Lemma first_maximum {A : Type} (key : A -> Z) (rows : list A) :
  rows <> [] ->
  exists before p after,
    rows = before ++ p :: after /\
    (forall q, In q before -> key q < key p) /\
    (forall q, In q after -> key q <= key p).
Proof.
  induction rows as [|a rows IH]; [congruence|]. intros _.
  destruct rows as [|b rows].
  - exists [], a, []. simpl. intuition.
  - destruct IH as (before & p & after & E & Hb & Ha); [discriminate|].
    destruct (Z.ltb_spec (key a) (key p)) as [Hlt|Hge].
    + exists (a :: before), p, after. rewrite E. simpl.
      split; [reflexivity|]. split; [|exact Ha].
      intros q [<-|Hq]; auto.
    + exists [], a, (b :: rows). split; [reflexivity|].
      split; [intros q []|]. intros q Hq. rewrite E in Hq.
      apply List.in_app_iff in Hq as [Hq|[<-|Hq]].
      * specialize (Hb q Hq). lia.
      * lia.
      * specialize (Ha q Hq). lia.
Qed.

Lemma increasing_after (before : list Z) (x : Z) (after : list Z) :
  StronglySorted Z.lt (before ++ x :: after) -> forall y, In y after -> x < y.
Proof.
  induction before as [|a before IH]; simpl; intros Hs y Hy.
  - apply StronglySorted_inv in Hs as [_ Hx].
    rewrite List.Forall_forall in Hx. now apply Hx.
  - apply StronglySorted_inv in Hs as [Hs _]. now apply IH.
Qed.

Lemma find_unknown_visitor (s : db) (limit uid : Z) (u : unknown_visitor) :
  find (fun v => u_id v =? uid) (get_unknown_visitors s limit false) = Some u ->
  In u (unknown_visitors s) /\ u_id u = uid /\ u_identified u = false.
Proof.
  intros H. apply List.find_some in H as [Hin Hid].
  apply Z.eqb_eq in Hid. unfold get_unknown_visitors in Hin.
  apply In_sql_limit in Hin. apply order_by_desc_In in Hin.
  apply List.filter_In in Hin as [Hin Hflag].
  destruct (u_identified u); [discriminate|]. tauto.
Qed.

Lemma hd_error_limit_one {A : Type} (rows : list A) :
  hd_error (sql_limit 1 rows) = hd_error rows.
Proof. destruct rows; reflexivity. Qed.

(** C6: [get_statistics] counts the rows of [persons] and of [visits] and
    the sightings whose [identified] flag is unset; its most frequent visitor
    is the person with the largest visit counter, the earliest inserted one
    (lowest id) among equals, and [(None, 0)] when there is no person. *)
Theorem get_statistics_correct (s : db) (now : Z) :
  let st := get_statistics s now in
  total_persons st = Z.of_nat (length (persons s)) /\
  total_visits st = Z.of_nat (length (visits s)) /\
  unknown_visitors_open st =
    Z.of_nat (length (List.filter (fun u => negb (u_identified u))
                        (unknown_visitors s))) /\
  (persons s = [] -> most_frequent_visitor st = (None, 0)) /\
  (persons s <> [] ->
   exists before p after,
     persons s = before ++ p :: after /\
     most_frequent_visitor st = (Some (p_name p), p_visit_count p) /\
     (forall q, In q before -> p_visit_count q < p_visit_count p) /\
     (forall q, In q after -> p_visit_count q <= p_visit_count p) /\
     (ids_increasing s ->
      forall q, In q (persons s) ->
        p_visit_count q <= p_visit_count p /\
        (p_visit_count q = p_visit_count p -> p_id p <= p_id q))).
Proof.
  cbv zeta. unfold get_statistics; simpl.
  repeat (split; [reflexivity|]). rewrite hd_error_limit_one. split.
  - intros ->. reflexivity.
  - intros Hne.
    destruct (first_maximum p_visit_count (persons s) Hne)
      as (before & p & after & E & Hb & Ha).
    exists before, p, after. split; [exact E|].
    rewrite E at 1. rewrite (order_by_desc_head _ _ _ _ Hb Ha).
    split; [reflexivity|]. split; [exact Hb|]. split; [exact Ha|].
    intros Hinc q Hq. unfold ids_increasing in Hinc. rewrite E in Hinc, Hq.
    rewrite List.map_app in Hinc. simpl in Hinc.
    apply List.in_app_iff in Hq as [Hq|[<-|Hq]].
    + specialize (Hb q Hq). lia.
    + lia.
    + specialize (Ha q Hq). split; [exact Ha|]. intros _.
      assert (p_id p < p_id q); [|lia].
      apply (increasing_after _ _ _ Hinc). now apply List.in_map.
Qed.

(** C7: deleting a person removes the person row with that id and the
    visits that reference it, keeps every other person and visit row, and
    leaves the table of sightings as it was. *)
Theorem delete_person_frame (s : db) (person_id : Z) :
  let s' := snd (delete_person s person_id) in
  (forall p, In p (persons s') <-> In p (persons s) /\ p_id p <> person_id) /\
  (forall v, In v (visits s') <-> In v (visits s) /\ v_person_id v <> person_id) /\
  unknown_visitors s' = unknown_visitors s.
Proof.
  cbv zeta. simpl. split; [|split; [|reflexivity]].
  - intros p. rewrite List.filter_In, negb_true_iff, Z.eqb_neq. tauto.
  - intros v. rewrite List.filter_In, negb_true_iff, Z.eqb_neq. tauto.
Qed.

Lemma filter_keeps_all {A : Type} (f : A -> bool) (l : list A) :
  (forall x, In x l -> f x = true) -> List.filter f l = l.
Proof.
  induction l as [|a l IH]; intros H; simpl; [reflexivity|].
  rewrite (H a) by now left. f_equal. apply IH. intros x Hx. apply H. now right.
Qed.

Lemma delete_person_missing (s : db) (person_id : Z) :
  (forall p, In p (persons s) -> p_id p <> person_id) ->
  (forall v, In v (visits s) -> v_person_id v <> person_id) ->
  snd (Database.delete_person s person_id) = s.
Proof.
  intros Hp Hv. unfold Database.delete_person. simpl.
  rewrite !filter_keeps_all.
  - now destruct s.
  - intros v Hin. now apply negb_true_iff, Z.eqb_neq, Hv.
  - intros p Hin. now apply negb_true_iff, Z.eqb_neq, Hp.
Qed.

End StoreFacts.

(** * Properties of the recognition loop *)

Module LoopFacts.

Import Database FaceRecognitionSystem Spec.

Lemma Qlt_bool_iff (x y : Q) : Qlt_bool x y = true <-> (x < y)%Q.
Proof.
  unfold Qlt_bool. rewrite negb_true_iff, <- not_true_iff_false, Qle_bool_iff.
  split; [apply Qnot_le_lt|apply Qlt_not_le].
Qed.

Lemma Qlt_bool_false (x y : Q) : Qlt_bool x y = false <-> (y <= x)%Q.
Proof.
  unfold Qlt_bool. rewrite negb_false_iff. apply Qle_bool_iff.
Qed.

(** [argmin_from] continues a scan: [seen] is the part already read, whose
    first smallest entry is [best] at [best_index]. *)
Lemma argmin_from_first_min (l seen : list Q) (best_index : nat) (best : Q) :
  seen !! best_index = Some best ->
  (forall j d, seen !! j = Some d -> (best <= d)%Q) ->
  (forall j d, (j < best_index)%nat -> seen !! j = Some d -> (best < d)%Q) ->
  exists d,
    (seen ++ l) !! argmin_from best_index best (length seen) l = Some d /\
    (forall j d', (seen ++ l) !! j = Some d' -> (d <= d')%Q) /\
    (forall j d', (j < argmin_from best_index best (length seen) l)%nat ->
       (seen ++ l) !! j = Some d' -> (d < d')%Q).
Proof.
  revert seen best_index best.
  induction l as [|x l IH]; intros seen bi b Hb Hmin Hfirst; simpl.
  - exists b. rewrite app_nil_r. auto.
  - assert (Hlen : length (seen ++ [x]) = S (length seen)).
    { rewrite length_app. simpl. lia. }
    assert (Hbi : (bi < length seen)%nat) by (eapply lookup_lt_Some; eauto).
    destruct (Qlt_bool x b) eqn:Hx.
    + apply Qlt_bool_iff in Hx.
      destruct (IH (seen ++ [x]) (length seen) x) as (d & H1 & H2 & H3).
      * now rewrite list_lookup_middle.
      * intros j d Hj. destruct (decide (j < length seen)%nat) as [Hlt|Hge].
        -- rewrite lookup_app_l in Hj by exact Hlt.
           specialize (Hmin j d Hj). lra.
        -- rewrite lookup_app_r in Hj by lia.
           destruct (j - length seen)%nat; simpl in Hj; [|discriminate].
           injection Hj as <-. lra.
      * intros j d Hlt Hj. rewrite lookup_app_l in Hj by exact Hlt.
        specialize (Hmin j d Hj). lra.
      * rewrite Hlen, <- app_assoc in *. simpl in *. exists d. auto.
    + apply Qlt_bool_false in Hx.
      destruct (IH (seen ++ [x]) bi b) as (d & H1 & H2 & H3).
      * now rewrite lookup_app_l.
      * intros j d Hj. destruct (decide (j < length seen)%nat) as [Hlt|Hge].
        -- rewrite lookup_app_l in Hj by exact Hlt. eauto.
        -- rewrite lookup_app_r in Hj by lia.
           destruct (j - length seen)%nat; simpl in Hj; [|discriminate].
           injection Hj as <-. exact Hx.
      * intros j d Hlt Hj. rewrite lookup_app_l in Hj by lia. eauto.
      * rewrite Hlen, <- app_assoc in *. simpl in *. exists d. auto.
Qed.

(** [np.argmin] returns the first position of the smallest entry. *)
Lemma argmin_first_min (l : list Q) :
  l <> [] ->
  exists d,
    l !! argmin l = Some d /\
    (forall j d', l !! j = Some d' -> (d <= d')%Q) /\
    (forall j d', (j < argmin l)%nat -> l !! j = Some d' -> (d < d')%Q).
Proof.
  destruct l as [|x l]; [congruence|]. intros _.
  apply (argmin_from_first_min l [x] 0%nat x).
  - reflexivity.
  - intros [|j] d Hj; simpl in Hj; [|discriminate]. injection Hj as <-. lra.
  - intros j d Hj. lia.
Qed.

Lemma existsb_id_lookup (l : list bool) :
  existsb (fun b => b) l = true <-> exists j, l !! j = Some true.
Proof.
  rewrite List.existsb_exists. split.
  - intros [b [Hin ->]]. apply list_elem_of_In in Hin.
    now apply list_elem_of_lookup in Hin.
  - intros [j Hj]. exists true. split; [|reflexivity].
    apply list_elem_of_In. apply list_elem_of_lookup. eauto.
Qed.

(** C2: with a non-empty set of known embeddings, a face is matched to the
    first known entry at minimal distance [d] exactly when [d <= tolerance],
    with confidence [1 - d]; otherwise it is the unknown face. *)
Theorem recognize_nearest_within_tolerance
    (distance : encoding -> encoding -> Q) (kf : known_faces)
    (tolerance : Q) (e : encoding) :
  length (names kf) = length (encodings kf) ->
  length (ids kf) = length (encodings kf) ->
  encodings kf <> [] ->
  exists (i : nat) (d : Q) (n : string) (pid : Z),
    face_distance distance (encodings kf) e !! i = Some d /\
    names kf !! i = Some n /\ ids kf !! i = Some pid /\
    (forall j d', face_distance distance (encodings kf) e !! j = Some d' ->
       (d <= d')%Q) /\
    (forall j d', (j < i)%nat ->
       face_distance distance (encodings kf) e !! j = Some d' -> (d < d')%Q) /\
    ((d <= tolerance)%Q ->
     recognize distance kf tolerance e =
       Some {| r_name := n; r_person_id := Some pid;
               r_confidence := (1 - d)%Q |}) /\
    (~ (d <= tolerance)%Q ->
     recognize distance kf tolerance e = Some unknown_face).
Proof.
  intros Hn Hi Hne.
  set (dists := face_distance distance (encodings kf) e).
  assert (Hlen : length dists = length (encodings kf)).
  { unfold dists, face_distance. apply length_map. }
  assert (Hdne : dists <> []).
  { intros E. rewrite E in Hlen. destruct (encodings kf); [congruence|discriminate]. }
  destruct (argmin_first_min dists Hdne) as (d & Hd & Hmin & Hfirst).
  assert (Hlt : (argmin dists < length (encodings kf))%nat).
  { rewrite <- Hlen. eapply lookup_lt_Some; eauto. }
  destruct (lookup_lt_is_Some_2 (names kf) (argmin dists)) as [n Hnm]; [lia|].
  destruct (lookup_lt_is_Some_2 (ids kf) (argmin dists)) as [pid Hpid]; [lia|].
  exists (argmin dists), d, n, pid.
  repeat (split; [assumption|]).
  assert (Hm : compare_faces distance (encodings kf) e tolerance !! argmin dists
               = Some (Qle_bool d tolerance)).
  { unfold compare_faces. fold dists.
    change (map (fun d0 => Qle_bool d0 tolerance) dists)
      with ((fun d0 => Qle_bool d0 tolerance) <$> dists).
    now rewrite list_lookup_fmap, Hd. }
  assert (Hpos : Nat.ltb 0 (length (encodings kf)) = true).
  { apply Nat.ltb_lt. lia. }
  unfold recognize. rewrite Hpos. fold dists. split.
  - intros Hle. apply Qle_bool_iff in Hle. rewrite Hle in Hm.
    assert (Hex : existsb (fun b => b)
                    (compare_faces distance (encodings kf) e tolerance) = true).
    { apply existsb_id_lookup. eauto. }
    rewrite Hex, Hm, Hnm, Hpid, Hd. reflexivity.
  - intros Hgt.
    destruct (existsb (fun b => b)
                (compare_faces distance (encodings kf) e tolerance)) eqn:Hex;
      [|reflexivity].
    assert (Hf : Qle_bool d tolerance = false).
    { apply not_true_iff_false. now rewrite Qle_bool_iff. }
    rewrite Hm, Hf. reflexivity.
Qed.

Lemma system_eta (sys : system) :
  {| last_seen := last_seen sys; store := store sys; notifier := notifier sys |}
  = sys.
Proof. now destruct sys. Qed.

Lemma send_notification_enabled (nt : Notifier.notifier) (ts t m : string)
    (img : option string) (conf : option Q) :
  Notifier.enabled (Notifier.send_notification nt ts t m img conf)
  = Notifier.enabled nt.
Proof.
  unfold Notifier.send_notification.
  destruct (Notifier.enabled nt) eqn:E; simpl; [reflexivity|exact E].
Qed.

Lemma send_notification_console (nt : Notifier.notifier) (ts t m : string)
    (img : option string) (conf : option Q) :
  Notifier.console (Notifier.send_notification nt ts t m img conf)
  = if Notifier.enabled nt
    then Notifier.console nt ++
           [ {| Notifier.n_title := t; Notifier.n_message := m;
                Notifier.n_image_path := img; Notifier.n_confidence := conf;
                Notifier.n_timestamp := ts |} ]
    else Notifier.console nt.
Proof.
  unfold Notifier.send_notification.
  destruct (Notifier.enabled nt); reflexivity.
Qed.

Lemma produced_notifications_send (sys : system) (lsn : gmap Z Q) (st : db)
    (ts t m : string) (img : option string) (conf : option Q) :
  produced_notifications sys
    {| last_seen := lsn; store := st;
       notifier := Notifier.send_notification (notifier sys) ts t m img conf |}
  = if Notifier.enabled (notifier sys) then 1 else 0.
Proof.
  unfold produced_notifications. simpl. rewrite send_notification_console.
  destruct (Notifier.enabled (notifier sys)); [|lia].
  rewrite length_app. simpl. lia.
Qed.

(** The two outcomes of handling a detection of a known person. *)
Lemma handle_person_known (sys : system) (c : clocks) (d : detection) (pid : Z) :
  pid <> 0 -> d_person_id d = Some pid ->
  let sys' := handle_person sys c d in
  ((300 < c_time c - default 0%Q (last_seen sys !! pid))%Q /\
   produced_visits sys sys' = 1 /\
   produced_sightings sys sys' = 0 /\
   produced_notifications sys sys'
     = (if Notifier.enabled (notifier sys) then 1 else 0) /\
   last_seen sys' !! pid = Some (c_time c)) \/
  ((c_time c - default 0%Q (last_seen sys !! pid) <= 300)%Q /\ sys' = sys).
Proof.
  intros Hpid Hd. cbv zeta. unfold handle_person. rewrite Hd.
  assert (Ht : optint_truthy (Some pid) = true).
  { simpl. apply negb_true_iff. now apply Z.eqb_neq. }
  rewrite Ht. unfold should_notify.
  destruct (Qlt_bool 300 (c_time c - default 0%Q (last_seen sys !! pid))) eqn:E.
  - left. apply Qlt_bool_iff in E. split; [exact E|]. simpl.
    split; [|split; [|split]].
    + unfold produced_visits. simpl. rewrite length_app. simpl. lia.
    + unfold produced_sightings. simpl. lia.
    + apply produced_notifications_send.
    + apply lookup_insert_eq.
  - right. apply Qlt_bool_false in E. split; [exact E|]. apply system_eta.
Qed.

(** The only outcome of handling a detection without a usable person id. *)
Lemma handle_person_unknown (sys : system) (c : clocks) (d : detection) :
  optint_truthy (d_person_id d) = false ->
  handle_person sys c d =
    {| last_seen := last_seen sys;
       store := snd (log_unknown_visitor (store sys) (c_now c) (d_image_path d));
       notifier :=
         Notifier.send_notification (notifier sys) (c_stamp c)
           "Unknown Person Detected"
           "Unknown visitor at entrance - please identify"
           (Some (d_image_path d)) None |}.
Proof. intros H. unfold handle_person. rewrite H. reflexivity. Qed.

Lemma handle_person_enabled (sys : system) (c : clocks) (d : detection) :
  Notifier.enabled (notifier (handle_person sys c d))
  = Notifier.enabled (notifier sys).
Proof.
  unfold handle_person, should_notify.
  destruct (optint_truthy (d_person_id d)); simpl.
  - destruct (d_person_id d) as [q|]; simpl.
    + destruct (Qlt_bool _ _); simpl; [apply send_notification_enabled|reflexivity].
    + apply send_notification_enabled.
  - apply send_notification_enabled.
Qed.

Lemma handle_person_other (sys : system) (c : clocks) (d : detection) (pid : Z) :
  d_person_id d <> Some pid ->
  last_seen (handle_person sys c d) !! pid = last_seen sys !! pid.
Proof.
  intros Hne. unfold handle_person, should_notify.
  destruct (optint_truthy (d_person_id d)); simpl; [|reflexivity].
  destruct (d_person_id d) as [q|]; simpl; [|reflexivity].
  destruct (Qlt_bool _ _); simpl; [|reflexivity].
  apply lookup_insert_ne. congruence.
Qed.

Lemma handle_persons_other (events : list (clocks * detection)) (sys : system)
    (pid : Z) :
  (forall ev, In ev events -> d_person_id (snd ev) <> Some pid) ->
  last_seen (handle_persons sys events) !! pid = last_seen sys !! pid /\
  Notifier.enabled (notifier (handle_persons sys events))
  = Notifier.enabled (notifier sys).
Proof.
  unfold handle_persons. revert sys.
  induction events as [|ev events IH]; intros sys H; simpl; [tauto|].
  destruct (IH (handle_person sys (fst ev) (snd ev))) as [H1 H2].
  { intros ev' Hev. apply H. now right. }
  rewrite H1, H2, handle_person_enabled. split; [|reflexivity].
  apply handle_person_other. apply H. now left.
Qed.

(** C3: two detections of one person, with detections of other people in
    between.  Closer than 300 seconds, they produce at most one visit and at
    most one notification between them.  When the first comes more than 300
    seconds after the last notification of that person and the second more
    than 300 seconds after the first, each produces one visit and, with
    notifications enabled, one notification.  A detection within 300 seconds
    of the last notification changes nothing. *)
Theorem cooldown_per_person (sys : system) (pid : Z) (c1 c2 : clocks)
    (d1 d2 : detection) (between : list (clocks * detection)) :
  pid <> 0 -> d_person_id d1 = Some pid -> d_person_id d2 = Some pid ->
  (forall ev, In ev between -> d_person_id (snd ev) <> Some pid) ->
  let s1 := handle_person sys c1 d1 in
  let s1' := handle_persons s1 between in
  let s2 := handle_person s1' c2 d2 in
  ((c_time c2 - c_time c1 < 300)%Q ->
   produced_visits sys s1 + produced_visits s1' s2 <= 1 /\
   produced_notifications sys s1 + produced_notifications s1' s2 <= 1) /\
  ((300 < c_time c1 - default 0%Q (last_seen sys !! pid))%Q ->
   (300 < c_time c2 - c_time c1)%Q ->
   produced_visits sys s1 = 1 /\ produced_visits s1' s2 = 1 /\
   (Notifier.enabled (notifier sys) = true ->
    produced_notifications sys s1 = 1 /\ produced_notifications s1' s2 = 1)) /\
  ((c_time c1 - default 0%Q (last_seen sys !! pid) <= 300)%Q -> s1 = sys).
Proof.
  intros Hpid Hd1 Hd2 Hbetween. cbv zeta.
  set (s1 := handle_person sys c1 d1).
  set (s1' := handle_persons s1 between).
  destruct (handle_persons_other between s1 pid Hbetween) as [Hls Hen].
  fold s1' in Hls, Hen.
  assert (Hen1 : Notifier.enabled (notifier s1) = Notifier.enabled (notifier sys))
    by apply handle_person_enabled.
  pose proof (handle_person_known sys c1 d1 pid Hpid Hd1) as K1.
  pose proof (handle_person_known s1' c2 d2 pid Hpid Hd2) as K2.
  cbv zeta in K1, K2. fold s1 in K1.
  assert (Hself : forall s, produced_visits s s = 0 /\ produced_notifications s s = 0).
  { intros s. unfold produced_visits, produced_notifications. lia. }
  split; [|split].
  - intros Hclose.
    destruct K1 as [(T1 & V1 & _ & N1 & L1)|(T1 & E1)];
      destruct K2 as [(T2 & V2 & _ & N2 & L2)|(T2 & E2)].
    + exfalso. rewrite Hls, L1 in T2. simpl in T2. lra.
    + rewrite E2. destruct (Hself s1') as [-> ->]. rewrite V1, N1.
      destruct (Notifier.enabled (notifier sys)); lia.
    + rewrite E1. destruct (Hself sys) as [-> ->]. rewrite V2, N2.
      destruct (Notifier.enabled (notifier s1')); lia.
    + rewrite E1, E2.
      destruct (Hself sys) as [-> ->]. destruct (Hself s1') as [-> ->]. lia.
  - intros Hfar1 Hfar2.
    destruct K1 as [(T1 & V1 & _ & N1 & L1)|(T1 & E1)]; [|lra].
    destruct K2 as [(T2 & V2 & _ & N2 & L2)|(T2 & E2)].
    + split; [exact V1|]. split; [exact V2|]. intros Hon.
      rewrite N1, N2, Hen, Hen1, Hon. tauto.
    + exfalso. rewrite Hls, L1 in T2. simpl in T2. lra.
  - intros Hclose. destruct K1 as [(T1 & _)|(_ & E1)]; [lra|exact E1].
Qed.

(** C1, as the loop behaves: a detection without a person id always logs one
    sighting and, with notifications enabled, sends one notification; no
    visit is logged and the cooldown table is neither read nor written,
    whatever the time since the previous unknown detection. *)
Theorem unknown_always_logged (sys : system) (c : clocks) (d : detection) :
  d_person_id d = None ->
  let sys' := handle_person sys c d in
  produced_sightings sys sys' = 1 /\
  (exists u, unknown_visitors (store sys') = unknown_visitors (store sys) ++ [u]
             /\ u_image_path u = d_image_path d /\ u_identified u = false) /\
  produced_visits sys sys' = 0 /\
  produced_notifications sys sys'
    = (if Notifier.enabled (notifier sys) then 1 else 0) /\
  last_seen sys' = last_seen sys.
Proof.
  intros Hd. cbv zeta. rewrite handle_person_unknown by (now rewrite Hd).
  split; [|split; [|split; [|split]]].
  - unfold produced_sightings. simpl. rewrite length_app. simpl. lia.
  - simpl. eexists. split; [reflexivity|]. simpl. tauto.
  - unfold produced_visits. simpl. lia.
  - apply produced_notifications_send.
  - reflexivity.
Qed.

End LoopFacts.

(** * Properties of the dashboard *)

Module AppFacts.

Import Database Json Spec ConfigSpec.

(** ** Redaction of the configuration document *)

Lemma strip_dvr_on_field (config : json) :
  App.strip_dvr config = on_field "dvr" (fun d => py_pop d "password") config.
Proof. reflexivity. Qed.

Lemma strip_channel_on_field (channel key : string) (n : json) :
  App.strip_channel channel key n = on_field channel (fun c => py_pop c key) n.
Proof. reflexivity. Qed.

Lemma strip_notifications_on_field (config : json) :
  App.strip_notifications config =
  on_field "notifications"
    (fun n0 =>
       match App.strip_channel "email" "sendgrid_api_key" n0 with
       | None => None
       | Some n1 => App.strip_channel "telegram" "bot_token" n1
       end) config.
Proof.
  unfold App.strip_notifications, on_field.
  destruct (py_in "notifications" config) as [[|]|]; try reflexivity.
  destruct (py_getitem config "notifications") as [n0|]; try reflexivity.
  destruct (App.strip_channel "email" "sendgrid_api_key" n0); reflexivity.
Qed.

Lemma existsb_dict_get (k : string) (fields : list (string * json)) :
  existsb (fun kv => String.eqb (fst kv) k) fields
  = match dict_get k fields with Some _ => true | None => false end.
Proof.
  induction fields as [|[k0 v0] fields IH]; simpl; [reflexivity|].
  destruct (String.eqb k0 k); simpl; auto.
Qed.

Lemma dict_get_set_eq (k : string) (x : json) (fields : list (string * json)) :
  dict_get k (dict_set k x fields) = Some x.
Proof.
  induction fields as [|[k0 v0] fields IH]; simpl.
  - now rewrite String.eqb_refl.
  - destruct (String.eqb k0 k) eqn:E; simpl; rewrite E; auto.
Qed.

Lemma dict_get_set_ne (k k' : string) (x : json) (fields : list (string * json)) :
  k <> k' -> dict_get k' (dict_set k x fields) = dict_get k' fields.
Proof.
  intros Hne. induction fields as [|[k0 v0] fields IH]; simpl.
  - destruct (String.eqb_spec k k'); [contradiction|reflexivity].
  - destruct (String.eqb_spec k0 k) as [->|E]; simpl.
    + destruct (String.eqb_spec k k'); [contradiction|reflexivity].
    + rewrite IH. reflexivity.
Qed.

Lemma dict_set_set (k : string) (x y : json) (fields : list (string * json)) :
  dict_set k x (dict_set k y fields) = dict_set k x fields.
Proof.
  induction fields as [|[k0 v0] fields IH]; simpl.
  - now rewrite String.eqb_refl.
  - destruct (String.eqb k0 k) eqn:E; simpl; rewrite E; [reflexivity|].
    now rewrite IH.
Qed.

Lemma dict_set_comm (k k' : string) (x y c : json) (fields : list (string * json)) :
  k <> k' -> dict_get k fields = Some c ->
  dict_set k x (dict_set k' y fields) = dict_set k' y (dict_set k x fields).
Proof.
  intros Hne. induction fields as [|[k0 v0] fields IH]; simpl; [discriminate|].
  destruct (String.eqb_spec k0 k) as [->|E]; intros Hget.
  - destruct (String.eqb_spec k k'); [contradiction|]. simpl.
    rewrite String.eqb_refl.
    destruct (String.eqb_spec k k'); [contradiction|reflexivity].
  - destruct (String.eqb_spec k0 k') as [->|E']; simpl.
    + destruct (String.eqb_spec k' k); [congruence|].
      now rewrite String.eqb_refl.
    + destruct (String.eqb_spec k0 k); [contradiction|].
      destruct (String.eqb_spec k0 k'); [contradiction|].
      now rewrite IH.
Qed.

Lemma dict_pop_set (k : string) (x : json) (fields : list (string * json)) :
  dict_pop k (dict_set k x fields) = dict_pop k fields.
Proof.
  unfold dict_pop. induction fields as [|[k0 v0] fields IH]; simpl.
  - now rewrite String.eqb_refl.
  - destruct (String.eqb k0 k) eqn:E; simpl; rewrite E; simpl; [reflexivity|].
    now rewrite IH.
Qed.

Lemma dict_get_pop (k : string) (fields : list (string * json)) :
  dict_get k (dict_pop k fields) = None.
Proof.
  unfold dict_pop. induction fields as [|[k0 v0] fields IH]; simpl; [reflexivity|].
  destruct (String.eqb k0 k) eqn:E; simpl; [exact IH|]. now rewrite E.
Qed.

Lemma py_pop_assign (k : string) (x c : json) :
  py_pop (assign_in k x c) k = py_pop c k.
Proof. destruct c; simpl; try reflexivity. now rewrite dict_pop_set. Qed.

Lemma py_pop_gone (k : string) (c c' : json) :
  py_pop c k = Some c' -> py_getitem c' k = None.
Proof.
  destruct c; simpl; try discriminate. intros [= <-]. simpl. apply dict_get_pop.
Qed.

(** Overwriting under [k] does not show once [k] has been redacted by a step
    that ignores the overwrite. *)
Lemma on_field_update_same (k : string) (g : json -> option json)
    (h : json -> json) (v : json) :
  (forall c, g (h c) = g c) -> on_field k g (update_in k h v) = on_field k g v.
Proof.
  intros Hg. unfold update_in.
  destruct (py_getitem v k) as [c|] eqn:Hc; [|reflexivity].
  destruct v; simpl in Hc; try discriminate.
  unfold on_field. simpl. rewrite !existsb_dict_get, dict_get_set_eq, Hc, Hg.
  destruct (g c); [|reflexivity]. now rewrite dict_set_set.
Qed.

(** Redacting under [k] and overwriting under another key commute. *)
Lemma on_field_update_other (k k' : string) (g : json -> option json)
    (h : json -> json) (v : json) :
  k <> k' ->
  on_field k g (update_in k' h v) = option_map (update_in k' h) (on_field k g v).
Proof.
  intros Hne. unfold update_in at 1.
  destruct (py_getitem v k') as [c0|] eqn:Hc0.
  - destruct v; simpl in Hc0; try discriminate.
    unfold on_field. simpl.
    rewrite !existsb_dict_get, (dict_get_set_ne k' k) by congruence.
    destruct (dict_get k fields) as [c|] eqn:Hc; simpl.
    + destruct (g c) as [c'|]; simpl; [|reflexivity].
      unfold update_in. simpl. rewrite (dict_get_set_ne k k') by exact Hne.
      rewrite Hc0. simpl. f_equal. f_equal.
      now apply (dict_set_comm k k' c' (h c0) c).
    + unfold update_in. simpl. now rewrite Hc0.
  - unfold on_field. destruct (py_in k v) as [[|]|]; simpl; try reflexivity.
    + destruct (py_getitem v k) as [c|] eqn:Hc; [|reflexivity].
      destruct (g c) as [c'|]; simpl; [|reflexivity].
      destruct v; simpl in Hc; try discriminate.
      unfold update_in. simpl in *. rewrite (dict_get_set_ne k k') by exact Hne.
      now rewrite Hc0.
    + unfold update_in. now rewrite Hc0.
Qed.

Lemma update_in_twice (k : string) (h1 h2 : json -> json) (v : json) :
  update_in k h2 (update_in k h1 v) = update_in k (fun c => h2 (h1 c)) v.
Proof.
  unfold update_in. destruct (py_getitem v k) as [c|] eqn:Hc.
  - destruct v; simpl in Hc; try discriminate. simpl.
    now rewrite dict_get_set_eq, dict_set_set.
  - now rewrite Hc.
Qed.

Lemma on_field_other_key (k k' : string) (g : json -> option json) (v v' : json) :
  k <> k' -> on_field k g v = Some v' -> py_getitem v' k' = py_getitem v k'.
Proof.
  intros Hne. unfold on_field.
  destruct (py_in k v) as [[|]|]; try discriminate.
  - destruct (py_getitem v k) as [c|] eqn:Hc; [|discriminate].
    destruct (g c) as [c'|]; [|discriminate]. intros [= <-].
    destruct v; simpl in *; try discriminate. now apply dict_get_set_ne.
  - now intros [= <-].
Qed.

Lemma on_field_same_key (k : string) (g : json -> option json) (v v' c' : json) :
  on_field k g v = Some v' -> py_getitem v' k = Some c' ->
  exists c, py_getitem v k = Some c /\ g c = Some c'.
Proof.
  unfold on_field. destruct (py_in k v) as [[|]|] eqn:Hin; try discriminate.
  - destruct (py_getitem v k) as [c|] eqn:Hc; [|discriminate].
    destruct (g c) as [c1|] eqn:Hg; [|discriminate]. intros [= <-] Hget.
    destruct v; simpl in *; try discriminate.
    rewrite dict_get_set_eq in Hget. exists c. split; congruence.
  - intros [= <-] Hget. destruct v; simpl in *; try discriminate.
    rewrite existsb_dict_get, Hget in Hin. discriminate.
Qed.

Lemma strip_channels_ignore_secrets (key tok n : json) :
  match App.strip_channel "email" "sendgrid_api_key"
          (update_in "telegram" (assign_in "bot_token" tok)
             (update_in "email" (assign_in "sendgrid_api_key" key) n)) with
  | None => None
  | Some n1 => App.strip_channel "telegram" "bot_token" n1
  end
  = match App.strip_channel "email" "sendgrid_api_key" n with
    | None => None
    | Some n1 => App.strip_channel "telegram" "bot_token" n1
    end.
Proof.
  rewrite !strip_channel_on_field.
  rewrite on_field_update_other by discriminate.
  rewrite on_field_update_same by (intros c; apply py_pop_assign).
  destruct (on_field "email" _ n) as [n1|]; simpl; [|reflexivity].
  rewrite !strip_channel_on_field.
  apply on_field_update_same. intros c. apply py_pop_assign.
Qed.

Lemma get_config_payload (config out : json) :
  App.get_config (Some config)
    = {| App.status := 200; App.content := App.Payload out |} ->
  exists c1, App.strip_dvr config = Some c1 /\
             App.strip_notifications c1 = Some out.
Proof.
  unfold App.get_config.
  destruct (App.strip_dvr config) as [c1|]; [|discriminate].
  destruct (App.strip_notifications c1) as [c2|] eqn:H2; [|discriminate].
  intros [= <-]. exists c1. split; [reflexivity|exact H2].
Qed.

(** C9: the reply of [GET /api/config] is the same whatever the DVR
    password, the SendGrid API key and the Telegram bot token of the stored
    document are; a successful reply holds none of the three fields, and a
    failed one holds no part of the document. *)
Theorem get_config_hides_secrets (config pw key tok : json) :
  App.get_config (Some (with_secrets pw key tok config))
    = App.get_config (Some config) /\
  (forall out,
     App.get_config (Some config)
       = {| App.status := 200; App.content := App.Payload out |} ->
     lookup_path ["dvr"; "password"] out = None /\
     lookup_path ["notifications"; "email"; "sendgrid_api_key"] out = None /\
     lookup_path ["notifications"; "telegram"; "bot_token"] out = None) /\
  (App.get_config (Some config)
     = {| App.status := 500; App.content := App.Raised |} \/
   exists out, App.get_config (Some config)
     = {| App.status := 200; App.content := App.Payload out |}).
Proof.
  split; [|split].
  - unfold with_secrets, with_bot_token, with_api_key, with_password.
    rewrite update_in_twice. unfold App.get_config.
    rewrite (strip_dvr_on_field config), (strip_dvr_on_field (update_in _ _ _)).
    rewrite on_field_update_other by discriminate.
    rewrite on_field_update_same by (intros c; apply py_pop_assign).
    destruct (on_field "dvr" _ config) as [c1|]; simpl; [|reflexivity].
    rewrite (strip_notifications_on_field c1),
      (strip_notifications_on_field (update_in _ _ _)).
    rewrite on_field_update_same; [reflexivity|].
    intros n. apply strip_channels_ignore_secrets.
  - intros out Hout.
    apply get_config_payload in Hout as (c1 & H1 & H2).
    rewrite strip_dvr_on_field in H1.
    rewrite strip_notifications_on_field in H2.
    split; [|split]; simpl.
    + rewrite (on_field_other_key "notifications" "dvr" _ _ _
                 ltac:(discriminate) H2).
      destruct (py_getitem c1 "dvr") as [d'|] eqn:Hd; [|reflexivity].
      destruct (on_field_same_key _ _ _ _ _ H1 Hd) as (d & _ & Hpop).
      now rewrite (py_pop_gone _ _ _ Hpop).
    + destruct (py_getitem out "notifications") as [n2|] eqn:Hn; [|reflexivity].
      destruct (on_field_same_key _ _ _ _ _ H2 Hn) as (n0 & _ & Hg).
      destruct (App.strip_channel "email" "sendgrid_api_key" n0) as [n1|] eqn:He;
        [|discriminate].
      rewrite strip_channel_on_field in He, Hg.
      rewrite (on_field_other_key "telegram" "email" _ _ _
                 ltac:(discriminate) Hg).
      destruct (py_getitem n1 "email") as [e'|] eqn:Hm; [|reflexivity].
      destruct (on_field_same_key _ _ _ _ _ He Hm) as (e0 & _ & Hpop).
      now rewrite (py_pop_gone _ _ _ Hpop).
    + destruct (py_getitem out "notifications") as [n2|] eqn:Hn; [|reflexivity].
      destruct (on_field_same_key _ _ _ _ _ H2 Hn) as (n0 & _ & Hg).
      destruct (App.strip_channel "email" "sendgrid_api_key" n0) as [n1|] eqn:He;
        [|discriminate].
      rewrite strip_channel_on_field in Hg.
      destruct (py_getitem n2 "telegram") as [t'|] eqn:Hm; [|reflexivity].
      destruct (on_field_same_key _ _ _ _ _ Hg Hm) as (t0 & _ & Hpop).
      now rewrite (py_pop_gone _ _ _ Hpop).
  - unfold App.get_config.
    destruct (App.strip_dvr config) as [c1|]; [|now left].
    destruct (App.strip_notifications c1) as [c2|]; [|now left].
    right. eauto.
Qed.

(** C10, as the code behaves: for every id that SQLite can bind, deleting a
    person reports success, in the store and at the endpoint alike, with the
    same reply whether or not a person with that id exists; when none
    exists the store is left exactly as it was.  For an id outside the
    signed 64-bit range the store operation returns [False], the endpoint
    answers 500 and nothing changes. *)
Theorem delete_person_reports_success (w w' : App.world) (person_id : Z) :
  (sql_int person_id = true ->
   fst (Database.delete_person (App.store w) person_id) = true /\
   fst (App.delete_person w person_id)
     = {| App.status := 200;
          App.content := App.Done "Person deleted successfully" |} /\
   fst (App.delete_person w person_id) = fst (App.delete_person w' person_id) /\
   ((forall p, In p (persons (App.store w)) -> p_id p <> person_id) ->
    (forall v, In v (visits (App.store w)) -> v_person_id v <> person_id) ->
    Database.delete_person (App.store w) person_id = (true, App.store w))) /\
  (sql_int person_id = false ->
   fst (Database.delete_person (App.store w) person_id) = false /\
   App.delete_person w person_id
     = ({| App.status := 500;
           App.content := App.Error "Failed to delete person" |}, w)).
Proof.
  split; intros Hid.
  - split; [unfold Database.delete_person; exact Hid|].
    split; [unfold App.delete_person, Database.delete_person; now rewrite Hid|].
    split; [unfold App.delete_person, Database.delete_person; now rewrite Hid|].
    intros Hp Hv.
    rewrite (surjective_pairing (Database.delete_person _ _)).
    rewrite StoreFacts.delete_person_missing by assumption.
    unfold Database.delete_person. simpl. now rewrite Hid.
  - split; [unfold Database.delete_person; exact Hid|].
    unfold App.delete_person, Database.delete_person. now rewrite Hid.
Qed.

(** ** Registration and promotion *)

(** C4, the code at an upload: [POST /api/person] takes the name from a
    JSON body and the image from a multipart form, and no request carries
    both.  A request with an uploaded image is answered 500 before the image
    is saved or looked at; a JSON request is answered 400; no request is
    answered 200, and the store and the image directory never change. *)
Theorem add_person_never_registers (fe : string -> option (list encoding))
    (w : App.world) (stamp : string) (now : Z) (rq : App.person_request) :
  let res := App.add_person fe w stamp now rq in
  snd res = w /\
  App.status (fst res) <> 200 /\
  (forall file, rq = App.UploadRequest file ->
     fst res = {| App.status := 500; App.content := App.Raised |}) /\
  (forall data, rq = App.JsonRequest data ->
     fst res
       = {| App.status := 400;
            App.content :=
              App.Error (if App.form_name_truthy data then "No image provided"
                         else "Name is required") |}).
Proof.
  cbv zeta. unfold App.add_person.
  destruct rq as [data|file|]; simpl.
  - destruct (App.form_name_truthy data) eqn:E; simpl;
      (split; [reflexivity|]); (split; [discriminate|]);
      (split; [discriminate|]); intros d [= <-]; now rewrite E.
  - split; [reflexivity|]. split; [discriminate|].
    split; [reflexivity|discriminate].
  - split; [reflexivity|]. split; [discriminate|].
    split; discriminate.
Qed.

(** C8, as the handler behaves: a successful promotion creates the person
    from the first embedding found in the sighting's stored image and commits
    it; only then a second commit sets the sighting's flag and back-reference,
    both in one update.  The store state in between has the person and the
    sighting still unresolved.  In every store state made visible the flag is
    set exactly when the back-reference is present. *)
Theorem identify_unknown_promotes (fe : string -> option (list encoding))
    (w : App.world) (now unknown_id : Z) (rq : option App.person_form) :
  sightings_consistent (App.store w) ->
  let res := App.identify_unknown fe w now unknown_id rq in
  (forall s, In s (App.observed (snd res)) ->
     In s (App.observed w) \/ sightings_consistent s) /\
  sightings_consistent (App.store (snd res)) /\
  (App.status (fst res) = 200 ->
   exists data u image e rest pid s1,
     rq = Some data /\
     In u (unknown_visitors (App.store w)) /\ u_id u = unknown_id /\
     u_identified u = false /\
     App.files w !! u_image_path u = Some image /\
     fe image = Some (e :: rest) /\
     Database.add_person (App.store w) now (default "" (App.form_name data)) e
       (App.form_notes data) = (Some pid, s1) /\
     (exists p, In p (persons s1) /\ p_id p = pid /\ p_face_encoding p = e) /\
     unknown_visitors s1 = unknown_visitors (App.store w) /\
     App.observed (snd res) = App.observed w ++ [s1; App.store (snd res)] /\
     persons (App.store (snd res)) = persons s1 /\
     In (identify_row pid u) (unknown_visitors (App.store (snd res))) /\
     (forall u', In u' (unknown_visitors (App.store (snd res))) ->
        u_id u' = unknown_id ->
        u_identified u' = true /\ u_identified_as u' = Some pid)).
Proof.
  intros Hcons. cbv zeta. unfold App.identify_unknown.
  assert (Hfail : forall r : App.response, App.status r <> 200 ->
    (forall s, In s (App.observed (snd (r, w))) ->
       In s (App.observed w) \/ sightings_consistent s) /\
    sightings_consistent (App.store (snd (r, w))) /\
    (App.status (fst (r, w)) = 200 ->
     exists data u image e rest pid s1,
       rq = Some data /\
       In u (unknown_visitors (App.store w)) /\ u_id u = unknown_id /\
       u_identified u = false /\
       App.files w !! u_image_path u = Some image /\
       fe image = Some (e :: rest) /\
       Database.add_person (App.store w) now (default "" (App.form_name data)) e
         (App.form_notes data) = (Some pid, s1) /\
       (exists p, In p (persons s1) /\ p_id p = pid /\ p_face_encoding p = e) /\
       unknown_visitors s1 = unknown_visitors (App.store w) /\
       App.observed (snd (r, w)) = App.observed w ++ [s1; App.store (snd (r, w))] /\
       persons (App.store (snd (r, w))) = persons s1 /\
       In (identify_row pid u) (unknown_visitors (App.store (snd (r, w)))) /\
       (forall u', In u' (unknown_visitors (App.store (snd (r, w)))) ->
          u_id u' = unknown_id ->
          u_identified u' = true /\ u_identified_as u' = Some pid))).
  { intros r Hr. simpl. split; [tauto|]. split; [exact Hcons|]. tauto. }
  destruct rq as [data|]; [|apply Hfail; discriminate].
  destruct (App.form_name_truthy data); cbn [negb]; [|apply Hfail; discriminate].
  destruct (find _ _) as [u|] eqn:Hfind; [|apply Hfail; discriminate].
  apply StoreFacts.find_unknown_visitor in Hfind as (Hu & Huid & Hflag).
  destruct (App.files w !! u_image_path u) as [image|] eqn:Himg;
    [|apply Hfail; discriminate].
  destruct (fe image) as [[|e rest]|] eqn:Hfe; try (apply Hfail; discriminate).
  destruct (Database.add_person (App.store w) now
              (default "" (App.form_name data)) e (App.form_notes data))
    as [[pid|] s1] eqn:Ha; cbn [optint_truthy]; [|apply Hfail; discriminate].
  destruct (negb (pid =? 0)); [|apply Hfail; discriminate].
  pose proof (StoreFacts.add_person_some _ _ _ _ _ _ _ Ha)
    as (Hsame & _ & p & Hp & Hid & _ & He).
  assert (Hc1 : sightings_consistent s1).
  { unfold sightings_consistent. now rewrite Hsame. }
  pose proof (StoreFacts.mark_sightings_consistent s1 unknown_id pid Hc1) as Hc2.
  simpl in Hc2 |- *. split; [|split; [exact Hc2|]].
  - intros s Hs. rewrite !List.in_app_iff in Hs. simpl in Hs.
    destruct Hs as [[Hs|[<-|[]]]|[<-|[]]]; auto.
  - intros _. exists data, u, image, e, rest, pid, s1.
    repeat (split; [first [reflexivity|assumption]|]).
    split.
    { exists p. rewrite Hp, List.in_app_iff. simpl. tauto. }
    split; [exact Hsame|].
    split; [now rewrite <- List.app_assoc|].
    split; [reflexivity|]. split.
    + apply List.in_map_iff. exists u. rewrite Hsame.
      split; [|exact Hu]. rewrite Huid, Z.eqb_refl. reflexivity.
    + intros u' Hu' Hid'. apply List.in_map_iff in Hu' as [u0 [<- Hu0]].
      destruct (Z.eqb_spec (u_id u0) unknown_id) as [E|E]; [simpl; tauto|].
      contradiction.
Qed.

End AppFacts.

(** * Worked examples *)

Module Checks.

Import Database FaceRecognitionSystem Json Spec ConfigSpec Claims Samples.

(** Alice is registered in the sample store: a second Alice is refused, and
    names stay unique through a mix of creations and renamings. *)
Lemma add_person_duplicate_rejected_witness :
  add_person sample_store 10 "Alice" [] "" = (None, sample_store) /\
  names_unique (apply_ops sample_store sample_ops).
Proof.
  destruct (StoreFacts.add_person_duplicate_rejected
              sample_store 10 "Alice" [] "" sample_ops) as [H1 H2].
  split.
  - apply H1. exists (registered 1 "Alice" 2). split; [now left|reflexivity].
  - apply H2. split.
    + unfold ids_increasing. simpl. repeat (constructor; try lia).
    + unfold names_unique. simpl.
      repeat (constructor; [simpl; intuition discriminate|]). constructor.
Defined.

(** Bob and Carol both have five visits: Bob, inserted first, is reported. *)
Lemma get_statistics_correct_witness :
  exists p,
    In p (persons sample_store) /\
    most_frequent_visitor (get_statistics sample_store 0)
      = (Some (p_name p), p_visit_count p) /\
    forall q, In q (persons sample_store) ->
      p_visit_count q <= p_visit_count p /\
      (p_visit_count q = p_visit_count p -> p_id p <= p_id q).
Proof.
  destruct (StoreFacts.get_statistics_correct sample_store 0)
    as (_ & _ & _ & _ & H).
  destruct H as (before & p & after & E & Hm & _ & _ & Hi); [discriminate|].
  exists p. split; [|split].
  - rewrite E. apply List.in_app_iff. right. now left.
  - exact Hm.
  - apply Hi. unfold ids_increasing. simpl. repeat (constructor; try lia).
Defined.

Lemma delete_person_frame_witness :
  unknown_visitors (snd (delete_person sample_store 2))
  = unknown_visitors sample_store.
Proof. apply (StoreFacts.delete_person_frame sample_store 2). Defined.

Lemma recognize_nearest_witness :
  exists (i : nat) (d : Q) (n : string) (pid : Z),
    face_distance abs_distance (encodings two_known) [3%Q] !! i = Some d /\
    names two_known !! i = Some n /\ ids two_known !! i = Some pid /\
    (forall j d', face_distance abs_distance (encodings two_known) [3%Q] !! j
                  = Some d' -> (d <= d')%Q) /\
    (forall j d', (j < i)%nat ->
       face_distance abs_distance (encodings two_known) [3%Q] !! j = Some d' ->
       (d < d')%Q) /\
    ((d <= 2)%Q ->
     recognize abs_distance two_known 2 [3%Q] =
       Some {| r_name := n; r_person_id := Some pid;
               r_confidence := (1 - d)%Q |}) /\
    (~ (d <= 2)%Q ->
     recognize abs_distance two_known 2 [3%Q] = Some unknown_face).
Proof.
  apply (LoopFacts.recognize_nearest_within_tolerance
           abs_distance two_known 2 [3%Q]);
    [reflexivity|reflexivity|discriminate].
Defined.

(** Alice seen at 1000 and at 1010, a stranger in between: one visit.  Seen
    at 1000 and at 1301: a visit and a notification each time. *)
Lemma cooldown_per_person_witness :
  (let s1 := handle_person idle_system (clocks_at 1000) alice_seen in
   let s1' := handle_persons s1 [(clocks_at 1005, stranger_seen)] in
   let s2 := handle_person s1' (clocks_at 1010) alice_seen in
   produced_visits idle_system s1 + produced_visits s1' s2 <= 1 /\
   produced_notifications idle_system s1 + produced_notifications s1' s2 <= 1) /\
  (let s1 := handle_person idle_system (clocks_at 1000) alice_seen in
   let s1' := handle_persons s1 [(clocks_at 1005, stranger_seen)] in
   let s2 := handle_person s1' (clocks_at 1301) alice_seen in
   produced_visits idle_system s1 = 1 /\ produced_visits s1' s2 = 1 /\
   produced_notifications idle_system s1 = 1 /\
   produced_notifications s1' s2 = 1).
Proof.
  assert (Hpid : (1 <> 0)%Z) by lia.
  assert (Hbetween : forall ev, In ev [(clocks_at 1005, stranger_seen)] ->
                       d_person_id (snd ev) <> Some 1).
  { intros ev [<-|[]]. discriminate. }
  split.
  - pose proof (LoopFacts.cooldown_per_person idle_system 1
                  (clocks_at 1000) (clocks_at 1010) alice_seen alice_seen
                  [(clocks_at 1005, stranger_seen)]
                  Hpid eq_refl eq_refl Hbetween) as H.
    cbv zeta in H. destruct H as (H & _ & _). cbv zeta. apply H.
    vm_compute. reflexivity.
  - pose proof (LoopFacts.cooldown_per_person idle_system 1
                  (clocks_at 1000) (clocks_at 1301) alice_seen alice_seen
                  [(clocks_at 1005, stranger_seen)]
                  Hpid eq_refl eq_refl Hbetween) as H.
    cbv zeta in H. destruct H as (_ & H & _). cbv zeta.
    destruct H as (V1 & V2 & N); [vm_compute; reflexivity ..|].
    destruct (N eq_refl) as [N1 N2]. tauto.
Defined.

(** The scenario of the specification, through [run] with every frame
    processed: a first sighting of Alice, a second 10 seconds later, a third
    301 seconds after the first. *)
Example alice_scenario :
  let go := run abs_distance 0.6%Q 1 in
  let st1 := go alice_loop [alice_frame 1700000000] in
  let st2 := go st1 [alice_frame 1700000010] in
  let st3 := go st2 [alice_frame 1700000301] in
  visits_and_count st1 = (1%nat, [1], 1%nat) /\
  visits_and_count st2 = (1%nat, [1], 1%nat) /\
  visits_and_count st3 = (2%nat, [2], 2%nat).
Proof. vm_compute. repeat split. Qed.

(** Two strangers ten seconds apart: two sightings, two notifications. *)
Lemma unknown_bucket_counterexample :
  ~ unknown_bucket_claim idle_system (clocks_at 1000) (clocks_at 1010)
      stranger_seen stranger_seen.
Proof.
  unfold unknown_bucket_claim. intros H.
  destruct H as [H _]; [reflexivity|reflexivity|vm_compute; reflexivity|].
  vm_compute in H. apply H. reflexivity.
Defined.

Lemma unknown_always_logged_witness :
  let sys' := handle_person idle_system (clocks_at 1000) stranger_seen in
  produced_sightings idle_system sys' = 1 /\
  produced_visits idle_system sys' = 0 /\
  produced_notifications idle_system sys' = 1 /\
  last_seen sys' = last_seen idle_system.
Proof.
  pose proof (LoopFacts.unknown_always_logged idle_system (clocks_at 1000)
                stranger_seen eq_refl) as H.
  cbv zeta in H |- *. destruct H as (H1 & _ & H2 & H3 & H4).
  split; [exact H1|]. split; [exact H2|]. split; [exact H3|exact H4].
Defined.

(** An upload whose image shows no face is answered 500 with the text of an
    exception, not with a 4xx reply that reports the missing face. *)
Lemma upload_checked_counterexample :
  ~ upload_checked_claim no_face empty_world "20240101_120000" 10 bob_upload.
Proof.
  unfold upload_checked_claim. cbv zeta. intros [_ H].
  destruct H as (Hc & _); [intros e; discriminate|]. discriminate Hc.
Defined.

Lemma add_person_never_registers_witness :
  App.add_person no_face empty_world "20240101_120000" 10 upload_request
    = ({| App.status := 500; App.content := App.Raised |}, empty_world) /\
  App.add_person one_face empty_world "20240101_120000" 10 upload_request
    = ({| App.status := 500; App.content := App.Raised |}, empty_world) /\
  App.add_person one_face empty_world "20240101_120000" 10 json_request
    = ({| App.status := 400; App.content := App.Error "No image provided" |},
       empty_world).
Proof.
  pose proof (AppFacts.add_person_never_registers no_face empty_world
                "20240101_120000" 10 upload_request) as H0.
  pose proof (AppFacts.add_person_never_registers one_face empty_world
                "20240101_120000" 10 upload_request) as H1.
  pose proof (AppFacts.add_person_never_registers one_face empty_world
                "20240101_120000" 10 json_request) as H2.
  cbv zeta in H0, H1, H2.
  destruct H0 as (A0 & _ & B0 & _), H1 as (A1 & _ & B1 & _),
           H2 as (A2 & _ & _ & B2).
  split; [|split].
  - rewrite (surjective_pairing (App.add_person _ _ _ _ _)).
    now rewrite A0, (B0 _ eq_refl).
  - rewrite (surjective_pairing (App.add_person _ _ _ _ _)).
    now rewrite A1, (B1 _ eq_refl).
  - rewrite (surjective_pairing (App.add_person _ _ _ _ _)).
    now rewrite A2, (B2 _ eq_refl).
Defined.

(** After the first commit of the promotion, Alice exists while sighting 1
    is still unresolved. *)
Lemma promotion_atomic_counterexample :
  ~ promotion_atomic_claim one_face sighting_world 200 1 alice_form.
Proof.
  unfold promotion_atomic_claim. cbv zeta. intros H.
  specialize (H ltac:(vm_compute; reflexivity) promoted_midway).
  destruct H as [H _].
  - vm_compute. left. reflexivity.
  - simpl. tauto.
  - destruct H as (u & Hin & _ & Hflag).
    + eexists. split; [left; reflexivity|reflexivity].
    + destruct Hin as [<-|[]]. discriminate Hflag.
Defined.

Lemma identify_unknown_promotes_witness :
  let res := App.identify_unknown one_face sighting_world 200 1 (Some alice_form) in
  sightings_consistent (App.store (snd res)) /\
  App.observed (snd res) = [promoted_midway; App.store (snd res)] /\
  exists pid, In (identify_row pid
                    {| u_id := 1; u_timestamp := 100;
                       u_image_path := "data/images/t_Unknown.jpg";
                       u_identified := false; u_identified_as := None |})
                 (unknown_visitors (App.store (snd res))).
Proof.
  assert (Hc : sightings_consistent (App.store sighting_world)).
  { repeat constructor; simpl; [discriminate|congruence]. }
  pose proof (AppFacts.identify_unknown_promotes one_face sighting_world 200 1
                (Some alice_form) Hc) as H.
  cbv zeta in H |- *. destruct H as (_ & H2 & H3).
  split; [exact H2|]. split; [vm_compute; reflexivity|].
  destruct H3 as (data & u & image & e & rest & pid & s1 & _ & Hu & _ & _ & _
                  & _ & _ & _ & _ & _ & _ & Hin & _);
    [vm_compute; reflexivity|].
  exists pid. destruct Hu as [<-|[]]. exact Hin.
Defined.

Lemma get_config_hides_secrets_witness :
  App.get_config
    (Some (with_secrets (JStr "other") (JStr "SG.other") JNull sample_config))
    = App.get_config (Some sample_config) /\
  exists out,
    App.get_config (Some sample_config)
      = {| App.status := 200; App.content := App.Payload out |} /\
    lookup_path ["dvr"; "password"] out = None /\
    lookup_path ["notifications"; "email"; "sendgrid_api_key"] out = None /\
    lookup_path ["notifications"; "telegram"; "bot_token"] out = None.
Proof.
  destruct (AppFacts.get_config_hides_secrets sample_config
              (JStr "other") (JStr "SG.other") JNull) as (H1 & H2 & _).
  split; [exact H1|]. eexists. split; [vm_compute; reflexivity|].
  apply H2. vm_compute. reflexivity.
Defined.

(** The route accepts the id 2^63, which SQLite cannot bind. *)
Lemma delete_always_succeeds_counterexample :
  ~ delete_always_succeeds_claim empty_world (2 ^ 63).
Proof.
  unfold delete_always_succeeds_claim. intros [H _].
  vm_compute in H. discriminate H.
Defined.

(** Person 2 exists in one store and not in the other. *)
Lemma delete_person_reports_success_witness :
  In (registered 2 "Bob" 5) (persons (App.store populated_world)) /\
  fst (App.delete_person populated_world 2)
    = {| App.status := 200;
         App.content := App.Done "Person deleted successfully" |} /\
  fst (App.delete_person populated_world 2)
    = fst (App.delete_person empty_world 2) /\
  Database.delete_person (App.store empty_world) 2
    = (true, App.store empty_world) /\
  App.delete_person populated_world (2 ^ 63)
    = ({| App.status := 500;
          App.content := App.Error "Failed to delete person" |},
       populated_world).
Proof.
  destruct (AppFacts.delete_person_reports_success populated_world empty_world 2)
    as [H _].
  destruct (H eq_refl) as (_ & H1 & H2 & _).
  destruct (AppFacts.delete_person_reports_success empty_world populated_world 2)
    as [H' _].
  destruct (H' eq_refl) as (_ & _ & _ & H3).
  destruct (AppFacts.delete_person_reports_success populated_world empty_world
              (2 ^ 63)) as [_ H''].
  destruct (H'' eq_refl) as [_ H4].
  split; [right; left; reflexivity|].
  split; [exact H1|]. split; [exact H2|].
  split; [apply H3; intros ? []|exact H4].
Defined.

End Checks.

(** * More about the store *)

Module StoreExtras.

Import Database DatabaseQueries Spec.

Lemma find_snoc {A : Type} (f : A -> bool) (l : list A) (x : A) :
  find f (l ++ [x]) =
  match find f l with
  | Some y => Some y
  | None => if f x then Some x else None
  end.
Proof.
  induction l as [|a l IH]; simpl; [reflexivity|].
  destruct (f a); [reflexivity|exact IH].
Qed.

Lemma find_none_iff {A : Type} (f : A -> bool) (l : list A) :
  find f l = None <-> forall x, In x l -> f x = false.
Proof.
  split.
  - intros H x Hx. now apply (List.find_none f l H).
  - induction l as [|a l IH]; simpl; intros H; [reflexivity|].
    rewrite (H a) by now left. apply IH. intros x Hx. apply H. now right.
Qed.

Lemma with_persons_same (s : db) : with_persons s (persons s) = s.
Proof. now destruct s. Qed.

Lemma name_free (name : string) (s : db) :
  name_taken name s = false <-> forall p, In p (persons s) -> p_name p <> name.
Proof.
  rewrite <- not_true_iff_false, StoreFacts.name_taken_In, List.in_map_iff.
  split.
  - intros H p Hp E. apply H. eauto.
  - intros H (p & E & Hp). now apply (H p).
Qed.

(** Registration and lookup agree: a person just added is found under the
    returned id and under the name, with the data given and no visit yet;
    lookups of other ids are not disturbed. *)
Theorem add_person_then_lookup (s s' : db) (now pid : Z) (name : string)
    (e : encoding) (notes : string) :
  add_person s now name e notes = (Some pid, s') ->
  exists p,
    get_person s' pid = Some p /\ get_person_by_name s' name = Some p /\
    p_id p = pid /\ p_name p = name /\ p_face_encoding p = e /\
    p_notes p = notes /\ p_visit_count p = 0 /\
    p_first_seen p = now /\ p_last_seen p = now /\
    (forall other, other <> pid -> get_person s' other = get_person s other).
Proof.
  unfold add_person. destruct (name_taken name s) eqn:Ht; [discriminate|].
  intros [= <- <-]. eexists. unfold get_person, get_person_by_name. simpl.
  rewrite !find_snoc. simpl. rewrite Z.eqb_refl, String.eqb_refl.
  assert (H1 : find (fun p => p_id p =?
                 next_rowid (seq_persons s) (map p_id (persons s))) (persons s)
               = None).
  { apply find_none_iff. intros q Hq. apply Z.eqb_neq.
    pose proof (StoreFacts.next_rowid_fresh (seq_persons s)
                  (map p_id (persons s)) (p_id q) (List.in_map _ _ _ Hq)). lia. }
  assert (H2 : find (fun p => String.eqb (p_name p) name) (persons s) = None).
  { apply find_none_iff. intros q Hq. apply String.eqb_neq.
    now apply (proj1 (name_free name s) Ht). }
  rewrite H1, H2. repeat (split; [reflexivity|]).
  intros other Hne. rewrite find_snoc. simpl.
  destruct (find (fun p => p_id p =? other) (persons s)); [reflexivity|].
  destruct (Z.eqb_spec (next_rowid (seq_persons s) (map p_id (persons s))) other);
    [congruence|reflexivity].
Qed.

(** A deleted person's name is free again, and registering it anew gives a
    larger id than the deleted one: ids are not reused. *)
Theorem delete_frees_name_not_id (s s1 : db) (now now' a : Z) (name : string)
    (e e' : encoding) (notes notes' : string) :
  add_person s now name e notes = (Some a, s1) ->
  exists b s3,
    add_person (snd (delete_person s1 a)) now' name e' notes' = (Some b, s3) /\
    a < b.
Proof.
  unfold add_person at 1. destruct (name_taken name s) eqn:Ht; [discriminate|].
  intros [= <- <-]. unfold add_person.
  set (a := next_rowid (seq_persons s) (map p_id (persons s))).
  assert (Hfree : name_taken name
            (snd (delete_person
               {| persons := persons s ++
                    [ {| p_id := a; p_name := name; p_face_encoding := e;
                         p_first_seen := now; p_last_seen := now;
                         p_visit_count := 0; p_notes := notes;
                         p_created_at := now |} ];
                  visits := visits s; unknown_visitors := unknown_visitors s;
                  seq_persons := a; seq_visits := seq_visits s;
                  seq_unknown := seq_unknown s |} a)) = false).
  { apply name_free. simpl. intros p Hp.
    apply List.filter_In in Hp as [Hp Hid].
    apply negb_true_iff, Z.eqb_neq in Hid.
    apply List.in_app_iff in Hp as [Hp|[<-|[]]].
    - now apply (proj1 (name_free name s) Ht).
    - simpl in Hid. congruence. }
  rewrite Hfree. eexists. eexists. split; [reflexivity|]. simpl.
  apply StoreFacts.next_rowid_above_seq.
Qed.

(** Updating a person that does not exist changes nothing.  When the id
    fits a SQLite integer, or when no statement is executed, success is
    reported by the store and by the endpoint; an id outside the range, sent
    with a name or notes, gives [False] and 500. *)
Theorem update_person_missing (w : App.world) (person_id : Z)
    (name notes : option string) :
  (forall p, In p (persons (App.store w)) -> p_id p <> person_id) ->
  (sql_int person_id = true \/ executes_update name notes = false ->
   Database.update_person (App.store w) person_id name notes
     = (true, App.store w) /\
   fst (App.update_person w person_id name notes)
     = {| App.status := 200;
          App.content := App.Done "Person updated successfully" |}) /\
  (sql_int person_id = false -> executes_update name notes = true ->
   Database.update_person (App.store w) person_id name notes
     = (false, App.store w) /\
   fst (App.update_person w person_id name notes)
     = {| App.status := 500;
          App.content := App.Error "Failed to update person" |}) /\
  App.store (snd (App.update_person w person_id name notes)) = App.store w.
Proof.
  intros Habs.
  assert (Hout : executes_update name notes && negb (sql_int person_id) = true ->
            Database.update_person (App.store w) person_id name notes
              = (false, App.store w)).
  { intros E. unfold Database.update_person. now rewrite E. }
  assert (H : executes_update name notes && negb (sql_int person_id) = false ->
            Database.update_person (App.store w) person_id name notes
              = (true, App.store w)).
  { intros E. unfold Database.update_person. rewrite E.
    assert (Hc : forall n, rename_conflict person_id n (persons (App.store w))
                           = false).
    { intros n. unfold rename_conflict. apply andb_false_iff. left.
      apply not_true_iff_false. intros Hex.
      apply List.existsb_exists in Hex as (p & Hp & Hid).
      apply Z.eqb_eq in Hid. now apply (Habs p). }
    destruct name as [n|]; [destruct (str_truthy n); [rewrite Hc|]|];
      destruct notes as [t|]; cbv zeta beta iota;
      rewrite ?(StoreFacts.update_absent person_id _
                  (persons (App.store w)) Habs);
      now rewrite with_persons_same. }
  split; [|split].
  - intros Hin.
    assert (E : executes_update name notes && negb (sql_int person_id) = false)
      by (destruct Hin as [-> | ->]; [apply andb_false_r|reflexivity]).
    specialize (H E). split; [exact H|].
    unfold App.update_person. now rewrite H.
  - intros E1 E2.
    assert (E : executes_update name notes && negb (sql_int person_id) = true)
      by now rewrite E1, E2.
    specialize (Hout E). split; [exact Hout|].
    unfold App.update_person. now rewrite Hout.
  - unfold App.update_person.
    destruct (executes_update name notes && negb (sql_int person_id)) eqn:E.
    + now rewrite (Hout eq_refl).
    + now rewrite (H eq_refl).
Qed.

(** Renaming a person to a name that another person carries fails as a
    whole: [False] is returned, the endpoint answers 500, and neither the
    name nor the notes given with it are stored. *)
Theorem update_person_name_conflict (w : App.world) (person_id : Z)
    (n : string) (notes : option string) (p q : person) :
  In p (persons (App.store w)) -> p_id p = person_id ->
  In q (persons (App.store w)) -> p_id q <> person_id -> p_name q = n ->
  n <> "" ->
  Database.update_person (App.store w) person_id (Some n) notes
    = (false, App.store w) /\
  App.update_person w person_id (Some n) notes
    = ({| App.status := 500;
          App.content := App.Error "Failed to update person" |}, w).
Proof.
  intros Hp Hpid Hq Hqid Hqn Hn.
  assert (H : Database.update_person (App.store w) person_id (Some n) notes
              = (false, App.store w)).
  { unfold Database.update_person.
    destruct (executes_update (Some n) notes && negb (sql_int person_id));
      [reflexivity|].
    unfold str_truthy.
    destruct (String.eqb_spec n ""); [contradiction|]. simpl.
    assert (Hc : rename_conflict person_id n (persons (App.store w)) = true).
    { unfold rename_conflict. apply andb_true_iff. split.
      - apply List.existsb_exists. exists p. split; [exact Hp|].
        now apply Z.eqb_eq.
      - apply List.existsb_exists. exists q. split; [exact Hq|].
        apply andb_true_iff. split.
        + now apply negb_true_iff, Z.eqb_neq.
        + now apply String.eqb_eq. }
    now rewrite Hc. }
  split; [exact H|]. unfold App.update_person. now rewrite H.
Qed.

Lemma filter_twice {A : Type} (f : A -> bool) (l : list A) :
  List.filter f (List.filter f l) = List.filter f l.
Proof.
  induction l as [|a l IH]; simpl; [reflexivity|].
  destruct (f a) eqn:E; simpl; [rewrite E; f_equal|]; exact IH.
Qed.

Lemma filter_none {A : Type} (f : A -> bool) (l : list A) :
  (forall x, In x l -> f x = false) -> List.filter f l = [].
Proof.
  induction l as [|a l IH]; simpl; intros H; [reflexivity|].
  rewrite (H a) by now left. apply IH. intros x Hx. apply H. now right.
Qed.

(** Deleting a person whose id SQLite can bind returns [True]; afterwards
    the lookup of the id finds no row, no visit references the id, and
    deleting again returns [True] and changes nothing more.  For an id
    outside the range the deletion returns [False] and the lookup raises; a
    store whose rows keep to the range is left as it was. *)
Theorem delete_person_idempotent (s : db) (person_id : Z) :
  let s1 := snd (delete_person s person_id) in
  (sql_int person_id = true ->
   fst (delete_person s person_id) = true /\
   get_person_call s1 person_id = Some None /\
   visits_for person_id s1 = 0 /\
   delete_person s1 person_id = (true, s1)) /\
  (sql_int person_id = false ->
   fst (delete_person s person_id) = false /\
   get_person_call s person_id = None /\
   (ExtraSpec.ids_in_range s -> s1 = s)).
Proof.
  cbv zeta. split; intros Hid.
  - split; [exact Hid|]. split; [|split].
    + unfold get_person_call. rewrite Hid. f_equal.
      apply find_none_iff. intros p Hp. apply List.filter_In in Hp as [_ Hp].
      now apply negb_true_iff in Hp.
    + unfold visits_for. simpl. rewrite filter_none; [reflexivity|].
      intros v Hv. apply List.filter_In in Hv as [_ Hv].
      now apply negb_true_iff in Hv.
    + unfold delete_person. simpl. rewrite Hid. now rewrite !filter_twice.
  - split; [exact Hid|]. split.
    + unfold get_person_call. now rewrite Hid.
    + intros [Hp Hv]. apply StoreFacts.delete_person_missing.
      * intros p Hin E. specialize (Hp p Hin). rewrite E in Hp. congruence.
      * intros v Hin E. specialize (Hv v Hin). rewrite E in Hv. congruence.
Qed.

Lemma update_where_In (pid : Z) (f : person -> person) (rows : list person)
    (p' : person) :
  In p' (update_where_id pid f rows) ->
  exists p, In p rows /\
    ((p_id p <> pid /\ p' = p) \/ (p_id p = pid /\ p' = f p)).
Proof.
  unfold update_where_id. intros H.
  apply List.in_map_iff in H as (p & E & Hp). exists p. split; [exact Hp|].
  destruct (Z.eqb_spec (p_id p) pid); [right|left]; auto.
Qed.

Lemma update_person_rows (s : db) (pid : Z) (name notes : option string) :
  visits (snd (update_person s pid name notes)) = visits s /\
  seq_persons (snd (update_person s pid name notes)) = seq_persons s /\
  forall p', In p' (persons (snd (update_person s pid name notes))) ->
    exists p, In p (persons s) /\ p_id p' = p_id p /\
              p_visit_count p' = p_visit_count p.
Proof.
  assert (Hkeep : forall (f : person -> person) rows,
    (forall p, p_id (f p) = p_id p /\ p_visit_count (f p) = p_visit_count p) ->
    (forall p', In p' rows -> exists p, In p (persons s) /\ p_id p' = p_id p /\
                  p_visit_count p' = p_visit_count p) ->
    forall p', In p' (update_where_id pid f rows) ->
      exists p, In p (persons s) /\ p_id p' = p_id p /\
                p_visit_count p' = p_visit_count p).
  { intros f rows Hf Hrows p' Hp'.
    apply update_where_In in Hp' as (p0 & Hp0 & [[_ ->]|[_ ->]]); [auto|].
    destruct (Hrows p0 Hp0) as (p & Hp & E1 & E2). exists p.
    destruct (Hf p0) as [-> ->]. auto. }
  assert (Hid : forall p', In p' (persons s) -> exists p, In p (persons s) /\
                  p_id p' = p_id p /\ p_visit_count p' = p_visit_count p)
    by (intros p' Hp'; exists p'; auto).
  unfold update_person.
  destruct (executes_update name notes && negb (sql_int pid));
    [simpl; repeat split; auto|].
  destruct name as [n|]; [destruct (str_truthy n);
    [destruct (rename_conflict pid n (persons s))|]|];
    destruct notes as [t|]; simpl; repeat split; auto;
    repeat (apply Hkeep; [intros; split; reflexivity|]); auto.
Qed.

Lemma visits_for_snoc (pid : Z) (v : visit) (rows : list visit) :
  Z.of_nat (length (List.filter (fun x => v_person_id x =? pid) (rows ++ [v])))
  = Z.of_nat (length (List.filter (fun x => v_person_id x =? pid) rows))
    + (if v_person_id v =? pid then 1 else 0).
Proof.
  rewrite List.filter_app, length_app. simpl.
  destruct (v_person_id v =? pid); simpl; lia.
Qed.

Lemma filter_after_delete (pid q : Z) (rows : list visit) :
  q <> pid ->
  List.filter (fun x => v_person_id x =? q)
    (List.filter (fun v => negb (v_person_id v =? pid)) rows)
  = List.filter (fun x => v_person_id x =? q) rows.
Proof.
  intros Hne. induction rows as [|v rows IH]; simpl; [reflexivity|].
  destruct (Z.eqb_spec (v_person_id v) pid) as [E|E]; simpl.
  - destruct (Z.eqb_spec (v_person_id v) q); [congruence|exact IH].
  - destruct (v_person_id v =? q); [f_equal|]; exact IH.
Qed.

(** The bookkeeping behind [counters_match]: no person and no visit carries
    an id beyond the persons sequence. *)
Lemma counters_step (s : db) (c : store_call) :
  ((forall p, In p (persons s) -> p_id p <= seq_persons s) /\
   (forall v, In v (visits s) -> v_person_id v <= seq_persons s) /\
   ExtraSpec.counters_match s) ->
  ExtraSpec.issued s c ->
  (forall p, In p (persons (call_store s c)) ->
     p_id p <= seq_persons (call_store s c)) /\
  (forall v, In v (visits (call_store s c)) ->
     v_person_id v <= seq_persons (call_store s c)) /\
  ExtraSpec.counters_match (call_store s c).
Proof.
  intros (Hp & Hv & Hc) Hissued. unfold ExtraSpec.counters_match in *.
  destruct c as [now name e notes|pid name notes|pid|now pid conf path
                |now path|uid pid]; simpl.
  - unfold add_person. destruct (name_taken name s); simpl; [auto|].
    pose proof (StoreFacts.next_rowid_above_seq (seq_persons s)
                  (map p_id (persons s))) as Hnew.
    split; [|split].
    + intros p Hin. apply List.in_app_iff in Hin as [Hin|[<-|[]]]; simpl; [|lia].
      specialize (Hp p Hin). lia.
    + intros v Hin. specialize (Hv v Hin). lia.
    + intros p Hin. unfold visits_for. simpl.
      apply List.in_app_iff in Hin as [Hin|[<-|[]]]; [now apply Hc|]. simpl.
      rewrite filter_none; [reflexivity|].
      intros v Hin. apply Z.eqb_neq. specialize (Hv v Hin). lia.
  - destruct (update_person_rows s pid name notes) as (E1 & E2 & Hrows).
    rewrite E2. unfold visits_for. rewrite E1. split; [|split; [exact Hv|]].
    + intros p' Hin. destruct (Hrows p' Hin) as (p & Hin' & -> & _). auto.
    + intros p' Hin. destruct (Hrows p' Hin) as (p & Hin' & -> & ->).
      now apply Hc.
  - split; [|split].
    + intros p Hin. apply List.filter_In in Hin as [Hin _]. auto.
    + intros v Hin. apply List.filter_In in Hin as [Hin _]. auto.
    + intros p Hin. apply List.filter_In in Hin as [Hin Hid].
      apply negb_true_iff, Z.eqb_neq in Hid. unfold visits_for. simpl.
      rewrite filter_after_delete by exact Hid. now apply Hc.
  - simpl in Hissued. split; [|split].
    + intros p' Hin.
      apply update_where_In in Hin as (p & Hin & [[_ ->]|[_ ->]]); simpl; auto.
    + intros v Hin. apply List.in_app_iff in Hin as [Hin|[<-|[]]]; simpl; auto.
    + intros p' Hin. unfold visits_for. simpl. rewrite visits_for_snoc.
      simpl.
      apply update_where_In in Hin as (p & Hin & [[Hne ->]|[He ->]]); simpl.
      * destruct (Z.eqb_spec pid (p_id p)); [congruence|].
        rewrite (Hc p Hin). unfold visits_for. lia.
      * destruct (Z.eqb_spec pid (p_id p)); [|congruence].
        rewrite (Hc p Hin). unfold visits_for. lia.
  - auto.
  - auto.
Qed.

(** From a fresh database, as long as visits are logged for ids already
    handed out, every person's [visit_count] is the number of visit rows
    that reference the person, whatever else is called in between. *)
Theorem visit_counters_match (calls : list store_call) :
  ExtraSpec.issued_run init_database calls ->
  ExtraSpec.counters_match (fold_left call_store calls init_database).
Proof.
  assert (H0 : (forall p, In p (persons init_database) ->
                  p_id p <= seq_persons init_database) /\
               (forall v, In v (visits init_database) ->
                  v_person_id v <= seq_persons init_database) /\
               ExtraSpec.counters_match init_database).
  { repeat split; intros x []. }
  revert H0. generalize init_database.
  induction calls as [|c calls IH]; simpl; intros s Hinv Hrun; [tauto|].
  destruct Hrun as [Hc Hrun]. apply IH; [|exact Hrun].
  now apply counters_step.
Qed.


Lemma insert_desc_length {A : Type} (key : A -> Z) (x : A) (rows : list A) :
  length (insert_desc key x rows) = S (length rows).
Proof.
  induction rows as [|y rows IH]; simpl; [reflexivity|].
  destruct (key x <? key y); simpl; [now rewrite IH|reflexivity].
Qed.

Lemma order_by_desc_length {A : Type} (key : A -> Z) (rows : list A) :
  length (order_by_desc key rows) = length rows.
Proof.
  induction rows as [|y rows IH]; simpl; [reflexivity|].
  now rewrite insert_desc_length, IH.
Qed.

Lemma insert_desc_sorted {A : Type} (key : A -> Z) (x : A) (rows : list A) :
  ExtraSpec.newest_first key rows ->
  ExtraSpec.newest_first key (insert_desc key x rows).
Proof.
  unfold ExtraSpec.newest_first.
  induction rows as [|y rows IH]; simpl; intros Hs.
  - repeat constructor.
  - apply StronglySorted_inv in Hs as [Hs Hy].
    destruct (Z.ltb_spec (key x) (key y)).
    + constructor; [auto|]. apply List.Forall_forall. intros z Hz.
      apply StoreFacts.insert_desc_In in Hz as [->|Hz]; [lia|].
      rewrite List.Forall_forall in Hy. auto.
    + constructor; [constructor; auto|]. constructor; [lia|].
      rewrite List.Forall_forall in *. intros z Hz. specialize (Hy z Hz). lia.
Qed.

Lemma order_by_desc_sorted {A : Type} (key : A -> Z) (rows : list A) :
  ExtraSpec.newest_first key (order_by_desc key rows).
Proof.
  induction rows as [|y rows IH]; simpl; [constructor|].
  now apply insert_desc_sorted.
Qed.

Lemma firstn_sorted {A : Type} (R : A -> A -> Prop) (n : nat) (rows : list A) :
  StronglySorted R rows -> StronglySorted R (firstn n rows).
Proof.
  revert rows. induction n as [|n IH]; intros [|y rows] Hs; simpl;
    try constructor.
  - apply IH. now apply StronglySorted_inv in Hs.
  - apply StronglySorted_inv in Hs as [_ Hy].
    rewrite List.Forall_forall in *. intros z Hz. apply Hy.
    revert Hz. clear. revert rows. induction n as [|n IH]; intros [|a rows];
      simpl; try tauto. intros [H|H]; auto.
Qed.

Lemma sql_limit_sorted {A : Type} (key : A -> Z) (n : Z) (rows : list A) :
  ExtraSpec.newest_first key rows ->
  ExtraSpec.newest_first key (sql_limit n rows).
Proof.
  unfold sql_limit. destruct (n <? 0); [tauto|]. apply firstn_sorted.
Qed.

Lemma sql_limit_length {A : Type} (n : Z) (rows : list A) :
  0 <= n -> Z.of_nat (length (sql_limit n rows)) <= n.
Proof.
  intros Hn. unfold sql_limit. destruct (Z.ltb_spec n 0); [lia|].
  rewrite length_firstn. lia.
Qed.

Lemma sql_limit_all {A : Type} (n : Z) (rows : list A) :
  n < 0 \/ Z.of_nat (length rows) <= n -> sql_limit n rows = rows.
Proof.
  intros Hn. unfold sql_limit. destruct (Z.ltb_spec n 0); [reflexivity|].
  apply List.firstn_all2. lia.
Qed.

(** [get_unknown_visitors] raises for a limit that SQLite cannot bind.
    Otherwise it returns only sightings with the flag asked for, newest
    first, at most [limit] of them when [limit] is not negative, and all of
    them when [limit] is negative or at least their number. *)
Theorem get_unknown_visitors_listing (s : db) (limit : Z) (flag : bool) :
  (sql_int limit = false -> get_unknown_visitors_call s limit flag = None) /\
  (sql_int limit = true ->
   exists rows,
     get_unknown_visitors_call s limit flag = Some rows /\
     (forall u, In u rows -> In u (unknown_visitors s) /\ u_identified u = flag) /\
     (0 <= limit -> Z.of_nat (length rows) <= limit) /\
     ExtraSpec.newest_first u_timestamp rows /\
     (limit < 0 \/
      Z.of_nat (length (List.filter (fun u => Bool.eqb (u_identified u) flag)
                          (unknown_visitors s))) <= limit ->
      forall u, In u (unknown_visitors s) -> u_identified u = flag -> In u rows)).
Proof.
  unfold get_unknown_visitors_call. split; intros ->; [reflexivity|].
  eexists. split; [reflexivity|].
  unfold get_unknown_visitors. split; [|split; [|split]].
  - intros u Hu. apply StoreFacts.In_sql_limit in Hu.
    apply StoreFacts.order_by_desc_In in Hu.
    apply List.filter_In in Hu as [Hu Hf]. split; [exact Hu|].
    now apply Bool.eqb_prop.
  - apply sql_limit_length.
  - apply sql_limit_sorted, order_by_desc_sorted.
  - intros Hall u Hu Hf. rewrite sql_limit_all.
    + apply StoreFacts.order_by_desc_In. apply List.filter_In.
      split; [exact Hu|]. rewrite Hf. apply Bool.eqb_reflx.
    + now rewrite order_by_desc_length.
Qed.

Lemma join_persons_In (s : db) (v : visit) (n : string) :
  In (v, n) (join_persons s) <->
  In v (visits s) /\
  exists p, In p (persons s) /\ p_id p = v_person_id v /\ p_name p = n.
Proof.
  unfold join_persons. rewrite List.in_flat_map. split.
  - intros (v0 & Hv0 & Hin). apply List.in_map_iff in Hin as (p & E & Hp).
    injection E as <- <-. apply List.filter_In in Hp as [Hp Hid].
    apply Z.eqb_eq in Hid. split; [exact Hv0|]. exists p. auto.
  - intros (Hv & p & Hp & Hid & Hn). exists v. split; [exact Hv|].
    apply List.in_map_iff. exists p. split; [now rewrite Hn|].
    apply List.filter_In. split; [exact Hp|]. now apply Z.eqb_eq.
Qed.

(** [get_recent_visits] lists visits of persons that exist, each with that
    person's name, newest first and at most [limit] of them; a person id
    restricts the listing to that person, except that id 0 is taken as no
    restriction at all. *)
Theorem get_recent_visits_listing (s : db) (limit : Z) (person_id : option Z) :
  let rows := get_recent_visits s limit person_id in
  (forall v n, In (v, n) rows ->
     In v (visits s) /\
     exists p, In p (persons s) /\ p_id p = v_person_id v /\ p_name p = n) /\
  (forall pid, person_id = Some pid -> pid <> 0 ->
     forall v n, In (v, n) rows -> v_person_id v = pid) /\
  (0 <= limit -> Z.of_nat (length rows) <= limit) /\
  ExtraSpec.newest_first (fun r => v_timestamp (fst r)) rows /\
  get_recent_visits s limit (Some 0) = get_recent_visits s limit None.
Proof.
  cbv zeta. unfold get_recent_visits. split; [|split; [|split; [|split]]].
  - intros v n Hin. apply StoreFacts.In_sql_limit in Hin.
    apply StoreFacts.order_by_desc_In in Hin. apply join_persons_In.
    destruct (optint_truthy person_id); [|exact Hin].
    now apply List.filter_In in Hin as [Hin _].
  - intros pid -> Hpid v n Hin. apply StoreFacts.In_sql_limit in Hin.
    apply StoreFacts.order_by_desc_In in Hin. simpl in Hin.
    destruct (Z.eqb_spec pid 0); [contradiction|]. simpl in Hin.
    apply List.filter_In in Hin as [_ Hid]. now apply Z.eqb_eq in Hid.
  - apply sql_limit_length.
  - apply sql_limit_sorted, order_by_desc_sorted.
  - reflexivity.
Qed.


End StoreExtras.

(** * More about the notifier and the loop *)

Module LoopExtras.

Import Database FaceRecognitionSystem Spec NotifierFeed ExtraSpec.

Lemma firstn_app_firstn {A : Type} (k j : nat) (l1 l2 : list A) :
  (k <= j)%nat -> firstn k (l1 ++ firstn j l2) = firstn k (l1 ++ l2).
Proof.
  revert k. induction l1 as [|a l1 IH]; intros k Hk; simpl.
  - rewrite List.firstn_firstn. f_equal. lia.
  - destruct k as [|k]; simpl; [reflexivity|]. f_equal. apply IH. lia.
Qed.

Lemma store_web_prefix (feed : list Notifier.notification)
    (n : Notifier.notification) :
  Notifier.store_web_notification feed n
  = firstn Notifier.max_web_notifications (n :: feed).
Proof.
  unfold Notifier.store_web_notification.
  destruct (Nat.ltb_spec Notifier.max_web_notifications (length (n :: feed)));
    [reflexivity|].
  symmetry. now apply List.firstn_all2.
Qed.

Lemma send_flags (nt : Notifier.notifier) (x : sending) :
  Notifier.enabled (send nt x) = Notifier.enabled nt /\
  email_ready (send nt x) = email_ready nt /\
  telegram_ready (send nt x) = telegram_ready nt.
Proof.
  unfold send, Notifier.send_notification, email_ready, telegram_ready.
  destruct (Notifier.enabled nt) eqn:E; simpl; auto.
Qed.

Lemma send_enabled (nt : Notifier.notifier) (x : sending) :
  Notifier.enabled nt = true ->
  Notifier.web_notifications (send nt x)
    = firstn Notifier.max_web_notifications
        (as_notification x :: Notifier.web_notifications nt) /\
  Notifier.console (send nt x) = Notifier.console nt ++ [as_notification x] /\
  Notifier.outbox (send nt x)
    = Notifier.outbox nt ++ deliveries nt (as_notification x).
Proof.
  intros E. unfold send, Notifier.send_notification. rewrite E.
  cbn [negb Notifier.web_notifications Notifier.console Notifier.outbox].
  rewrite store_web_prefix. repeat split.
Qed.

Lemma send_all_enabled (xs : list sending) (nt : Notifier.notifier) :
  Notifier.enabled nt = true ->
  (length (Notifier.web_notifications nt) <= Notifier.max_web_notifications)%nat ->
  Notifier.web_notifications (send_all nt xs)
    = firstn Notifier.max_web_notifications
        (rev (map as_notification xs) ++ Notifier.web_notifications nt) /\
  Notifier.console (send_all nt xs)
    = Notifier.console nt ++ map as_notification xs /\
  Notifier.outbox (send_all nt xs)
    = Notifier.outbox nt ++ flat_map (deliveries nt) (map as_notification xs).
Proof.
  unfold send_all. revert nt.
  induction xs as [|x xs IH]; intros nt Hen Hlen; simpl.
  - rewrite !List.app_nil_r. split; [|tauto].
    symmetry. now apply List.firstn_all2.
  - destruct (send_enabled nt x Hen) as (Hw & Hc & Ho).
    destruct (send_flags nt x) as (He & Hm & Ht).
    destruct (IH (send nt x)) as (IH1 & IH2 & IH3).
    + now rewrite He.
    + rewrite Hw, length_firstn. lia.
    + rewrite IH1, IH2, IH3, Hw, Hc, Ho.
      rewrite firstn_app_firstn by lia.
      rewrite <- !List.app_assoc. simpl. repeat split.
      f_equal. f_equal. unfold deliveries. rewrite Hm, Ht.
      reflexivity.
Qed.

(** With notifications enabled, after any run of [send_notification] calls
    the dashboard feed holds the most recent 100 notifications, newest
    first, and [get_recent_notifications] returns the newest [limit] of
    them; the console has every notification in the order sent. *)
Theorem feed_keeps_latest (nt : Notifier.notifier) (xs : list sending) :
  Notifier.enabled nt = true ->
  (length (Notifier.web_notifications nt) <= Notifier.max_web_notifications)%nat ->
  let nt' := send_all nt xs in
  Notifier.web_notifications nt'
    = firstn Notifier.max_web_notifications
        (rev (map as_notification xs) ++ Notifier.web_notifications nt) /\
  (length (Notifier.web_notifications nt') <= Notifier.max_web_notifications)%nat /\
  Notifier.console nt' = Notifier.console nt ++ map as_notification xs /\
  (forall limit, 0 <= limit ->
     get_recent_notifications nt' limit
     = firstn (Nat.min (Z.to_nat limit) Notifier.max_web_notifications)
         (rev (map as_notification xs) ++ Notifier.web_notifications nt)).
Proof.
  intros Hen Hlen. cbv zeta.
  destruct (send_all_enabled xs nt Hen Hlen) as (Hw & Hc & _).
  split; [exact Hw|]. split; [|split; [exact Hc|]].
  - rewrite Hw, length_firstn. lia.
  - intros limit Hl. unfold get_recent_notifications, py_prefix.
    destruct (Z.ltb_spec limit 0); [lia|].
    now rewrite Hw, List.firstn_firstn.
Qed.

Lemma send_all_outbox (xs : list sending) (nt : Notifier.notifier) :
  Notifier.enabled nt = true ->
  Notifier.outbox (send_all nt xs)
    = Notifier.outbox nt ++ flat_map (deliveries nt) (map as_notification xs).
Proof.
  unfold send_all. revert nt.
  induction xs as [|x xs IH]; intros nt Hen; simpl.
  - now rewrite List.app_nil_r.
  - destruct (send_enabled nt x Hen) as (_ & _ & Ho).
    destruct (send_flags nt x) as (He & Hm & Ht).
    rewrite IH by now rewrite He. rewrite Ho, <- List.app_assoc.
    f_equal. f_equal. unfold deliveries. now rewrite Hm, Ht.
Qed.

(** An e-mail is attempted for a notification exactly when e-mail is
    enabled and the API key, the sender and the recipient are all non-empty,
    a Telegram message exactly when Telegram is enabled and the bot token
    and the chat id are non-empty; with notifications disabled as a whole,
    sending changes nothing. *)
Theorem outbound_channels_guarded (nt : Notifier.notifier) (xs : list sending) :
  (Notifier.enabled nt = true ->
   Notifier.outbox (send_all nt xs)
   = Notifier.outbox nt ++
     flat_map
       (fun n =>
          (if email_ready nt then [(Notifier.Email, n)] else [])
          ++ (if telegram_ready nt then [(Notifier.Telegram, n)] else []))
       (map as_notification xs)) /\
  (Notifier.enabled nt = false -> send_all nt xs = nt).
Proof.
  split.
  - intros Hen. now apply send_all_outbox.
  - intros Hoff. unfold send_all. induction xs as [|x xs IH]; simpl; [reflexivity|].
    assert (E : send nt x = nt).
    { unfold send, Notifier.send_notification. now rewrite Hoff. }
    now rewrite E.
Qed.

Lemma map_lookup {A B : Type} (f : A -> B) (l : list A) (i : nat) :
  map f l !! i = option_map f (l !! i).
Proof.
  revert i. induction l as [|a l IH]; intros [|i]; simpl; auto.
Qed.

Lemma recognize_outcome (distance : encoding -> encoding -> Q)
    (kf : known_faces) (tol : Q) (e : encoding) (r : recognition) :
  recognize distance kf tol e = Some r ->
  r = unknown_face \/
  exists (i : nat) (d : Q) (n : string) (pid : Z),
    face_distance distance (encodings kf) e !! i = Some d /\
    names kf !! i = Some n /\ ids kf !! i = Some pid /\ (d <= tol)%Q /\
    (forall j d', face_distance distance (encodings kf) e !! j = Some d' ->
       (d <= d')%Q) /\
    r = {| r_name := n; r_person_id := Some pid; r_confidence := (1 - d)%Q |}.
Proof.
  unfold recognize.
  destruct (Nat.ltb 0 (length (encodings kf))); [|intros [= <-]; now left].
  destruct (existsb _ _); [|intros [= <-]; now left].
  set (dists := face_distance distance (encodings kf) e).
  destruct (compare_faces distance (encodings kf) e tol !! argmin dists)
    as [[|]|] eqn:Hm; [|intros [= <-]; now left|discriminate].
  destruct (names kf !! argmin dists) as [n|] eqn:Hn; [|discriminate].
  destruct (ids kf !! argmin dists) as [pid|] eqn:Hp; [|discriminate].
  destruct (dists !! argmin dists) as [d|] eqn:Hd; [|discriminate].
  intros [= <-]. right. exists (argmin dists), d, n, pid.
  repeat (split; [assumption|]).
  unfold compare_faces in Hm. fold dists in Hm.
  rewrite map_lookup, Hd in Hm. simpl in Hm. injection Hm as Hm.
  apply Qle_bool_iff in Hm. split; [exact Hm|]. split; [|reflexivity].
  assert (Hne : dists <> []) by (intros E; rewrite E in Hd; discriminate).
  destruct (LoopFacts.argmin_first_min dists Hne) as (d0 & H0 & Hmin & _).
  rewrite Hd in H0. injection H0 as <-. exact Hmin.
Qed.

Lemma recognize_total (distance : encoding -> encoding -> Q)
    (kf : known_faces) (tol : Q) (e : encoding) :
  length (names kf) = length (encodings kf) ->
  length (ids kf) = length (encodings kf) ->
  exists r, recognize distance kf tol e = Some r.
Proof.
  intros Hn Hi. unfold recognize.
  destruct (Nat.ltb 0 (length (encodings kf))); [|eauto].
  destruct (existsb _ _) eqn:Hex; [|eauto].
  set (dists := face_distance distance (encodings kf) e).
  assert (Hlen : length dists = length (encodings kf))
    by apply length_map.
  assert (Hne : dists <> []).
  { intros E. unfold compare_faces in Hex. fold dists in Hex.
    rewrite E in Hex. discriminate. }
  destruct (LoopFacts.argmin_first_min dists Hne) as (d & Hd & _).
  assert (Hlt : (argmin dists < length (encodings kf))%nat).
  { rewrite <- Hlen. eapply lookup_lt_Some; eauto. }
  destruct (lookup_lt_is_Some_2 (names kf) (argmin dists)) as [n Hnm]; [lia|].
  destruct (lookup_lt_is_Some_2 (ids kf) (argmin dists)) as [pid Hpid]; [lia|].
  unfold compare_faces. fold dists. rewrite map_lookup, Hd, Hnm, Hpid. simpl.
  destruct (Qle_bool d tol); eauto.
Qed.

Lemma insert_by_name_In (p q : person) (rows : list person) :
  In q (insert_by_name p rows) <-> q = p \/ In q rows.
Proof.
  induction rows as [|a rows IH]; simpl; [intuition congruence|].
  destruct (String.ltb (p_name a) (p_name p)); simpl; rewrite ?IH;
    intuition congruence.
Qed.

Lemma get_all_persons_In (s : db) (p : person) :
  In p (get_all_persons s) <-> In p (persons s).
Proof.
  unfold get_all_persons. induction (persons s) as [|a rows IH]; simpl; [tauto|].
  rewrite insert_by_name_In, IH. intuition congruence.
Qed.

(** Recognition against the faces loaded from the store never fails; a
    match names a registered person, with that person's id, whose stored
    embedding is within the tolerance and at least as close as that of any
    other registered person; the confidence is one minus that distance. *)
Theorem recognize_from_store (distance : encoding -> encoding -> Q) (s : db)
    (tol : Q) (e : encoding) :
  exists r,
    recognize distance (load_known_faces s) tol e = Some r /\
    (r = unknown_face \/
     exists p,
       In p (persons s) /\ r_name r = p_name p /\
       r_person_id r = Some (p_id p) /\
       r_confidence r = (1 - distance (p_face_encoding p) e)%Q /\
       (distance (p_face_encoding p) e <= tol)%Q /\
       forall q, In q (persons s) ->
         (distance (p_face_encoding p) e <= distance (p_face_encoding q) e)%Q).
Proof.
  destruct (recognize_total distance (load_known_faces s) tol e) as [r Hr].
  { unfold load_known_faces. simpl. now rewrite !length_map. }
  { unfold load_known_faces. simpl. now rewrite !length_map. }
  exists r. split; [exact Hr|].
  apply recognize_outcome in Hr as [Hr|(i & d & n & pid & Hd & Hn & Hp & Hle
                                        & Hmin & ->)]; [now left|].
  right. unfold load_known_faces in *. simpl in *.
  unfold face_distance in Hd, Hmin.
  rewrite map_lookup in Hn. rewrite map_lookup in Hp.
  rewrite !map_lookup in Hd.
  destruct (get_all_persons s !! i) as [p|] eqn:Hrow; [|discriminate].
  simpl in *. injection Hn as <-. injection Hp as <-. injection Hd as <-.
  exists p. split.
  { apply get_all_persons_In. apply list_elem_of_In.
    apply list_elem_of_lookup. eauto. }
  repeat (split; [first [reflexivity|assumption]|]).
  intros q Hq. apply get_all_persons_In in Hq.
  apply list_elem_of_In, list_elem_of_lookup in Hq as [j Hj].
  apply (Hmin j). now rewrite !map_lookup, Hj.
Qed.

(** Whatever the known faces, a face that is matched has a confidence of at
    least one minus the tolerance, and a face that is not matched is the
    fixed "Unknown" record with confidence 0; with no known face at all
    every face is unknown. *)
Theorem recognize_confidence_floor (distance : encoding -> encoding -> Q)
    (kf : known_faces) (tol : Q) (e : encoding) (r : recognition) :
  recognize distance kf tol e = Some r ->
  (r_person_id r = None -> r = unknown_face) /\
  (forall pid, r_person_id r = Some pid -> (1 - tol <= r_confidence r)%Q) /\
  (encodings kf = [] -> r = unknown_face).
Proof.
  intros Hr. split; [|split].
  - intros Hnone. apply recognize_outcome in Hr as [Hr|(i & d & n & pid & _ & _
      & _ & _ & _ & ->)]; [exact Hr|discriminate].
  - intros pid Hpid. apply recognize_outcome in Hr as [->|(i & d & n & pid' & _
      & _ & _ & Hle & _ & ->)]; [discriminate|]. simpl. lra.
  - intros Hempty. unfold recognize in Hr. rewrite Hempty in Hr. simpl in Hr.
    now injection Hr as <-.
Qed.

(** [process_frame] reports one detection per face found, in order, with the
    bounding box multiplied by 4 and the image path built from the face's
    time stamp and the name reported.  The image is in the directory
    afterwards when its file name can be created there (a name with a path
    separator cannot); no existing file disappears, and paths that no
    detection uses keep their content. *)
Theorem process_frame_detections (distance : encoding -> encoding -> Q)
    (kf : known_faces) (tol : Q) (faces : list face)
    (files0 : gmap string string) :
  length (names kf) = length (encodings kf) ->
  length (ids kf) = length (encodings kf) ->
  exists ds,
    fst (process_frame distance kf tol files0 faces) = Some ds /\
    length ds = length faces /\
    map d_location ds = map (fun f => scale_back (f_location f)) faces /\
    Forall2
      (fun f d =>
         d_image_path d = image_path_of (f_stamp f) (d_name d) /\
         (writable_name (image_name_of (f_stamp f) (d_name d)) = true ->
          is_Some (snd (process_frame distance kf tol files0 faces)
                     !! d_image_path d)))
      faces ds /\
    (forall path, is_Some (files0 !! path) ->
       is_Some (snd (process_frame distance kf tol files0 faces) !! path)) /\
    (forall path, (forall d, In d ds -> d_image_path d <> path) ->
       snd (process_frame distance kf tol files0 faces) !! path
       = files0 !! path).
Proof.
  intros Hn Hi. revert files0.
  induction faces as [|f faces IH]; intros files0; simpl.
  - exists []. repeat split; auto.
  - destruct (recognize_total distance kf tol (f_encoding f) Hn Hi) as [r Hr].
    rewrite Hr.
    set (img := image_path_of (f_stamp f) (r_name r)).
    set (files1 := imwrite (f_stamp f) (r_name r) img (f_crop f) files0).
    destruct (IH files1) as (rest & H1 & H2 & H3 & H4 & H5 & H6).
    destruct (process_frame distance kf tol files1 faces) as [out files2].
    simpl in *. subst out. simpl.
    eexists. split; [reflexivity|]. simpl.
    split; [now rewrite H2|]. split; [now rewrite H3|].
    split; [|split].
    + constructor; [|exact H4]. simpl. split; [reflexivity|].
      intros Hw. apply H5. unfold files1, imwrite. rewrite Hw.
      rewrite lookup_insert_eq. eauto.
    + intros path Hpath. apply H5. unfold files1, imwrite.
      destruct (writable_name _); [|exact Hpath].
      destruct (decide (img = path)) as [->|Hne].
      * rewrite lookup_insert_eq. eauto.
      * now rewrite lookup_insert_ne.
    + intros path Hpath. rewrite H6.
      * unfold files1, imwrite. destruct (writable_name _); [|reflexivity].
        apply lookup_insert_ne. intros E. apply (Hpath _ (or_introl eq_refl)).
        exact E.
      * intros d Hd. apply Hpath. now right.
Qed.

Lemma delivered_cons_some {A : Type} (x : A) (frames : list (option A)) :
  delivered (Some x :: frames) = 1 + delivered frames.
Proof. unfold delivered. simpl. lia. Qed.

Lemma delivered_nonneg {A : Type} (frames : list (option A)) :
  0 <= delivered frames.
Proof. unfold delivered. lia. Qed.

Lemma run_iteration_skip (distance : encoding -> encoding -> Q) (tol : Q)
    (n : Z) (st : loop_state) (found : list (face * clocks)) :
  n = 0 \/ (frame_count st + 1) mod n <> 0 ->
  run_iteration distance tol n st (Some found)
  = {| sys := sys st; faces_known := faces_known st;
       files := files st; frame_count := frame_count st + 1 |}.
Proof.
  intros H. unfold run_iteration. destruct (Z.eqb_spec n 0); [reflexivity|].
  destruct (Z.eqb_spec ((frame_count st + 1) mod n) 0); [|reflexivity].
  destruct H; contradiction.
Qed.

Lemma run_off_stride (distance : encoding -> encoding -> Q) (tol : Q) (n : Z)
    (frames : list (option (list (face * clocks)))) (st : loop_state) :
  0 < n -> frame_count st mod n + delivered frames < n ->
  sys (run distance tol n st frames) = sys st /\
  files (run distance tol n st frames) = files st /\
  frame_count (run distance tol n st frames) = frame_count st + delivered frames.
Proof.
  intros Hn. unfold run. revert st.
  induction frames as [|[found|] frames IH]; intros st Hk; cbn [fold_left].
  - unfold delivered. simpl. repeat split. lia.
  - rewrite delivered_cons_some in *.
    pose proof (delivered_nonneg frames) as Hd.
    pose proof (Z.mod_pos_bound (frame_count st) n Hn) as Hb.
    assert (Hm : (frame_count st + 1) mod n = frame_count st mod n + 1).
    { symmetry. apply (Z.mod_unique_pos _ _ (frame_count st / n)); [lia|].
      pose proof (Z.div_mod (frame_count st) n). lia. }
    rewrite run_iteration_skip by (right; lia).
    match goal with
    | |- context [fold_left _ frames ?st1] =>
        destruct (IH st1) as (H1 & H2 & H3); [simpl; rewrite Hm; lia|]
    end.
    rewrite H1, H2, H3. simpl. repeat split. lia.
  - change (delivered (None :: frames)) with (delivered frames) in *.
    now apply IH.
Qed.

(** Frames the loop does not look at: with a stride of 0 no frame is ever
    processed (each one raises and is skipped); frames that [get_frame]
    failed to deliver change nothing, not even the frame counter; and until
    the counter reaches the next multiple of the stride the system and the
    image directory stay as they were. *)
Theorem run_skips_frames (distance : encoding -> encoding -> Q) (tol : Q)
    (n : Z) (st : loop_state) (frames : list (option (list (face * clocks)))) :
  let st' := run distance tol n st frames in
  (n = 0 -> sys st' = sys st /\ files st' = files st /\
            frame_count st' = frame_count st + delivered frames) /\
  (delivered frames = 0 -> st' = st) /\
  (0 < n -> frame_count st mod n + delivered frames < n ->
   sys st' = sys st /\ files st' = files st /\
   frame_count st' = frame_count st + delivered frames).
Proof.
  cbv zeta. split; [|split].
  - intros ->. unfold run. revert st.
    induction frames as [|[found|] frames IH]; intros st; cbn [fold_left].
    + unfold delivered. simpl. repeat split. lia.
    + rewrite delivered_cons_some. rewrite run_iteration_skip by now left.
      match goal with
      | |- context [fold_left _ frames ?st1] =>
          destruct (IH st1) as (H1 & H2 & H3)
      end.
      rewrite H1, H2, H3. simpl. repeat split. lia.
    + apply IH.
  - unfold run. revert st.
    induction frames as [|[found|] frames IH]; intros st Hd; cbn [fold_left].
    + reflexivity.
    + rewrite delivered_cons_some in Hd.
      pose proof (delivered_nonneg frames). lia.
    + now apply IH.
  - apply run_off_stride.
Qed.

Lemma bump_identity (pid now : Z) (rows : list person) :
  map identity_of (update_where_id pid (seen_again now) rows)
  = map identity_of rows.
Proof.
  unfold update_where_id. rewrite List.map_map. apply List.map_ext.
  intros p. now destruct (p_id p =? pid).
Qed.

Lemma send_disabled (nt : Notifier.notifier) (ts t m : string)
    (img : option string) (conf : option Q) :
  Notifier.enabled nt = false ->
  Notifier.send_notification nt ts t m img conf = nt.
Proof. intros E. unfold Notifier.send_notification. now rewrite E. Qed.

Lemma handle_person_appends (st : system) (c : clocks) (d : detection) :
  map identity_of (persons (store (handle_person st c d)))
    = map identity_of (persons (store st)) /\
  (exists vs, visits (store (handle_person st c d)) = visits (store st) ++ vs) /\
  (exists us,
     unknown_visitors (store (handle_person st c d))
       = unknown_visitors (store st) ++ us /\
     Forall (fun u => u_identified u = false /\ u_identified_as u = None) us) /\
  (Notifier.enabled (notifier st) = false ->
   notifier (handle_person st c d) = notifier st).
Proof.
  unfold handle_person, should_notify.
  destruct (optint_truthy (d_person_id d)).
  - destruct (d_person_id d) as [pid|]; simpl.
    + destruct (Qlt_bool _ _); simpl.
      * rewrite bump_identity. split; [reflexivity|]. split; [eauto|].
        split; [exists []; rewrite List.app_nil_r; auto|].
        apply send_disabled.
      * split; [reflexivity|]. split; [exists []; now rewrite List.app_nil_r|].
        split; [exists []; rewrite List.app_nil_r; auto|]. reflexivity.
    + rewrite bump_identity. split; [reflexivity|]. split; [eauto|].
      split; [exists []; rewrite List.app_nil_r; auto|].
      apply send_disabled.
  - simpl. split; [reflexivity|]. split; [exists []; now rewrite List.app_nil_r|].
    split; [|apply send_disabled].
    eexists. split; [reflexivity|]. repeat constructor.
Qed.

(** The loop only appends to the store: whatever it detects, it never
    changes the id, name, embedding or notes of a person, never removes or
    alters a visit or a sighting, and every sighting it adds is unresolved;
    with notifications disabled the notifier is left as it was. *)
Theorem loop_only_appends (st : system) (events : list (clocks * detection)) :
  let st' := handle_persons st events in
  map identity_of (persons (store st')) = map identity_of (persons (store st)) /\
  (exists vs, visits (store st') = visits (store st) ++ vs) /\
  (exists us,
     unknown_visitors (store st') = unknown_visitors (store st) ++ us /\
     Forall (fun u => u_identified u = false /\ u_identified_as u = None) us) /\
  (Notifier.enabled (notifier st) = false -> notifier st' = notifier st).
Proof.
  cbv zeta. unfold handle_persons. revert st.
  induction events as [|[c d] events IH]; intros st; simpl.
  - split; [reflexivity|]. split; [exists []; now rewrite List.app_nil_r|].
    split; [exists []; rewrite List.app_nil_r; auto|]. reflexivity.
  - destruct (handle_person_appends st c d) as (P1 & (vs1 & V1) & (us1 & U1 & F1) & N1).
    destruct (IH (handle_person st c d)) as (P2 & (vs2 & V2) & (us2 & U2 & F2) & N2).
    split; [now rewrite P2|]. split; [|split].
    + exists (vs1 ++ vs2). now rewrite V2, V1, List.app_assoc.
    + exists (us1 ++ us2). split; [now rewrite U2, U1, List.app_assoc|].
      apply List.Forall_app. auto.
    + intros Hoff. rewrite N2; [now apply N1|].
      now rewrite LoopFacts.handle_person_enabled.
Qed.

End LoopExtras.

(** * More about the dashboard *)

Module AppExtras.

Import Database DatabaseQueries Json Spec ConfigSpec ExtraSpec.

Lemma identify_unknown_cases (fe : string -> option (list encoding))
    (w : App.world) (now unknown_id : Z) (rq : option App.person_form) :
  (App.status (fst (App.identify_unknown fe w now unknown_id rq)) <> 200 /\
   snd (App.identify_unknown fe w now unknown_id rq) = w) \/
  (exists data u image e rest pid s1,
     rq = Some data /\
     In u (unknown_visitors (App.store w)) /\ u_id u = unknown_id /\
     u_identified u = false /\
     App.files w !! u_image_path u = Some image /\
     fe image = Some (e :: rest) /\
     Database.add_person (App.store w) now (default "" (App.form_name data)) e
       (App.form_notes data) = (Some pid, s1) /\
     App.status (fst (App.identify_unknown fe w now unknown_id rq)) = 200 /\
     snd (App.identify_unknown fe w now unknown_id rq)
     = App.commit (App.commit w s1)
         (snd (mark_unknown_as_identified s1 unknown_id pid))).
Proof.
  unfold App.identify_unknown.
  destruct rq as [data|]; [|left; split; [discriminate|reflexivity]].
  destruct (App.form_name_truthy data); cbn [negb];
    [|left; split; [discriminate|reflexivity]].
  destruct (find _ _) as [u|] eqn:Hfind;
    [|left; split; [discriminate|reflexivity]].
  apply StoreFacts.find_unknown_visitor in Hfind as (Hu & Huid & Hflag).
  destruct (App.files w !! u_image_path u) as [image|] eqn:Himg;
    [|left; split; [discriminate|reflexivity]].
  destruct (fe image) as [[|e rest]|] eqn:Hfe;
    try (left; split; [discriminate|reflexivity]).
  destruct (Database.add_person (App.store w) now
              (default "" (App.form_name data)) e (App.form_notes data))
    as [[pid|] s1] eqn:Ha; cbn [optint_truthy];
    [|left; split; [discriminate|reflexivity]].
  destruct (negb (pid =? 0)); [|left; split; [discriminate|reflexivity]].
  right. exists data, u, image, e, rest, pid, s1. simpl. repeat split; auto.
Qed.

(** A sighting is promoted at most once: after a successful promotion, any
    further request to identify the same sighting is answered 404 and
    changes nothing. *)
Theorem identify_unknown_once (fe : string -> option (list encoding))
    (w : App.world) (now now' unknown_id : Z) (rq : option App.person_form)
    (again : App.person_form) :
  App.status (fst (App.identify_unknown fe w now unknown_id rq)) = 200 ->
  App.form_name_truthy again = true ->
  App.identify_unknown fe (snd (App.identify_unknown fe w now unknown_id rq))
    now' unknown_id (Some again)
  = ({| App.status := 404;
        App.content := App.Error "Unknown visitor not found" |},
     snd (App.identify_unknown fe w now unknown_id rq)).
Proof.
  intros Hok Hname.
  destruct (identify_unknown_cases fe w now unknown_id rq)
    as [[Hbad _]|(data & u & image & e & rest & pid & s1 & _ & _ & _ & _ & _ & _
                  & _ & _ & ->)]; [contradiction|].
  unfold App.identify_unknown at 1. rewrite Hname. cbn [negb].
  assert (Hnone : find (fun v => u_id v =? unknown_id)
            (get_unknown_visitors
               (App.store
                  (App.commit (App.commit w s1)
                     (snd (mark_unknown_as_identified s1 unknown_id pid))))
               1000 false) = None).
  { apply StoreExtras.find_none_iff. intros v Hv. apply Z.eqb_neq.
    unfold get_unknown_visitors in Hv.
    apply StoreFacts.In_sql_limit in Hv.
    apply StoreFacts.order_by_desc_In in Hv.
    apply List.filter_In in Hv as [Hin Hflag]. simpl in Hin.
    apply List.in_map_iff in Hin as (u0 & E & _).
    destruct (Z.eqb_spec (u_id u0) unknown_id) as [Hid|Hid]; subst v;
      [discriminate Hflag|exact Hid]. }
  now rewrite Hnone.
Qed.

(** A promotion that does not succeed leaves the database, the image
    directory and the history of commits exactly as they were; it cannot
    succeed under a name that is already registered. *)
Theorem identify_unknown_failure_is_clean
    (fe : string -> option (list encoding)) (w : App.world)
    (now unknown_id : Z) (rq : option App.person_form) :
  (App.status (fst (App.identify_unknown fe w now unknown_id rq)) <> 200 ->
   snd (App.identify_unknown fe w now unknown_id rq) = w) /\
  (forall data, rq = Some data ->
     name_taken (default "" (App.form_name data)) (App.store w) = true ->
     App.status (fst (App.identify_unknown fe w now unknown_id rq)) <> 200).
Proof.
  destruct (identify_unknown_cases fe w now unknown_id rq)
    as [[Hbad Hsame]|(data & u & image & e & rest & pid & s1 & -> & _ & _ & _
                      & _ & _ & Ha & Hok & _)].
  - split; [auto|]. intros; exact Hbad.
  - split; [intros Hbad; contradiction|].
    intros data' [= <-] Htaken. unfold Database.add_person in Ha.
    rewrite Htaken in Ha. discriminate.
Qed.

(** [GET /api/person/<id>] answers 500 for an id that SQLite cannot bind.
    For any other id it answers 404 exactly when no person has the id;
    otherwise it shows a person with that id together with at most ten
    visits, all of that person. *)
Theorem get_person_view (s : db) (person_id : Z) :
  (sql_int person_id = false ->
   AppViews.get_person s person_id = (500, None)) /\
  (sql_int person_id = true ->
   ((forall p, In p (persons s) -> p_id p <> person_id) ->
    AppViews.get_person s person_id = (404, None)) /\
   (forall p, In p (persons s) -> p_id p = person_id ->
    exists p' recent,
      AppViews.get_person s person_id
        = (200, Some (AppViews.view_of p', recent)) /\
      In p' (persons s) /\ p_id p' = person_id /\
      Z.of_nat (length recent) <= 10 /\
      (person_id <> 0 ->
       forall v n, In (v, n) recent ->
         In v (visits s) /\ v_person_id v = person_id))).
Proof.
  unfold AppViews.get_person, get_person_call, get_recent_visits_call.
  change (default 0 (Some person_id)) with person_id.
  split; intros Hrange; rewrite Hrange; [reflexivity|].
  rewrite orb_true_r.
  change (sql_int 10) with true. cbn [andb].
  unfold Database.get_person. split.
  - intros Habs.
    assert (H : find (fun p => p_id p =? person_id) (persons s) = None).
    { apply StoreExtras.find_none_iff. intros p Hp. apply Z.eqb_neq. auto. }
    now rewrite H.
  - intros p Hp Hid.
    destruct (find (fun p => p_id p =? person_id) (persons s)) as [p'|] eqn:Hf.
    + apply List.find_some in Hf as [Hin Hid']. apply Z.eqb_eq in Hid'.
      exists p', (get_recent_visits s 10 (Some person_id)).
      split; [reflexivity|]. split; [exact Hin|]. split; [exact Hid'|].
      split.
      * unfold get_recent_visits. apply StoreExtras.sql_limit_length. lia.
      * intros Hnz v n Hv. unfold get_recent_visits in Hv.
        apply StoreFacts.In_sql_limit in Hv.
        apply StoreFacts.order_by_desc_In in Hv. simpl in Hv.
        destruct (Z.eqb_spec person_id 0); [contradiction|]. simpl in Hv.
        apply List.filter_In in Hv as [Hj Hv]. apply Z.eqb_eq in Hv.
        apply StoreExtras.join_persons_In in Hj as [Hj _]. auto.
    + exfalso. apply (List.find_none _ _ Hf) in Hp.
      apply Z.eqb_neq in Hp. contradiction.
Qed.

Lemma on_field_result (k : string) (g : json -> option json) (v v' : json) :
  on_field k g v = Some v' ->
  match py_getitem v k with
  | Some c => exists c', g c = Some c' /\ py_getitem v' k = Some c'
  | None => py_getitem v' k = None
  end.
Proof.
  unfold on_field. destruct (py_in k v) as [[|]|] eqn:Hin; [| |discriminate].
  - destruct (py_getitem v k) as [c|] eqn:Hc; [|discriminate].
    destruct (g c) as [c'|] eqn:Hg; [|discriminate]. intros [= <-].
    exists c'. split; [reflexivity|].
    destruct v; simpl in *; try discriminate. apply AppFacts.dict_get_set_eq.
  - intros [= <-]. destruct v; simpl in *; try reflexivity.
    rewrite AppFacts.existsb_dict_get in Hin.
    destruct (dict_get k fields); [discriminate|reflexivity].
Qed.

Lemma dict_get_pop_ne (key k : string) (fields : list (string * json)) :
  k <> key -> dict_get k (dict_pop key fields) = dict_get k fields.
Proof.
  intros Hne. unfold dict_pop.
  induction fields as [|[k0 v0] fields IH]; simpl; [reflexivity|].
  destruct (String.eqb_spec k0 key) as [->|E]; simpl.
  - destruct (String.eqb_spec key k); [congruence|exact IH].
  - destruct (String.eqb k0 k); [reflexivity|exact IH].
Qed.

Lemma py_pop_other (key k : string) (c c' : json) :
  py_pop c key = Some c' -> k <> key -> py_getitem c' k = py_getitem c k.
Proof.
  destruct c; simpl; try discriminate. intros [= <-] Hne. simpl.
  now apply dict_get_pop_ne.
Qed.

Lemma lookup_two (k1 k2 : string) (v : json) :
  lookup_path [k1; k2] v
  = match py_getitem v k1 with
    | Some c => py_getitem c k2
    | None => None
    end.
Proof.
  simpl. destruct (py_getitem v k1) as [c|]; [|reflexivity].
  now destruct (py_getitem c k2).
Qed.

Lemma lookup_three (k1 k2 k3 : string) (v : json) :
  lookup_path [k1; k2; k3] v
  = match py_getitem v k1 with
    | Some c => lookup_path [k2; k3] c
    | None => None
    end.
Proof. reflexivity. Qed.

(** Redaction removes nothing but the three secrets: in a successful reply
    of [GET /api/config] every other entry of the document, of its [dvr]
    and [notifications] objects and of the [email] and [telegram] objects
    is as stored. *)
Theorem get_config_keeps_the_rest (config out : json) :
  App.get_config (Some config)
    = {| App.status := 200; App.content := App.Payload out |} ->
  (forall k, k <> "dvr" -> k <> "notifications" ->
     py_getitem out k = py_getitem config k) /\
  (forall k, k <> "password" ->
     lookup_path ["dvr"; k] out = lookup_path ["dvr"; k] config) /\
  (forall k, k <> "email" -> k <> "telegram" ->
     lookup_path ["notifications"; k] out
     = lookup_path ["notifications"; k] config) /\
  (forall k, k <> "sendgrid_api_key" ->
     lookup_path ["notifications"; "email"; k] out
     = lookup_path ["notifications"; "email"; k] config) /\
  (forall k, k <> "bot_token" ->
     lookup_path ["notifications"; "telegram"; k] out
     = lookup_path ["notifications"; "telegram"; k] config).
Proof.
  intros Hout. apply AppFacts.get_config_payload in Hout as (c1 & H1 & H2).
  rewrite AppFacts.strip_dvr_on_field in H1.
  rewrite AppFacts.strip_notifications_on_field in H2.
  assert (Hdvr : py_getitem out "dvr" = py_getitem c1 "dvr").
  { apply (AppFacts.on_field_other_key "notifications" "dvr" _ _ _
             ltac:(discriminate) H2). }
  assert (Hnot : py_getitem c1 "notifications" = py_getitem config "notifications").
  { apply (AppFacts.on_field_other_key "dvr" "notifications" _ _ _
             ltac:(discriminate) H1). }
  pose proof (on_field_result _ _ _ _ H1) as R1.
  pose proof (on_field_result _ _ _ _ H2) as R2.
  rewrite Hnot in R2.
  assert (Hinner : forall n0 n2,
    match App.strip_channel "email" "sendgrid_api_key" n0 with
    | Some n1 => App.strip_channel "telegram" "bot_token" n1
    | None => None
    end = Some n2 ->
    (forall k, k <> "email" -> k <> "telegram" ->
       py_getitem n2 k = py_getitem n0 k) /\
    (forall k, k <> "sendgrid_api_key" ->
       lookup_path ["email"; k] n2 = lookup_path ["email"; k] n0) /\
    (forall k, k <> "bot_token" ->
       lookup_path ["telegram"; k] n2 = lookup_path ["telegram"; k] n0)).
  { intros n0 n2 Hg.
    destruct (App.strip_channel "email" "sendgrid_api_key" n0) as [n1|] eqn:He;
      [|discriminate].
    rewrite AppFacts.strip_channel_on_field in He, Hg.
    pose proof (on_field_result _ _ _ _ He) as Re.
    pose proof (on_field_result _ _ _ _ Hg) as Rt.
    split; [|split].
    - intros k Hk1 Hk2.
      rewrite (AppFacts.on_field_other_key "telegram" k _ _ _
                 ltac:(congruence) Hg).
      apply (AppFacts.on_field_other_key "email" k _ _ _ ltac:(congruence) He).
    - intros k Hk. rewrite !lookup_two.
      rewrite (AppFacts.on_field_other_key "telegram" "email" _ _ _
                 ltac:(discriminate) Hg).
      destruct (py_getitem n0 "email") as [e0|].
      + destruct Re as (e' & Hpop & ->). now apply (py_pop_other _ _ _ _ Hpop).
      + now rewrite Re.
    - intros k Hk. rewrite !lookup_two.
      rewrite <- (AppFacts.on_field_other_key "email" "telegram" _ _ _
                    ltac:(discriminate) He).
      destruct (py_getitem n1 "telegram") as [t0|].
      + destruct Rt as (t' & Hpop & ->). now apply (py_pop_other _ _ _ _ Hpop).
      + now rewrite Rt. }
  split; [|split; [|split; [|split]]].
  - intros k Hk1 Hk2.
    rewrite (AppFacts.on_field_other_key "notifications" k _ _ _
               ltac:(congruence) H2).
    apply (AppFacts.on_field_other_key "dvr" k _ _ _ ltac:(congruence) H1).
  - intros k Hk. rewrite !lookup_two, Hdvr.
    destruct (py_getitem config "dvr") as [d|].
    + destruct R1 as (d' & Hpop & ->). now apply (py_pop_other _ _ _ _ Hpop).
    + now rewrite R1.
  - intros k Hk1 Hk2. rewrite !lookup_two.
    destruct (py_getitem config "notifications") as [n0|].
    + destruct R2 as (n2 & Hg & ->). now apply (Hinner n0 n2 Hg).
    + now rewrite R2.
  - intros k Hk. rewrite !lookup_three.
    destruct (py_getitem config "notifications") as [n0|].
    + destruct R2 as (n2 & Hg & ->). now apply (Hinner n0 n2 Hg).
    + now rewrite R2.
  - intros k Hk. rewrite !lookup_three.
    destruct (py_getitem config "notifications") as [n0|].
    + destruct R2 as (n2 & Hg & ->). now apply (Hinner n0 n2 Hg).
    + now rewrite R2.
Qed.

Lemma strip_present_object (k key : string) (fields inner : list (string * json)) :
  dict_get k fields = Some (JObj inner) ->
  on_field k (fun c => py_pop c key) (JObj fields)
  = Some (JObj (dict_set k (JObj (dict_pop key inner)) fields)).
Proof.
  intros H. unfold on_field. simpl.
  now rewrite AppFacts.existsb_dict_get, H.
Qed.

Lemma strip_absent (k : string) (g : json -> option json)
    (fields : list (string * json)) :
  dict_get k fields = None -> on_field k g (JObj fields) = Some (JObj fields).
Proof.
  intros H. unfold on_field. simpl.
  now rewrite AppFacts.existsb_dict_get, H.
Qed.

Lemma strip_shaped (k key : string) (fields : list (string * json)) :
  obj_or_absent k fields = true ->
  exists fields',
    on_field k (fun c => py_pop c key) (JObj fields) = Some (JObj fields') /\
    forall k', k' <> k -> dict_get k' fields' = dict_get k' fields.
Proof.
  unfold obj_or_absent. destruct (dict_get k fields) as [v|] eqn:E.
  - destruct v; try discriminate. intros _.
    rewrite (strip_present_object _ _ _ _ E). eexists. split; [reflexivity|].
    intros k' Hne. apply AppFacts.dict_get_set_ne. congruence.
  - intros _. rewrite (strip_absent _ _ _ E). eauto.
Qed.

(** [GET /api/config] answers 200 for every document of the expected shape,
    and 500 when the document cannot be read or when its [dvr] entry is
    there but is not an object. *)
Theorem get_config_status (config : json) :
  (well_shaped config = true ->
   exists out, App.get_config (Some config)
     = {| App.status := 200; App.content := App.Payload out |}) /\
  (forall fields d,
     config = JObj fields -> dict_get "dvr" fields = Some d -> is_obj d = false ->
     App.get_config (Some config)
       = {| App.status := 500; App.content := App.Raised |}) /\
  App.get_config None = {| App.status := 500; App.content := App.Raised |}.
Proof.
  split; [|split; [|reflexivity]].
  - destruct config as [| | | | | |fields]; try discriminate. simpl.
    intros H. apply andb_true_iff in H as [Hd Hn].
    unfold App.get_config. rewrite AppFacts.strip_dvr_on_field.
    destruct (strip_shaped "dvr" "password" fields Hd) as (f1 & -> & Hsame).
    rewrite AppFacts.strip_notifications_on_field.
    rewrite <- (Hsame "notifications") in Hn by discriminate.
    destruct (dict_get "notifications" f1) as [n0|] eqn:En.
    + destruct n0 as [| | | | | |nf]; try discriminate.
      apply andb_true_iff in Hn as [He Ht].
      unfold on_field at 1. simpl. rewrite AppFacts.existsb_dict_get, En.
      rewrite !AppFacts.strip_channel_on_field.
      destruct (strip_shaped "email" "sendgrid_api_key" nf He) as (nf1 & -> & Hs1).
      rewrite AppFacts.strip_channel_on_field.
      assert (Ht1 : obj_or_absent "telegram" nf1 = true).
      { unfold obj_or_absent in *. now rewrite Hs1 by discriminate. }
      destruct (strip_shaped "telegram" "bot_token" nf1 Ht1) as (nf2 & -> & _).
      eauto.
    + rewrite (strip_absent _ _ _ En). eauto.
  - intros fields d -> Hd Hobj. unfold App.get_config, App.strip_dvr. simpl.
    rewrite AppFacts.existsb_dict_get, Hd.
    destruct d; try reflexivity. discriminate.
Qed.

End AppExtras.

(** * The DVR connector *)

Module DVRExtras.

Import DVRConnector.

Lemma opened_among_S (opens : nat -> bool) (from n : nat) :
  opened_among opens from (S n)
  = ((if opens from then 1 else 0) + opened_among opens (S from) n)%nat.
Proof.
  unfold opened_among. simpl. now destruct (opens from).
Qed.

Lemma opened_among_le (opens : nat -> bool) (from n : nat) :
  (opened_among opens from n <= n)%nat.
Proof.
  unfold opened_among.
  etransitivity; [apply List.filter_length_le|]. now rewrite length_seq.
Qed.

Section CameraFacts.

Context {Frame : Type}.
Variable opens : nat -> bool.
Variable stream : nat -> option Frame.

Lemma connect_loop_facts (fuel : nat) (d : dvr) :
  (Z.to_nat (max_reconnect_attempts - reconnect_attempts d) <= fuel)%nat ->
  exists n,
    ExtraSpec.connected opens stream d (connect_loop opens stream fuel d) n.
Proof.
  unfold ExtraSpec.connected, max_reconnect_attempts. cbv zeta. revert d.
  assert (Hok : forall d frame,
    opens (captures d) = true -> stream (reads d) = Some frame ->
    let r := (true, {| cap := Some true; reconnect_attempts := 0;
                       captures := S (captures d); reads := S (reads d) |}) in
    captures (snd r) = (captures d + 1)%nat /\
    (1 <= 1 <= Z.to_nat (Z.max 1 (5 - reconnect_attempts d)))%nat /\
    reads (snd r) = (reads d + opened_among opens (captures d) 1)%nat /\
    cap (snd r) = Some (opens (captures (snd r) - 1)%nat) /\
    (fst r = true ->
     reconnect_attempts (snd r) = 0 /\ cap (snd r) = Some true /\
     (reads d < reads (snd r))%nat /\
     is_Some (stream (reads (snd r) - 1)%nat)) /\
    (fst r = false ->
     1%nat = Z.to_nat (Z.max 1 (5 - reconnect_attempts d)) /\
     reconnect_attempts (snd r)
     = reconnect_attempts d + Z.max 1 (5 - reconnect_attempts d))).
  { intros d frame Ho Hs. cbv zeta. simpl. rewrite !Nat.sub_0_r.
    rewrite opened_among_S, Ho, Hs. unfold opened_among. simpl.
    split; [lia|]. split; [lia|]. split; [lia|]. split; [reflexivity|].
    split; [|discriminate]. intros _. split; [reflexivity|].
    split; [reflexivity|]. split; [lia|eauto]. }
  assert (Hno : forall d reads',
    reads' = (reads d + (if opens (captures d) then 1 else 0))%nat ->
    5 <= reconnect_attempts d + 1 ->
    let r := (false, {| cap := Some (opens (captures d));
                        reconnect_attempts := reconnect_attempts d + 1;
                        captures := S (captures d); reads := reads' |}) in
    captures (snd r) = (captures d + 1)%nat /\
    (1 <= 1 <= Z.to_nat (Z.max 1 (5 - reconnect_attempts d)))%nat /\
    reads (snd r) = (reads d + opened_among opens (captures d) 1)%nat /\
    cap (snd r) = Some (opens (captures (snd r) - 1)%nat) /\
    (fst r = true ->
     reconnect_attempts (snd r) = 0 /\ cap (snd r) = Some true /\
     (reads d < reads (snd r))%nat /\
     is_Some (stream (reads (snd r) - 1)%nat)) /\
    (fst r = false ->
     1%nat = Z.to_nat (Z.max 1 (5 - reconnect_attempts d)) /\
     reconnect_attempts (snd r)
     = reconnect_attempts d + Z.max 1 (5 - reconnect_attempts d))).
  { intros d reads' -> Hge. cbv zeta. simpl. rewrite !Nat.sub_0_r.
    rewrite opened_among_S. unfold opened_among. simpl.
    split; [lia|]. split; [lia|]. split; [lia|]. split; [reflexivity|].
    split; [discriminate|]. intros _. lia. }
  assert (Hrec : forall d d1 r n,
    reconnect_attempts d + 1 < 5 ->
    captures d1 = S (captures d) ->
    reads d1 = (reads d + (if opens (captures d) then 1 else 0))%nat ->
    reconnect_attempts d1 = reconnect_attempts d + 1 ->
    captures (snd r) = (captures d1 + n)%nat /\
    (1 <= n <= Z.to_nat (Z.max 1 (5 - reconnect_attempts d1)))%nat /\
    reads (snd r) = (reads d1 + opened_among opens (captures d1) n)%nat /\
    cap (snd r) = Some (opens (captures (snd r) - 1)%nat) /\
    (fst r = true ->
     reconnect_attempts (snd r) = 0 /\ cap (snd r) = Some true /\
     (reads d1 < reads (snd r))%nat /\
     is_Some (stream (reads (snd r) - 1)%nat)) /\
    (fst r = false ->
     n = Z.to_nat (Z.max 1 (5 - reconnect_attempts d1)) /\
     reconnect_attempts (snd r)
     = reconnect_attempts d1 + Z.max 1 (5 - reconnect_attempts d1)) ->
    captures (snd r) = (captures d + S n)%nat /\
    (1 <= S n <= Z.to_nat (Z.max 1 (5 - reconnect_attempts d)))%nat /\
    reads (snd r) = (reads d + opened_among opens (captures d) (S n))%nat /\
    cap (snd r) = Some (opens (captures (snd r) - 1)%nat) /\
    (fst r = true ->
     reconnect_attempts (snd r) = 0 /\ cap (snd r) = Some true /\
     (reads d < reads (snd r))%nat /\
     is_Some (stream (reads (snd r) - 1)%nat)) /\
    (fst r = false ->
     S n = Z.to_nat (Z.max 1 (5 - reconnect_attempts d)) /\
     reconnect_attempts (snd r)
     = reconnect_attempts d + Z.max 1 (5 - reconnect_attempts d))).
  { intros d d1 r n Hlt Ec Er Ea (H1 & H2 & H3 & H4 & H5 & H6).
    rewrite Ec, Er, Ea in *. rewrite opened_among_S.
    split; [lia|]. split; [lia|]. split; [lia|]. split; [exact H4|].
    split.
    - intros Hf. destruct (H5 Hf) as (A & B & C & D).
      split; [exact A|]. split; [exact B|]. split; [lia|exact D].
    - intros Hf. destruct (H6 Hf) as (A & B). split; lia. }
  induction fuel as [|fuel IH]; intros d Hfuel.
  - cbn [connect_loop]. unfold max_reconnect_attempts. cbn [reconnect_attempts].
    destruct (opens (captures d)) eqn:Ho;
      [destruct (stream (reads d)) as [frame|] eqn:Hs|].
    + exists 1%nat. now apply (Hok d frame).
    + destruct (Z.ltb_spec (reconnect_attempts d + 1) 5); [lia|].
      exists 1%nat.
      pose proof (Hno d (S (reads d))) as Hl.
      cbv zeta in Hl. rewrite Ho in Hl. apply Hl; lia.
    + destruct (Z.ltb_spec (reconnect_attempts d + 1) 5); [lia|].
      exists 1%nat.
      pose proof (Hno d (reads d)) as Hl.
      cbv zeta in Hl. rewrite Ho in Hl. apply Hl; lia.
  - cbn [connect_loop]. unfold max_reconnect_attempts. cbn [reconnect_attempts].
    destruct (opens (captures d)) eqn:Ho;
      [destruct (stream (reads d)) as [frame|] eqn:Hs|].
    + exists 1%nat. now apply (Hok d frame).
    + destruct (Z.ltb_spec (reconnect_attempts d + 1) 5) as [Hlt|Hge].
      * match goal with |- context [connect_loop opens stream fuel ?x] =>
          destruct (IH x) as [n Hn]; [simpl; lia|]; exists (S n);
          apply (Hrec d x); [exact Hlt|reflexivity|simpl; rewrite Ho; lia
                            |reflexivity|exact Hn] end.
      * exists 1%nat.
        pose proof (Hno d (S (reads d))) as Hl.
        cbv zeta in Hl. rewrite Ho in Hl. apply Hl; lia.
    + destruct (Z.ltb_spec (reconnect_attempts d + 1) 5) as [Hlt|Hge].
      * match goal with |- context [connect_loop opens stream fuel ?x] =>
          destruct (IH x) as [n Hn]; [simpl; lia|]; exists (S n);
          apply (Hrec d x); [exact Hlt|reflexivity|simpl; rewrite Ho; lia
                            |reflexivity|exact Hn] end.
      * exists 1%nat.
        pose proof (Hno d (reads d)) as Hl.
        cbv zeta in Hl. rewrite Ho in Hl. apply Hl; lia.
Qed.

Lemma connect_facts (d : dvr) :
  exists n, ExtraSpec.connected opens stream d (connect opens stream d) n.
Proof. unfold connect. apply connect_loop_facts. lia. Qed.

End CameraFacts.

(** One call of [connect] creates at least one and at most
    [max(1, 5 - reconnect_attempts)] capture objects and makes one test read
    on each of them that is opened, and no other read.  It returns [True]
    after a test read that yields a frame, with the attempt counter reset
    and the capture opened; it returns [False] only when the whole budget is
    used, with the counter increased by it.  Once the counter has reached 4
    a call makes a single attempt. *)
Theorem connect_retries_bounded {Frame : Type} (opens : nat -> bool)
    (stream : nat -> option Frame) (d : dvr) :
  let r := connect opens stream d in
  let budget :=
    Z.to_nat (Z.max 1 (max_reconnect_attempts - reconnect_attempts d)) in
  let made := (captures (snd r) - captures d)%nat in
  (captures d < captures (snd r) <= captures d + budget)%nat /\
  reads (snd r) = (reads d + opened_among opens (captures d) made)%nat /\
  (reads (snd r) <= reads d + made)%nat /\
  cap (snd r) = Some (opens (captures (snd r) - 1)%nat) /\
  (fst r = true ->
   reconnect_attempts (snd r) = 0 /\ cap (snd r) = Some true /\
   (reads d < reads (snd r))%nat /\
   is_Some (stream (reads (snd r) - 1)%nat)) /\
  (fst r = false ->
   captures (snd r) = (captures d + budget)%nat /\
   reconnect_attempts (snd r) = reconnect_attempts d + Z.of_nat budget) /\
  (max_reconnect_attempts - 1 <= reconnect_attempts d -> budget = 1%nat).
Proof.
  cbv zeta.
  destruct (connect_facts opens stream d) as (n & H1 & H2 & H3 & H4 & H5 & H6).
  assert (E : (captures (snd (connect opens stream d)) - captures d)%nat = n)
    by lia.
  rewrite E. pose proof (opened_among_le opens (captures d) n) as Hle.
  split; [lia|]. split; [exact H3|]. split; [lia|]. split; [exact H4|].
  split; [exact H5|]. split.
  - intros Hf. destruct (H6 Hf) as (A & B). split; [lia|].
    rewrite B. unfold max_reconnect_attempts. lia.
  - unfold max_reconnect_attempts. lia.
Qed.

Lemma get_frame_facts {Frame : Type} (opens : nat -> bool)
    (stream : nat -> option Frame) (d : dvr) :
  0 <= reconnect_attempts d ->
  let r := get_frame opens stream d in
  (captures d <= captures (snd r) <= captures d + 10)%nat /\
  (reads d <= reads (snd r)
   <= reads d + 2 + (captures (snd r) - captures d))%nat /\
  0 <= reconnect_attempts (snd r) /\
  (forall frame, fst r = Some frame ->
     (reads d < reads (snd r))%nat /\
     stream (reads (snd r) - 1)%nat = Some frame) /\
  (forall frame, cap_usable d = true -> stream (reads d) = Some frame ->
     r = (Some frame,
          {| cap := cap d; reconnect_attempts := reconnect_attempts d;
             captures := captures d; reads := S (reads d) |})).
Proof.
  intros Ha. cbv zeta.
  assert (Hstep : forall d1, 0 <= reconnect_attempts d1 ->
    (captures d1 <= captures (snd (connect opens stream d1))
     <= captures d1 + 5)%nat /\
    (reads d1 <= reads (snd (connect opens stream d1))
     <= reads d1 + (captures (snd (connect opens stream d1)) - captures d1))%nat /\
    0 <= reconnect_attempts (snd (connect opens stream d1))).
  { intros d1 H1.
    destruct (connect_facts opens stream d1) as (n & B & N & R & _ & T & F).
    pose proof (opened_among_le opens (captures d1) n) as Hle.
    unfold max_reconnect_attempts in *. split; [lia|]. split; [lia|].
    destruct (fst (connect opens stream d1)) eqn:E.
    - destruct (T eq_refl) as (-> & _). lia.
    - destruct (F eq_refl) as (_ & ->). lia. }
  assert (Hafter : forall d1, 0 <= reconnect_attempts d1 ->
    (captures d <= captures d1 <= captures d + 5)%nat ->
    (reads d <= reads d1 <= reads d + (captures d1 - captures d))%nat ->
    let r := match read_frame stream d1 with
             | (Some frame, d2) => (Some frame, d2)
             | (None, d2) =>
                 match connect opens stream d2 with
                 | (false, d3) => (None, d3)
                 | (true, d3) => read_frame stream d3
                 end
             end in
    (captures d <= captures (snd r) <= captures d + 10)%nat /\
    (reads d <= reads (snd r)
     <= reads d + 2 + (captures (snd r) - captures d))%nat /\
    0 <= reconnect_attempts (snd r) /\
    (forall frame, fst r = Some frame ->
       (reads d < reads (snd r))%nat /\
       stream (reads (snd r) - 1)%nat = Some frame)).
  { intros d1 H1 Hc Hr. cbv zeta. unfold read_frame.
    destruct (stream (reads d1)) as [frame|] eqn:Hs.
    - simpl. rewrite Nat.sub_0_r.
      split; [lia|]. split; [lia|]. split; [lia|].
      intros f [= <-]. split; [lia|exact Hs].
    - set (d2 := {| cap := cap d1; reconnect_attempts := reconnect_attempts d1;
                    captures := captures d1; reads := S (reads d1) |}).
      destruct (Hstep d2 H1) as (C2 & R2 & A2). simpl in C2, R2.
      destruct (connect opens stream d2) as [[|] d3]; simpl in *.
      + rewrite Nat.sub_0_r.
        split; [lia|]. split; [lia|]. split; [lia|].
        intros f Hf. split; [lia|exact Hf].
      + split; [lia|]. split; [lia|]. split; [lia|].
        intros f Hf. discriminate. }
  unfold get_frame. destruct (cap_usable d) eqn:Hcap.
  - cbn [negb].
    destruct (Hafter d Ha ltac:(lia) ltac:(lia)) as (C & R & A & F).
    split; [exact C|]. split; [exact R|]. split; [exact A|]. split; [exact F|].
    intros frame _ Hs. unfold read_frame. now rewrite Hs.
  - destruct (Hstep d Ha) as (C1 & R1 & A1).
    destruct (connect opens stream d) as [[|] d1]; simpl in C1, R1, A1;
      cbn [negb].
    + destruct (Hafter d1 A1 ltac:(lia) ltac:(lia)) as (C & R & A & F).
      split; [exact C|]. split; [exact R|]. split; [exact A|]. split; [exact F|].
      intros frame Hu. discriminate.
    + simpl. split; [lia|]. split; [lia|]. split; [lia|].
      split; intros; discriminate.
Qed.

(** One call of [get_frame] creates at most ten capture objects.  It reads
    at most twice itself, and [connect] reads once more for each capture
    that is opened, so at most twelve reads are made in all.  A frame it
    returns is the one returned by the last read; when the capture is open
    and the first read succeeds, nothing is reconnected. *)
Theorem get_frame_bounded {Frame : Type} (opens : nat -> bool)
    (stream : nat -> option Frame) (d : dvr) :
  0 <= reconnect_attempts d ->
  let r := get_frame opens stream d in
  (captures d <= captures (snd r) <= captures d + 10)%nat /\
  (reads d <= reads (snd r)
   <= reads d + 2 + (captures (snd r) - captures d))%nat /\
  (reads (snd r) <= reads d + 12)%nat /\
  0 <= reconnect_attempts (snd r) /\
  (forall frame, fst r = Some frame ->
     (reads d < reads (snd r))%nat /\
     stream (reads (snd r) - 1)%nat = Some frame) /\
  (forall frame, cap_usable d = true -> stream (reads d) = Some frame ->
     r = (Some frame,
          {| cap := cap d; reconnect_attempts := reconnect_attempts d;
             captures := captures d; reads := S (reads d) |})).
Proof.
  intros Ha. cbv zeta.
  destruct (get_frame_facts opens stream d Ha) as (C & R & A & F & G).
  split; [exact C|]. split; [exact R|]. split; [lia|].
  split; [exact A|]. split; [exact F|exact G].
Qed.

End DVRExtras.

(** * More worked examples *)

Module ExtraChecks.

Import Database DatabaseQueries FaceRecognitionSystem Json Spec ConfigSpec
  ExtraSpec Samples ExtraSamples.

Lemma sample_without_99 :
  forall p, In p (persons sample_store) -> p_id p <> 99.
Proof. intros p [<-|[<-|[<-|[]]]]; discriminate. Qed.

Lemma add_person_then_lookup_witness :
  exists p,
    get_person (snd (add_person sample_store 10 "Dave" [4%Q] "")) 4 = Some p /\
    get_person_by_name (snd (add_person sample_store 10 "Dave" [4%Q] "")) "Dave"
      = Some p /\
    p_visit_count p = 0.
Proof.
  destruct (StoreExtras.add_person_then_lookup sample_store
              (snd (add_person sample_store 10 "Dave" [4%Q] ""))
              10 4 "Dave" [4%Q] "" eq_refl)
    as (p & H1 & H2 & _ & _ & _ & _ & H3 & _).
  exists p. auto.
Defined.

Lemma delete_frees_name_not_id_witness :
  exists b s3,
    add_person
      (snd (delete_person (snd (add_person sample_store 10 "Dave" [4%Q] "")) 4))
      20 "Dave" [5%Q] "again" = (Some b, s3) /\ 4 < b.
Proof.
  apply (StoreExtras.delete_frees_name_not_id sample_store
           (snd (add_person sample_store 10 "Dave" [4%Q] ""))
           10 20 4 "Dave" [4%Q] [5%Q] "" "again" eq_refl).
Defined.

Lemma update_person_missing_witness :
  Database.update_person (App.store sample_world) 99 (Some "Zed") (Some "none")
    = (true, App.store sample_world) /\
  App.status (fst (App.update_person sample_world 99 (Some "Zed") (Some "none")))
    = 200 /\
  App.status (fst (App.update_person sample_world (2 ^ 63) (Some "Zed") None))
    = 500.
Proof.
  destruct (StoreExtras.update_person_missing sample_world 99 (Some "Zed")
              (Some "none") sample_without_99) as (H1 & _ & _).
  destruct (H1 (or_introl eq_refl)) as (A & B).
  destruct (StoreExtras.update_person_missing sample_world (2 ^ 63)
              (Some "Zed") None) as (_ & H2 & _).
  { intros p [<-|[<-|[<-|[]]]]; vm_compute; discriminate. }
  destruct (H2 eq_refl eq_refl) as (_ & C).
  split; [exact A|]. split; [now rewrite B|now rewrite C].
Defined.

Lemma update_person_name_conflict_witness :
  App.update_person sample_world 1 (Some "Bob") (Some "new notes")
  = ({| App.status := 500;
        App.content := App.Error "Failed to update person" |}, sample_world).
Proof.
  apply (StoreExtras.update_person_name_conflict sample_world 1 "Bob"
           (Some "new notes") (registered 1 "Alice" 2) (registered 2 "Bob" 5)).
  - now left.
  - reflexivity.
  - right. now left.
  - discriminate.
  - reflexivity.
  - discriminate.
Defined.

Lemma delete_person_idempotent_witness :
  delete_person (snd (delete_person sample_store 1)) 1
    = (true, snd (delete_person sample_store 1)) /\
  get_person_call (snd (delete_person sample_store 1)) 1 = Some None /\
  delete_person sample_store (2 ^ 63) = (false, sample_store).
Proof.
  pose proof (StoreExtras.delete_person_idempotent sample_store 1) as H.
  pose proof (StoreExtras.delete_person_idempotent sample_store (2 ^ 63)) as H'.
  cbv zeta in H, H'. destruct H as [H _], H' as [_ H'].
  destruct (H eq_refl) as (_ & A & _ & B).
  destruct (H' eq_refl) as (C & _ & D).
  split; [exact B|]. split; [exact A|].
  rewrite (surjective_pairing (delete_person sample_store (2 ^ 63))).
  rewrite C, D; [reflexivity|].
  split.
  - intros p [<-|[<-|[<-|[]]]]; reflexivity.
  - intros v [<-|[<-|[]]]; reflexivity.
Defined.

Lemma visit_counters_match_witness :
  counters_match (fold_left call_store sample_calls init_database).
Proof.
  apply (StoreExtras.visit_counters_match sample_calls).
  simpl. repeat split; vm_compute; discriminate.
Defined.


Lemma get_unknown_visitors_listing_witness :
  get_unknown_visitors_call sighting_store (2 ^ 63) false = None /\
  exists rows,
    get_unknown_visitors_call sighting_store 5 false = Some rows /\
    Z.of_nat (length rows) <= 5 /\
    forall u, In u (unknown_visitors sighting_store) ->
      u_identified u = false -> In u rows.
Proof.
  split.
  - apply (proj1 (StoreExtras.get_unknown_visitors_listing sighting_store
                    (2 ^ 63) false)). reflexivity.
  - destruct (proj2 (StoreExtras.get_unknown_visitors_listing sighting_store
                       5 false) eq_refl) as (rows & E & _ & H1 & _ & H2).
    exists rows. split; [exact E|]. split; [apply H1; lia|].
    apply H2. right. vm_compute. discriminate.
Defined.

Lemma get_recent_visits_listing_witness :
  Z.of_nat (length (get_recent_visits sample_store 1 (Some 2))) <= 1 /\
  forall v n, In (v, n) (get_recent_visits sample_store 1 (Some 2)) ->
    v_person_id v = 2.
Proof.
  pose proof (StoreExtras.get_recent_visits_listing sample_store 1 (Some 2)) as H.
  cbv zeta in H. destruct H as (_ & H1 & H2 & _).
  split; [apply H2; lia|]. apply (H1 2 eq_refl). lia.
Defined.


Lemma feed_keeps_latest_witness :
  Notifier.web_notifications
    (NotifierFeed.send_all console_only [alice_arrived; stranger_arrived])
  = firstn Notifier.max_web_notifications
      (rev (map NotifierFeed.as_notification [alice_arrived; stranger_arrived])
       ++ Notifier.web_notifications console_only).
Proof.
  apply (LoopExtras.feed_keeps_latest console_only
           [alice_arrived; stranger_arrived] eq_refl).
  simpl. unfold Notifier.max_web_notifications. lia.
Defined.

Lemma outbound_channels_guarded_witness :
  Notifier.outbox
    (NotifierFeed.send_all mail_only [alice_arrived; stranger_arrived])
  = [(Notifier.Email, NotifierFeed.as_notification alice_arrived);
     (Notifier.Email, NotifierFeed.as_notification stranger_arrived)] /\
  NotifierFeed.send_all muted [alice_arrived; stranger_arrived] = muted.
Proof.
  split.
  - apply (proj1 (LoopExtras.outbound_channels_guarded mail_only
                    [alice_arrived; stranger_arrived]) eq_refl).
  - apply (proj2 (LoopExtras.outbound_channels_guarded muted
                    [alice_arrived; stranger_arrived]) eq_refl).
Defined.

Lemma recognize_from_store_witness :
  exists r,
    recognize abs_distance (load_known_faces sample_store) 0.6%Q [2.5%Q] = Some r /\
    (r = unknown_face \/
     exists p,
       In p (persons sample_store) /\ r_name r = p_name p /\
       r_person_id r = Some (p_id p) /\
       r_confidence r = (1 - abs_distance (p_face_encoding p) [2.5%Q])%Q /\
       (abs_distance (p_face_encoding p) [2.5%Q] <= 0.6)%Q /\
       forall q, In q (persons sample_store) ->
         (abs_distance (p_face_encoding p) [2.5%Q]
          <= abs_distance (p_face_encoding q) [2.5%Q])%Q).
Proof.
  apply (LoopExtras.recognize_from_store abs_distance sample_store 0.6%Q [2.5%Q]).
Defined.

Lemma recognize_confidence_floor_witness :
  exists r,
    recognize abs_distance two_known 2 [3%Q] = Some r /\
    (1 - 2 <= r_confidence r)%Q.
Proof.
  eexists. split; [vm_compute; reflexivity|].
  eapply (LoopExtras.recognize_confidence_floor abs_distance two_known 2 [3%Q]).
  - vm_compute. reflexivity.
  - reflexivity.
Defined.

Lemma process_frame_detections_witness :
  (exists ds,
     fst (process_frame abs_distance two_known 2 ∅ [a_face; a_face]) = Some ds /\
     length ds = 2%nat /\
     forall d, In d ds ->
       is_Some (snd (process_frame abs_distance two_known 2 ∅ [a_face; a_face])
                  !! d_image_path d)) /\
  (exists d,
     fst (process_frame abs_distance slash_known 2 ∅ [a_face]) = Some [d] /\
     d_name d = "a/b" /\
     snd (process_frame abs_distance slash_known 2 ∅ [a_face])
       !! d_image_path d = None).
Proof.
  split.
  - destruct (LoopExtras.process_frame_detections abs_distance two_known 2
                [a_face; a_face] ∅ eq_refl eq_refl)
      as (ds & H1 & H2 & _ & H4 & _).
    exists ds. split; [exact H1|]. split; [exact H2|].
    assert (E : ds = [ {| d_name := "Bob"; d_person_id := Some 2;
                          d_confidence := (1 - 1)%Q;
                          d_image_path :=
                            image_path_of "20240101_120000_000000" "Bob";
                          d_location := (40, 120, 120, 40) |};
                       {| d_name := "Bob"; d_person_id := Some 2;
                          d_confidence := (1 - 1)%Q;
                          d_image_path :=
                            image_path_of "20240101_120000_000000" "Bob";
                          d_location := (40, 120, 120, 40) |} ]).
    { vm_compute in H1. injection H1 as <-. vm_compute. reflexivity. }
    subst ds. inversion H4 as [|f1 d1 fs1 ds1 [_ Ha] H4' E1 E2]; subst.
    inversion H4' as [|f2 d2 fs2 ds2 [_ Hb] _ E1 E2]; subst.
    intros d [<-|[<-|[]]]; [apply Ha|apply Hb]; reflexivity.
  - eexists. split; [vm_compute; reflexivity|].
    split; [reflexivity|]. vm_compute. reflexivity.
Defined.

Lemma run_skips_frames_witness :
  sys (run abs_distance 0.6%Q 6 alice_loop
         [alice_frame 100; None; alice_frame 101; alice_frame 102])
  = sys alice_loop.
Proof.
  pose proof (LoopExtras.run_skips_frames abs_distance 0.6%Q 6 alice_loop
                [alice_frame 100; None; alice_frame 101; alice_frame 102]) as H.
  cbv zeta in H. destruct H as (_ & _ & H).
  apply H; vm_compute; reflexivity.
Defined.

Lemma loop_only_appends_witness :
  notifier (handle_persons muted_system
              [(clocks_at 1000, alice_seen); (clocks_at 1001, stranger_seen)])
  = notifier muted_system.
Proof.
  pose proof (LoopExtras.loop_only_appends muted_system
                [(clocks_at 1000, alice_seen); (clocks_at 1001, stranger_seen)])
    as H.
  cbv zeta in H. destruct H as (_ & _ & _ & H). now apply H.
Defined.

Lemma identify_unknown_once_witness :
  App.status
    (fst (App.identify_unknown one_face
            (snd (App.identify_unknown one_face sighting_world 200 1
                    (Some alice_form)))
            300 1 (Some alice_form))) = 404.
Proof.
  rewrite (AppExtras.identify_unknown_once one_face sighting_world 200 300 1
             (Some alice_form) alice_form).
  - reflexivity.
  - vm_compute. reflexivity.
  - reflexivity.
Defined.

Lemma identify_unknown_failure_is_clean_witness :
  snd (App.identify_unknown one_face sighting_world 200 9 (Some alice_form))
  = sighting_world.
Proof.
  apply (AppExtras.identify_unknown_failure_is_clean one_face sighting_world
           200 9 (Some alice_form)).
  vm_compute. discriminate.
Defined.

Lemma get_person_view_witness :
  AppViews.get_person sample_store (2 ^ 63) = (500, None) /\
  AppViews.get_person sample_store 99 = (404, None) /\
  exists p' recent,
    AppViews.get_person sample_store 2
      = (200, Some (AppViews.view_of p', recent)) /\
    p_id p' = 2 /\ Z.of_nat (length recent) <= 10.
Proof.
  split; [|split].
  - apply (proj1 (AppExtras.get_person_view sample_store (2 ^ 63))).
    reflexivity.
  - apply (proj1 (proj2 (AppExtras.get_person_view sample_store 99) eq_refl)).
    exact sample_without_99.
  - destruct (proj2 (proj2 (AppExtras.get_person_view sample_store 2) eq_refl)
                (registered 2 "Bob" 5)) as (p' & recent & H1 & _ & H2 & H3 & _).
    + right. now left.
    + reflexivity.
    + exists p', recent. auto.
Defined.

Lemma get_config_keeps_the_rest_witness :
  exists out,
    App.get_config (Some sample_config)
      = {| App.status := 200; App.content := App.Payload out |} /\
    lookup_path ["dvr"; "ip"] out = lookup_path ["dvr"; "ip"] sample_config /\
    py_getitem out "recognition" = py_getitem sample_config "recognition".
Proof.
  eexists. split; [vm_compute; reflexivity|].
  match goal with
  | |- lookup_path _ ?out = _ /\ _ =>
      destruct (AppExtras.get_config_keeps_the_rest sample_config out)
        as (H1 & H2 & _)
  end.
  - vm_compute. reflexivity.
  - split; [apply H2|apply H1]; discriminate.
Defined.

Lemma get_config_status_witness :
  exists out, App.get_config (Some sample_config)
    = {| App.status := 200; App.content := App.Payload out |}.
Proof.
  apply (proj1 (AppExtras.get_config_status sample_config)). reflexivity.
Defined.

(** A camera that never opens: five captures from a fresh connector, one
    more on the next call. *)
Lemma connect_retries_bounded_witness :
  DVRConnector.captures
    (snd (DVRConnector.connect dead_camera stuttering_stream fresh_dvr))
    = 5%nat /\
  DVRConnector.captures
    (snd (DVRConnector.connect dead_camera stuttering_stream
            (snd (DVRConnector.connect dead_camera stuttering_stream
                    fresh_dvr)))) = 6%nat /\
  DVRConnector.reads
    (snd (DVRConnector.connect flaky_camera stuttering_stream fresh_dvr))
    = 2%nat.
Proof.
  pose proof (DVRExtras.connect_retries_bounded dead_camera stuttering_stream
                fresh_dvr) as H1.
  pose proof (DVRExtras.connect_retries_bounded dead_camera stuttering_stream
                (snd (DVRConnector.connect dead_camera stuttering_stream
                        fresh_dvr))) as H2.
  pose proof (DVRExtras.connect_retries_bounded flaky_camera stuttering_stream
                fresh_dvr) as H3.
  cbv zeta in H1, H2, H3.
  destruct H1 as (_ & _ & _ & _ & _ & H1 & _).
  destruct H2 as (_ & _ & _ & _ & _ & H2 & _).
  destruct H3 as (_ & H3 & _).
  destruct (H1 eq_refl) as (E1 & _). destruct (H2 eq_refl) as (E2 & _).
  split; [exact E1|]. split; [exact E2|]. rewrite H3. reflexivity.
Defined.

Lemma get_frame_bounded_witness :
  fst (DVRConnector.get_frame flaky_camera stuttering_stream fresh_dvr)
    = Some "frame" /\
  (DVRConnector.captures
     (snd (DVRConnector.get_frame flaky_camera stuttering_stream fresh_dvr))
   <= 10)%nat /\
  DVRConnector.reads
    (snd (DVRConnector.get_frame flaky_camera stuttering_stream fresh_dvr))
    = 3%nat.
Proof.
  pose proof (DVRExtras.get_frame_bounded flaky_camera stuttering_stream
                fresh_dvr) as H.
  cbv zeta in H. destruct H as (H & _); [vm_compute; discriminate|].
  split; [reflexivity|]. split; [apply H|reflexivity].
Defined.

End ExtraChecks.
